(** * CamPoint scene datasets: augmentation and test enumeration

    A shallow embedding of [scannetv2/dataset.py] and [s3dis/dataset.py]:
    the scene store, the training augmentation pipeline, the elastic
    distortion engine, the locality-preserving crop and the deterministic
    test enumeration, followed by the properties proved about them.

    Tensors of shape N x 3 are lists of rows; index tensors are lists of
    naturals; scalar arithmetic is taken through the [Scalar] interface so
    that the pipelines run on rationals and are reasoned about on reals.
    Python exceptions are the [Err] results of a small state-and-error
    monad whose state is the random source and the list of pipeline stages
    performed so far.

    The last part adds the pure parts of the test scripts
    ([scanobjectnn/test.py], [shapenetpart/test.py]) and of the model
    configurations: the warm-up loop, the experiment names, the class-wise
    scores and the stochastic depth schedule. *)

From Stdlib Require Import String.
From Stdlib Require Import List ZArith QArith Qround Reals Lia Lra Bool Arith.
From Stdlib Require Import Permutation Sorted FunctionalExtensionality.
From Stdlib Require DecimalString DecimalNat.
Import ListNotations.
Close Scope Q_scope.

(* ================================================================= *)
(** * Part I: the embedding *)
(* ================================================================= *)

(** ** Scalars *)

(** The element type of float tensors together with the operations the
    datasets use on it. [f_lit] reads a numeric literal. *)
Class Scalar (F : Type) : Type := {
  f_lit : Q -> F;
  fadd : F -> F -> F;
  fsub : F -> F -> F;
  fmul : F -> F -> F;
  fdiv : F -> F -> F;
  fopp : F -> F;
  fleb : F -> F -> bool;
  fltb : F -> F -> bool;
  ffloor : F -> Z
}.

(** [math.pi], [math.cos] and [math.sin]. *)
Class Trig (F : Type) : Type := {
  fpi : F;
  fcos : F -> F;
  fsin : F -> F
}.

Definition fmin {F} `{Scalar F} (a b : F) : F := if fleb a b then a else b.
Definition fmax {F} `{Scalar F} (a b : F) : F := if fleb a b then b else a.
Definition f_of_Z {F} `{Scalar F} (z : Z) : F := f_lit (inject_Z z).
Definition f_of_nat {F} `{Scalar F} (n : nat) : F := f_of_Z (Z.of_nat n).

(** Exact rationals kept in lowest terms: the executable instance. *)
#[export] Instance Scalar_Q : Scalar Q := {|
  f_lit := Qred;
  fadd := fun a b => Qred (Qplus a b);
  fsub := fun a b => Qred (Qminus a b);
  fmul := fun a b => Qred (Qmult a b);
  fdiv := fun a b => Qred (Qdiv a b);
  fopp := fun a => Qred (Qopp a);
  fleb := Qle_bool;
  fltb := fun a b => negb (Qle_bool b a);
  ffloor := Qfloor
|}.

(** Real numbers: the instance used for the analytic facts. *)
Definition Rleb (a b : R) : bool := if Rle_dec a b then true else false.
Definition Rltb (a b : R) : bool := if Rlt_dec a b then true else false.

#[export] Instance Scalar_R : Scalar R := {|
  f_lit := Q2R;
  fadd := Rplus;
  fsub := Rminus;
  fmul := Rmult;
  fdiv := Rdiv;
  fopp := Ropp;
  fleb := Rleb;
  fltb := Rltb;
  ffloor := Int_part
|}.

#[export] Instance Trig_R : Trig R := {|
  fpi := PI;
  fcos := cos;
  fsin := sin
|}.

(** A rational stand-in for the math library, for running the rotating
    pipelines on concrete scenes: [22/7] and the degree-4 and degree-3
    Taylor polynomials. *)
#[export] Instance Trig_Q_taylor : Trig Q := {|
  fpi := (22 # 7)%Q;
  fcos := fun x => Qred (1 - x * x / 2 + x * x * x * x / 24)%Q;
  fsin := fun x => Qred (x - x * x * x / 6)%Q
|}.

(** ** Results and the pipeline monad *)

Inductive error : Type :=
| IndexError
| ValueError
| ZeroDivisionError
| RuntimeError
| AssertionError
| FileNotFoundError.

Inductive res (A : Type) : Type :=
| Ok (a : A)
| Err (e : error).
Arguments Ok {A} a.
Arguments Err {A} e.

Definition res_bind {A B} (r : res A) (k : A -> res B) : res B :=
  match r with
  | Ok a => k a
  | Err e => Err e
  end.

Definition res_of_option {A} (e : error) (o : option A) : res A :=
  match o with
  | Some a => Ok a
  | None => Err e
  end.

(** ** Python integers and sequences *)

Local Open Scope Z_scope.

(** [a % b] and [a // b] on Python ints: floor semantics, which is what
    [Z.modulo] and [Z.div] compute; a zero divisor raises. *)
Definition py_mod (a b : Z) : res Z :=
  if b =? 0 then Err ZeroDivisionError else Ok (a mod b).

Definition py_floordiv (a b : Z) : res Z :=
  if b =? 0 then Err ZeroDivisionError else Ok (a / b).

Definition len {A} (l : list A) : Z := Z.of_nat (length l).

(** [l[i]] on a Python list: negative indices count from the end. *)
Definition py_index {A} (l : list A) (i : Z) : res A :=
  if 0 <=? i then res_of_option IndexError (nth_error l (Z.to_nat i))
  else if - len l <=? i then
    res_of_option IndexError (nth_error l (Z.to_nat (len l + i)))
  else Err IndexError.

(** [l[:n]] : a negative bound drops from the end. *)
Definition py_slice_to {A} (l : list A) (n : Z) : list A :=
  if 0 <=? n then firstn (Z.to_nat n) l
  else firstn (Z.to_nat (len l + n)) l.

(** ** The test-time variant catalogue *)

(** The locals [rotations] and [scales] of [ScanNetV2.get_test_item]. *)
Definition rotations : list Q := [0; 1 # 2; 1; 3 # 2]%Q.
Definition scales : list Q := [95 # 100; 1; 105 # 100]%Q.

(** Lines 225-229, 233 and 237 of [ScanNetV2.get_test_item]: from the
    sample index to the subsampling pick, the chosen rotation (a fraction
    of pi) and the chosen scale. *)
Definition test_variant (loop idx : Z) : res (Z * Q * Q) :=
  let augs := len rotations * len scales in
  res_bind (py_mod idx loop) (fun aug =>
  res_bind (py_floordiv aug augs) (fun pick =>
  res_bind (py_mod aug augs) (fun aug =>
  res_bind (py_floordiv aug (len scales)) (fun ri =>
  res_bind (py_index rotations ri) (fun rot =>
  res_bind (py_mod aug (len scales)) (fun si =>
  res_bind (py_index scales si) (fun sc =>
  Ok (pick, rot, sc)))))))).

Local Close Scope Z_scope.

(** ** Tensors *)

(** A row of an N x 3 tensor, an N x 3 tensor and a 3 x 3 matrix (its
    three rows). *)
Definition vec3 (F : Type) : Type := (F * F * F)%type.
Definition tensor (F : Type) : Type := list (vec3 F).
Definition mat3 (F : Type) : Type := (vec3 F * vec3 F * vec3 F)%type.

(** Component [a] (0, 1 or 2) of a triple: of a row, of a grid shape, of
    the three interpolation axes. *)
Definition coord {A : Type} (a : nat) (t : A * A * A) : A :=
  let '(t0, t1, t2) := t in
  match a with
  | 0 => t0
  | 1 => t1
  | _ => t2
  end.

Section TensorOps.
Context {F : Type} `{Scalar F}.

Definition vmap2 (op : F -> F -> F) (a b : vec3 F) : vec3 F :=
  let '(a0, a1, a2) := a in
  let '(b0, b1, b2) := b in
  (op a0 b0, op a1 b1, op a2 b2).

Definition vmap (op : F -> F) (a : vec3 F) : vec3 F :=
  let '(a0, a1, a2) := a in (op a0, op a1, op a2).

Definition vadd : vec3 F -> vec3 F -> vec3 F := vmap2 fadd.
Definition vsub : vec3 F -> vec3 F -> vec3 F := vmap2 fsub.
Definition vmul : vec3 F -> vec3 F -> vec3 F := vmap2 fmul.
Definition vdiv : vec3 F -> vec3 F -> vec3 F := vmap2 fdiv.
Definition vscale (s : F) : vec3 F -> vec3 F := vmap (fun x => fmul x s).
Definition vfill (x : F) : vec3 F := (x, x, x).

(** [torch.tensor([[cos, sin, 0], [-sin, cos, 0], [0, 0, 1]])] *)
Definition rotmat (c s : F) : mat3 F :=
  ((c, s, f_lit 0%Q),
   (fopp s, c, f_lit 0%Q),
   (f_lit 0%Q, f_lit 0%Q, f_lit 1%Q)).

(** [rotmat *= s] *)
Definition mat_scale (m : mat3 F) (s : F) : mat3 F :=
  let '(r0, r1, r2) := m in (vscale s r0, vscale s r1, vscale s r2).

(** One row of [xyz @ m]. *)
Definition vec_matmul (v : vec3 F) (m : mat3 F) : vec3 F :=
  let '(x, y, z) := v in
  let '((m00, m01, m02), (m10, m11, m12), (m20, m21, m22)) := m in
  (fadd (fadd (fmul x m00) (fmul y m10)) (fmul z m20),
   fadd (fadd (fmul x m01) (fmul y m11)) (fmul z m21),
   fadd (fadd (fmul x m02) (fmul y m12)) (fmul z m22)).

Definition matmul (t : tensor F) (m : mat3 F) : tensor F :=
  map (fun v => vec_matmul v m) t.

Definition transpose (m : mat3 F) : mat3 F :=
  let '((m00, m01, m02), (m10, m11, m12), (m20, m21, m22)) := m in
  ((m00, m10, m20), (m01, m11, m21), (m02, m12, m22)).

(** [a @ b] for two 3 x 3 matrices. *)
Definition mat_mul (a b : mat3 F) : mat3 F :=
  let '(r0, r1, r2) := a in
  (vec_matmul r0 b, vec_matmul r1 b, vec_matmul r2 b).

Definition det (m : mat3 F) : F :=
  let '((a, b, c), (d, e, f), (g, h, i)) := m in
  fadd (fsub (fmul a (fsub (fmul e i) (fmul f h)))
             (fmul b (fsub (fmul d i) (fmul f g))))
       (fmul c (fsub (fmul d h) (fmul e g))).

Definition identity : mat3 F :=
  ((f_lit 1%Q, f_lit 0%Q, f_lit 0%Q),
   (f_lit 0%Q, f_lit 1%Q, f_lit 0%Q),
   (f_lit 0%Q, f_lit 0%Q, f_lit 1%Q)).

(** [t.min(dim=0)[0]] and [t.max(dim=0)[0]]: a reduction over an empty
    dimension raises. *)
Definition col_min (t : tensor F) : res (vec3 F) :=
  match t with
  | [] => Err IndexError
  | v :: t' => Ok (fold_left (vmap2 fmin) t' v)
  end.

Definition col_max (t : tensor F) : res (vec3 F) :=
  match t with
  | [] => Err IndexError
  | v :: t' => Ok (fold_left (vmap2 fmax) t' v)
  end.

(** [t - v], [t * v] with [v] broadcast over the rows. *)
Definition sub_row (t : tensor F) (v : vec3 F) : tensor F :=
  map (fun p => vsub p v) t.

(** [t.mul_(s)], [t.fill_(x)] *)
Definition mul_scalar (t : tensor F) (s : F) : tensor F := map (vscale s) t.
Definition fill (t : tensor F) (x : F) : tensor F := map (fun _ => vfill x) t.

(** [a + b] for two tensors: the shapes must agree. *)
Definition tensor_add (a b : tensor F) : res (tensor F) :=
  if Nat.eqb (length a) (length b)
  then Ok (map (fun ab => vadd (fst ab) (snd ab)) (combine a b))
  else Err RuntimeError.

(** [(t - pt).square().sum(dim=1)] *)
Definition sqdist (pt p : vec3 F) : F :=
  let '(d0, d1, d2) := vsub p pt in
  fadd (fadd (fmul d0 d0) (fmul d1 d1)) (fmul d2 d2).

(** The squared length of a row. *)
Definition sqnorm (v : vec3 F) : F :=
  let '(x, y, z) := v in fadd (fadd (fmul x x) (fmul y y)) (fmul z z).

(** Rows of [torch.cat([col, height, norm], dim=1)] and of
    [torch.cat([col, height], dim=1)], with [height = xyz[:, 2:]]. *)
Definition height (p : vec3 F) : F := snd p.

Definition feature_row7 (c p n : vec3 F) : list F :=
  let '(c0, c1, c2) := c in
  let '(n0, n1, n2) := n in
  [c0; c1; c2; height p; n0; n1; n2].

Definition feature_row4 (c p : vec3 F) : list F :=
  let '(c0, c1, c2) := c in [c0; c1; c2; height p].
End TensorOps.

(** [t[indices]] (advanced indexing, a fresh tensor): every index must be
    in range. *)
Fixpoint gather {A} (t : list A) (indices : list nat) : res (list A) :=
  match indices with
  | [] => Ok []
  | i :: rest =>
      match nth_error t i with
      | None => Err IndexError
      | Some x => res_bind (gather t rest) (fun xs => Ok (x :: xs))
      end
  end.

(** [torch.cat(..., dim=1)]: the row counts must agree. *)
Fixpoint cat2 {A B C} (f : A -> B -> C) (a : list A) (b : list B)
  : res (list C) :=
  match a, b with
  | [], [] => Ok []
  | x :: a', y :: b' => res_bind (cat2 f a' b') (fun r => Ok (f x y :: r))
  | _, _ => Err RuntimeError
  end.

Fixpoint cat3 {A B C D} (f : A -> B -> C -> D)
  (a : list A) (b : list B) (c : list C) : res (list D) :=
  match a, b, c with
  | [], [], [] => Ok []
  | x :: a', y :: b', z :: c' =>
      res_bind (cat3 f a' b' c') (fun r => Ok (f x y z :: r))
  | _, _, _ => Err RuntimeError
  end.

(** ** Sorting *)

(** [torch.argsort] and [torch.sort] in ascending order, as an insertion
    sort. The library promises no order among equal keys; this one keeps
    the earlier element first. *)
Fixpoint insert_by {A} (leb : A -> A -> bool) (x : A) (l : list A) : list A :=
  match l with
  | [] => [x]
  | y :: l' => if leb x y then x :: l else y :: insert_by leb x l'
  end.

Definition sort_by {A} (leb : A -> A -> bool) (l : list A) : list A :=
  fold_right (insert_by leb) [] l.

Definition argsort {F} `{Scalar F} (keys : list F) : list nat :=
  map snd
    (sort_by (fun a b => fleb (fst a) (fst b))
       (combine keys (seq 0 (length keys)))).

Definition sort_indices (l : list nat) : list nat := sort_by Nat.leb l.

(** ** The random source, the external collaborators, the monad *)

(** The noise array of shape [(d0, d1, d2, 3)] that the elastic distortion
    smooths, and the blur kernels, are 4-dimensional arrays. *)
Record ndarray (F : Type) : Type := mk_ndarray {
  shape : nat * nat * nat * nat;
  data : nat -> nat -> nat -> nat -> F
  }.
Arguments mk_ndarray {F} shape data.
Arguments shape {F} n.
Arguments data {F} n.

(** The random generators the pipelines draw from: [random.random()], the
    index draw behind [random.choice], the entries of
    [np.random.randn(d0, d1, d2, 3)] by position and the rows of
    [torch.empty_like(xyz).normal_(std)] by position for an [n]-row
    tensor. *)
Class RandomSource (F : Type) : Type := {
  RNG : Type;
  random_random : RNG -> F * RNG;
  random_randbelow : nat -> RNG -> nat * RNG;
  np_random_randn :
    nat * nat * nat -> RNG -> (nat -> nat -> nat -> nat -> F) * RNG;
  torch_normal : nat -> F -> RNG -> (nat -> vec3 F) * RNG
  }.

(** What [utils.cutils] and [backbone.camera] provide: the training-time
    grid subsampling, its test-time variant with a [pick] offset, and the
    construction of the multi-resolution camera structure from the
    positions. The last one stands for [CameraHelper(cam_opts, batch_size)],
    [projects] and [make_cam_points(..., k, grid_size, None, up_sample=True,
    alpha)]. *)
Class Collaborators (F : Type) `{RandomSource F} : Type := {
  CameraOptions : Type;
  CamPoints : Type;
  grid_subsampling : tensor F -> F -> F -> RNG -> list nat * RNG;
  grid_subsampling_test : tensor F -> F -> F -> Z -> list nat;
  make_cam_points :
    CameraOptions -> nat -> tensor F -> list nat -> list F -> F -> CamPoints
  }.

(** The stages a sample construction can go through. *)
Inductive stage : Type :=
  | StRigid
  | StElastic
  | StJitter
  | StRecenter
  | StSubsample
  | StSubsampleTest (pick : Z)
  | StCrop
  | StColorDrop
  | StColorContrast
  | StColorRescale
  | StNormalDrop.

Definition stage_eqb (a b : stage) : bool :=
  match a, b with
  | StRigid, StRigid
  | StElastic, StElastic
  | StJitter, StJitter
  | StRecenter, StRecenter
  | StSubsample, StSubsample
  | StCrop, StCrop
  | StColorDrop, StColorDrop
  | StColorContrast, StColorContrast
  | StColorRescale, StColorRescale
  | StNormalDrop, StNormalDrop => true
  | StSubsampleTest p, StSubsampleTest q => Z.eqb p q
  | _, _ => false
  end.

Definition count_stage (s : stage) (l : list stage) : nat :=
  length (filter (stage_eqb s) l).

Definition is_stochastic (s : stage) : bool :=
  match s with
  | StElastic | StJitter | StSubsample | StCrop
  | StColorDrop | StColorContrast | StNormalDrop => true
  | _ => false
  end.

Section Monad.
Context {F : Type} `{RandomSource F}.

(** The state threaded through a sample construction: the random source
    and the stages performed, oldest first. *)
Record state : Type := mk_state {
  rng : RNG;
  trace : list stage
}.

Definition M (A : Type) : Type := state -> res (A * state).

Definition ret {A} (a : A) : M A := fun st => Ok (a, st).

Definition bind {A B} (m : M A) (k : A -> M B) : M B :=
  fun st =>
    match m st with
    | Ok (a, st') => k a st'
    | Err e => Err e
    end.

Definition lift {A} (r : res A) : M A :=
  fun st =>
    match r with
    | Ok a => Ok (a, st)
    | Err e => Err e
    end.

Definition log (s : stage) : M unit :=
  fun st => Ok (tt, mk_state (rng st) (trace st ++ [s])).

Definition draw {A} (gen : RNG -> A * RNG) : M A :=
  fun st =>
    let '(a, g) := gen (rng st) in
    Ok (a, mk_state g (trace st)).

(** A computation that draws nothing: its outcome and the stages it
    appends are the same from every state, and the random source comes
    back as it was. *)
Definition deterministic {A} (m : M A) : Prop :=
  exists r : res (A * list stage),
    forall st : state,
      m st = match r with
             | Ok (a, t) => Ok (a, mk_state (rng st) (trace st ++ t))
             | Err e => Err e
             end.
End Monad.

Arguments state F {_}.
Arguments M F {_} A.

Declare Scope monad_scope.
Delimit Scope monad_scope with monad.
Notation "x <- c ;; k" := (bind c (fun x => k))
  (at level 61, c at next level, right associativity) : monad_scope.
Notation "' pat <- c ;; k" := (bind c (fun x => match x with pat => k end))
  (at level 61, pat pattern, c at next level, right associativity)
  : monad_scope.
Notation "c ;; k" := (bind c (fun _ => k))
  (at level 61, right associativity) : monad_scope.

Section Random.
Context {F : Type} `{Scalar F} `{RandomSource F}.
Local Open Scope monad_scope.

(** [random.uniform(a, b)] is [a + (b - a) * random()]. *)
Definition random_uniform (a b : F) : M F F :=
  u <- draw random_random ;;
  ret (fadd a (fmul (fsub b a) u)).

(** [random.choice(seq)] is [seq[randbelow(len(seq))]]; an empty
    sequence raises. *)
Definition random_choice {A} (l : list A) : M F A :=
  match l with
  | [] => lift (Err IndexError)
  | _ =>
      i <- draw (random_randbelow (length l)) ;;
      lift (res_of_option IndexError (nth_error l i))
  end.

(** The drawn index is below the bound: the contract of the index draw
    behind [random.choice]. *)
Definition randbelow_in_range : Prop :=
  forall (n : nat) (g : RNG), 0 < n -> fst (random_randbelow n g) < n.
End Random.

(** ** Single-precision literals *)

(** The nearest integer to a rational, a tie going to the even one. *)
Definition round_half_even (q : Q) : Z :=
  let lo := Qfloor q in
  match Qcompare (q - inject_Z lo)%Q (1 # 2)%Q with
  | Lt => lo
  | Gt => (lo + 1)%Z
  | Eq => if Z.even lo then lo else (lo + 1)%Z
  end.

(** [floor (log2 q)] for a positive rational. *)
Definition binary_exponent (q : Q) : Z :=
  let e := (Z.log2 (Qnum q) - Z.log2 (Zpos (Qden q)))%Z in
  if Qle_bool (Qpower 2 e) q then e else (e - 1)%Z.

(** The float32 nearest to a rational: 24 significant bits, round to
    nearest, ties to even. This is the value a decimal literal such as
    [0.2] has once NumPy combines it with a float32 array. Magnitudes
    outside the normal range of float32 do not occur in this code and are
    not treated apart. *)
Definition float32 (q : Q) : Q :=
  match Qcompare q 0 with
  | Eq => 0%Q
  | Lt =>
      let k := (23 - binary_exponent (- q))%Z in
      Qred (- (inject_Z (round_half_even (- q * Qpower 2 k)) / Qpower 2 k))%Q
  | Gt =>
      let k := (23 - binary_exponent q)%Z in
      Qred (inject_Z (round_half_even (q * Qpower 2 k)) / Qpower 2 k)%Q
  end.

(** ** Elastic distortion *)

Section Elastic.
Context {F : Type} `{Scalar F} `{RandomSource F}.
Local Open Scope monad_scope.

(** [np.ones(shape).astype('float32') / 3] *)
Definition ones_div3 (sh : nat * nat * nat * nat) : ndarray F :=
  mk_ndarray sh (fun _ _ _ _ => fdiv (f_lit 1%Q) (f_lit 3%Q)).

Definition blurx : ndarray F := ones_div3 (3, 1, 1, 1).
Definition blury : ndarray F := ones_div3 (1, 3, 1, 1).
Definition blurz : ndarray F := ones_div3 (1, 1, 3, 1).

(** A read of [a] at a possibly out-of-range position under
    [mode='constant', cval=0]. *)
Definition in_range (i : Z) (n : nat) : bool :=
  ((0 <=? i) && (i <? Z.of_nat n))%Z.

Definition read_padded (a : ndarray F) (i j k c : Z) : F :=
  let '(n0, n1, n2, n3) := shape a in
  if in_range i n0 && in_range j n1 && in_range k n2 && in_range c n3
  then data a (Z.to_nat i) (Z.to_nat j) (Z.to_nat k) (Z.to_nat c)
  else f_lit 0%Q.

Definition fsum (l : list F) : F := fold_left fadd l (f_lit 0%Q).

(** [scipy.ndimage.convolve(input, weights, mode='constant', cval=0)] for
    weights of odd extents: the output at [i] sums
    [weights[a] * input[i + extent // 2 - a]] over the kernel. *)
Definition convolve (input weights : ndarray F) : ndarray F :=
  let '(k0, k1, k2, k3) := shape weights in
  let off (i k a : nat) : Z :=
    (Z.of_nat i + Z.of_nat k / 2 - Z.of_nat a)%Z in
  mk_ndarray (shape input) (fun i j k c =>
    fsum (flat_map (fun a =>
          flat_map (fun b =>
          flat_map (fun cc =>
          map (fun d =>
            fmul (data weights a b cc d)
                 (read_padded input (off i k0 a) (off j k1 b)
                                    (off k k2 cc) (off c k3 d)))
            (seq 0 k3)) (seq 0 k2)) (seq 0 k1)) (seq 0 k0))).

(** One round of the smoothing loop. *)
Definition smooth_pass (noise : ndarray F) : ndarray F :=
  convolve (convolve (convolve noise blurx) blury) blurz.



(** [np.linspace(start, stop, num)] *)
Definition linspace (start stop : F) (num : nat) : list F :=
  let step := fdiv (fsub stop start) (f_of_nat (num - 1)) in
  map (fun i =>
         if (Nat.eqb i (num - 1) && Nat.ltb 1 num)%bool then stop
         else fadd (fmul (f_of_nat i) step) start)
      (seq 0 num).

(** [np.searchsorted(grid, x)]: the first position whose node is not
    below [x]. *)
Fixpoint searchsorted (grid : list F) (x : F) : nat :=
  match grid with
  | [] => 0
  | g :: rest => if fltb g x then S (searchsorted rest x) else 0
  end.

Definition node (grid : list F) (i : nat) : F := nth i grid (f_lit 0%Q).

(** The cell of [x] on one axis of a [RegularGridInterpolator]: the lower
    node index, clipped to the grid, and the normalised distance to it. *)
Definition find_index (grid : list F) (x : F) : nat * F :=
  let i := Nat.min (searchsorted grid x - 1) (length grid - 2) in
  (i, fdiv (fsub x (node grid i)) (fsub (node grid (S i)) (node grid i))).

Definition out_of_bounds (grid : list F) (x : F) : bool :=
  fltb x (node grid 0) || fltb (node grid (length grid - 1)) x.

Definition corner_weight (t : F) (e : nat) : F :=
  match e with
  | O => fsub (f_lit 1%Q) t
  | _ => t
  end.

(** The linear evaluation of [RegularGridInterpolator] in one cell: the
    sum over the eight corners of the field there times the product of the
    corner weights. *)
Definition evaluate_linear (values : ndarray F)
  (cell0 cell1 cell2 : nat * F) (c : nat) : F :=
  let '(i0, t0) := cell0 in
  let '(i1, t1) := cell1 in
  let '(i2, t2) := cell2 in
  fsum (flat_map (fun e0 =>
        flat_map (fun e1 =>
        map (fun e2 =>
          fmul (data values (i0 + e0) (i1 + e1) (i2 + e2) c)
               (fmul (fmul (fmul (f_lit 1%Q) (corner_weight t0 e0))
                           (corner_weight t1 e1))
                     (corner_weight t2 e2)))
          [0; 1]) [0; 1]) [0; 1]).

(** [RegularGridInterpolator(ax, values, bounds_error=False,
    fill_value=0)] evaluated at one point with the default linear method,
    channel by channel: the cell is found on every axis, the field is
    evaluated linearly in it, and a point outside the axes gets the fill
    value. *)
Definition interp_channel (ax : list F * list F * list F)
  (values : ndarray F) (p : vec3 F) (c : nat) : F :=
  let '(ax0, ax1, ax2) := ax in
  let '(x, y, z) := p in
  if out_of_bounds ax0 x || out_of_bounds ax1 y || out_of_bounds ax2 z
  then f_lit 0%Q
  else
    evaluate_linear values (find_index ax0 x) (find_index ax1 y)
      (find_index ax2 z) c.



Definition interp (ax : list F * list F * list F) (values : ndarray F)
  (p : vec3 F) : vec3 F :=
  (interp_channel ax values p 0,
   interp_channel ax values p 1,
   interp_channel ax values p 2).

(** [coords.min(0)] and [coords.max(0)] on NumPy arrays: a reduction over
    no rows raises. *)
Definition np_min (t : tensor F) : res (vec3 F) :=
  match t with
  | [] => Err ValueError
  | v :: t' => Ok (fold_left (vmap2 fmin) t' v)
  end.

Definition np_max (t : tensor F) : res (vec3 F) :=
  match t with
  | [] => Err ValueError
  | v :: t' => Ok (fold_left (vmap2 fmax) t' v)
  end.

(** What [.astype(int)] makes of a quotient that is nan or an infinity:
    the most negative 64-bit integer. *)
Definition int64_min : Z := (- 2 ^ 63)%Z.

Definition is_zero (x : F) : bool := fleb x (f_lit 0%Q) && fleb (f_lit 0%Q) x.

(** One axis of [((coords - coords_min).max(0) // granularity)
    .astype(int) + 3]. The floor division of two floats is the floor of
    their quotient, so [granularity] is here the float the arrays are
    divided by. NumPy does not raise on a zero [granularity]: the quotient
    is nan or an infinity, its integer cast is [int64_min], and it is the
    draw of the noise that refuses the negative shape. *)
Definition noise_dim_axis (extent granularity : F) : Z :=
  if is_zero granularity then (int64_min + 3)%Z
  else (ffloor (fdiv extent granularity) + 3)%Z.

Definition noise_dim (coords : tensor F) (coords_min : vec3 F)
  (granularity : F) : res (Z * Z * Z) :=
  res_bind (np_max (sub_row coords coords_min)) (fun ext =>
  let '(e0, e1, e2) := ext in
  Ok (noise_dim_axis e0 granularity,
      noise_dim_axis e1 granularity,
      noise_dim_axis e2 granularity)).

(** [np.random.randn] at the shape [noise_dim + (3,)]: a negative
    dimension raises. *)
Definition randn (dims : Z * Z * Z) : M F (ndarray F) :=
  let '(d0, d1, d2) := dims in
  if ((d0 <? 0) || (d1 <? 0) || (d2 <? 0))%Z then lift (Err ValueError)
  else
    let shape3 := (Z.to_nat d0, Z.to_nat d1, Z.to_nat d2) in
    values <- draw (np_random_randn shape3) ;;
    ret (mk_ndarray (Z.to_nat d0, Z.to_nat d1, Z.to_nat d2, 3) values).

(** The axes handed to the interpolator. *)
Definition axes (coords_min : vec3 F) (granularity : F) (dims : Z * Z * Z)
  : list F * list F * list F :=
  let '(m0, m1, m2) := coords_min in
  let '(d0, d1, d2) := dims in
  let axis (m : F) (d : Z) : list F :=
    linspace (fsub m granularity)
             (fadd m (fmul granularity (f_of_Z (d - 2))))
             (Z.to_nat d) in
  (axis m0 d0, axis m1 d1, axis m2 d2).

(** [ElasticDistortion.elastic_distortion] on already drawn noise. *)
Definition distort (coords : tensor F) (coords_min : vec3 F)
  (granularity magnitude : F) (dims : Z * Z * Z) (noise : ndarray F)
  : tensor F :=
  let noise := smooth_pass (smooth_pass noise) in
  let ax := axes coords_min granularity dims in
  map (fun p => vadd p (vscale magnitude (interp ax noise p))) coords.

(** [ElasticDistortion.elastic_distortion] *)
Definition elastic_distortion (coords : tensor F)
  (granularity magnitude : F) : M F (tensor F) :=
  coords_min <- lift (np_min coords) ;;
  dims <- lift (noise_dim coords coords_min granularity) ;;
  noise <- randn dims ;;
  log StElastic ;;
  ret (distort coords coords_min granularity magnitude dims noise).

(** [ElasticDistortion.distortion_params], the default
    [[0.2, 0.4], [0.8, 1.6]]. A granularity is the divisor of the floor
    division behind the grid shape, where its rounding decides the
    number of nodes: it is read as the float32 that the float32
    coordinates are divided by. A magnitude only multiplies, and its
    rounding is left out like that of the arithmetic. *)
Definition distortion_params : list (F * F) :=
  [(f_lit (float32 (2 # 10)), f_lit (4 # 10)%Q);
   (f_lit (float32 (8 # 10)), f_lit (16 # 10)%Q)].

Fixpoint distort_all (params : list (F * F)) (coord : tensor F)
  : M F (tensor F) :=
  match params with
  | [] => ret coord
  | (granularity, magnitude) :: rest =>
      coord <- elastic_distortion coord granularity magnitude ;;
      distort_all rest coord
  end.

(** [ElasticDistortion.__call__] *)
Definition els (coord : tensor F) : M F (tensor F) :=
  u <- draw random_random ;;
  if fltb u (f_lit (95 # 100)%Q) then distort_all distortion_params coord
  else ret coord.
End Elastic.

(** ** Pipeline stages shared by the two datasets *)

(** What a dataset item carries: the attributes [p], [f], [y] and [rgb]
    attached to the camera structure built from the positions. *)
Record Sample (F CP : Type) : Type := mk_sample {
  sample_p : tensor F;
  sample_f : list (list F);
  sample_y : list Z;
  sample_rgb : tensor F;
  cam_points : CP
}.
Arguments mk_sample {F CP} sample_p sample_f sample_y sample_rgb cam_points.
Arguments sample_p {F CP} s.
Arguments sample_f {F CP} s.
Arguments sample_y {F CP} s.
Arguments sample_rgb {F CP} s.
Arguments cam_points {F CP} s.

Section Stages.
Context {F : Type} `{Scalar F} `{Trig F} `{RandomSource F}.
Local Open Scope monad_scope.

(** [xyz -= xyz.min(dim=0)[0]] *)
Definition recenter (xyz : tensor F) : M F (tensor F) :=
  m <- lift (col_min xyz) ;;
  log StRecenter ;;
  ret (sub_row xyz m).

(** The rigid transform as both [ScanNetV2.__getitem__] and
    [ScanNetV2.get_test_item] write it: the normals meet the matrix
    before it is scaled in place, the positions after. [get_scale] is
    [random.uniform(0.8, 1.2)] in training and the catalogue entry at
    test time. *)
Definition rigid (angle : F) (get_scale : M F F)
  (xyz norm : tensor F) : M F (tensor F * tensor F) :=
  let rot := rotmat (fcos angle) (fsin angle) in
  let norm := matmul norm rot in
  s <- get_scale ;;
  let rot := mat_scale rot s in
  let xyz := matmul xyz rot in
  log StRigid ;;
  ret (xyz, norm).

(** The training-time draws of the angle and of the scale. *)
Definition random_angle : M F F :=
  u <- draw random_random ;;
  ret (fmul (fmul u (f_lit 2%Q)) fpi).

Definition random_scale : M F F :=
  random_uniform (f_lit (8 # 10)%Q) (f_lit (12 # 10)%Q).

(** The positions kept by the crop:
    [(xyz - pt).square().sum(dim=1).argsort()[:voxel_max].sort()[0]] *)
Definition crop_condition (voxel_max : Z) (xyz : tensor F) (pt : vec3 F)
  : list nat :=
  sort_indices (py_slice_to (argsort (map (sqdist pt) xyz)) voxel_max).

(** The crop of both [__getitem__]s, entered after [xyz = xyz[indices]]. *)
Definition crop (voxel_max : Z) (xyz : tensor F) (indices : list nat)
  : M F (tensor F * list nat) :=
  if (len xyz >? voxel_max)%Z then
    pt <- random_choice xyz ;;
    let condition := crop_condition voxel_max xyz pt in
    xyz' <- lift (gather xyz condition) ;;
    indices' <- lift (gather indices condition) ;;
    log StCrop ;;
    ret (xyz', indices')
  else ret (xyz, indices).

(** The contrast blend
    [(1 - alpha + alpha * scale) * col - alpha * colmin * scale]. *)
Definition contrast (alpha : F) (colmin colmax : vec3 F) (col : tensor F)
  : tensor F :=
  let scale := vdiv (vfill (f_lit 255%Q)) (vsub colmax colmin) in
  let gain :=
    vmap (fun s => fadd (fsub (f_lit 1%Q) alpha) (fmul alpha s)) scale in
  let shift := vmul (vscale alpha colmin) scale in
  map (fun c => vsub (vmul gain c) shift) col.

(** The colour branch of both [__getitem__]s. *)
Definition color_aug (col : tensor F) : M F (tensor F) :=
  u <- draw random_random ;;
  if fltb u (f_lit (2 # 10)%Q) then
    log StColorDrop ;;
    ret (fill col (f_lit 0%Q))
  else
    u' <- draw random_random ;;
    col <- (if fltb u' (f_lit (2 # 10)%Q) then
              colmin <- lift (col_min col) ;;
              colmax <- lift (col_max col) ;;
              alpha <- draw random_random ;;
              log StColorContrast ;;
              ret (contrast alpha colmin colmax col)
            else ret col) ;;
    log StColorRescale ;;
    ret (mul_scalar col (fdiv (f_lit 1%Q) (f_lit 250%Q))).

(** [col.mul_(1 / 250.)] at test time. *)
Definition color_rescale (col : tensor F) : M F (tensor F) :=
  log StColorRescale ;;
  ret (mul_scalar col (fdiv (f_lit 1%Q) (f_lit 250%Q))).
End Stages.

(** ** The scene store *)

(** The warm-up scan of both [__init__]s: the first path whose scene has
    the largest number of points, every file being loaded on the way. *)
Section Warmup.
Context {Scene : Type} (torch_load : string -> res Scene)
        (rows : Scene -> nat).

Fixpoint scan_max (paths : list string) (max_n : nat) (selected : string)
  : res string :=
  match paths with
  | [] => Ok selected
  | data :: rest =>
      res_bind (torch_load data) (fun s =>
      let n := rows s in
      if Nat.ltb max_n n then scan_max rest n data
      else scan_max rest max_n selected)
  end.

Fixpoint load_all (paths : list string) : res (list Scene) :=
  match paths with
  | [] => Ok []
  | path :: rest =>
      res_bind (torch_load path) (fun s =>
      res_bind (load_all rest) (fun ss => Ok (s :: ss)))
  end.

(** From the listed paths to the paths kept and the scenes held. *)
Definition load_store (paths : list string) (train warmup : bool)
  : res (list string * list Scene) :=
  match paths with
  | [] => Err AssertionError
  | first :: _ =>
      res_bind (if train && warmup
                then res_bind (scan_max paths 0 first)
                              (fun sel => Ok [sel])
                else Ok paths) (fun paths' =>
      res_bind (load_all paths') (fun ds => Ok (paths', ds)))
  end.
End Warmup.

(** ** [scannetv2/dataset.py] *)

Module ScanNetV2.
Section Dataset.
Context {F : Type} `{Scalar F} `{Trig F} `{RandomSource F}
        `{!Collaborators F}.
Local Open Scope monad_scope.

(** One stored scene: [(xyz, col, norm, lbl)]. *)
Definition scene : Type := (tensor F * tensor F * tensor F * list Z)%type.

Record dataset : Type := mk_dataset {
  data_paths : list string;
  loop : Z;
  train : bool;
  warmup : bool;
  voxel_max : Z;
  k : list nat;
  grid_size : list F;
  alpha : F;
  batch_size : nat;
  cam_opts : CameraOptions;
  datas : list scene
}.

(** [torch.load(data)[0].shape[0]] *)
Definition rows (s : scene) : nat :=
  let '(xyz, _, _, _) := s in length xyz.

(** The per-point tensors of a stored scene agree in point count. *)
Definition aligned (s : scene) : Prop :=
  let '(xyz, col, norm, lbl) := s in
  length col = length xyz /\ length norm = length xyz /\
  length lbl = length xyz.

(** The paths of the chosen split. [scan_train_list] and [scan_val_list]
    are the module-level lists read from the split files at import. *)
Definition split_paths (scan_train_list scan_val_list : list string)
  (dataset_dir : string) (train : bool) : list string :=
  let data_list := if train then scan_train_list else scan_val_list in
  map (fun p => (dataset_dir ++ "/" ++ p ++ ".pt")%string) data_list.

(** [ScanNetV2.__init__], given the loader and the two split lists. *)
Definition __init__ (torch_load : string -> res scene)
  (scan_train_list scan_val_list : list string)
  (dataset_dir : string) (loop : Z) (train warmup : bool) (voxel_max : Z)
  (k : list nat) (grid_size : list F) (alpha : F) (batch_size : nat)
  (cam_opts : CameraOptions) : res dataset :=
  let paths := split_paths scan_train_list scan_val_list dataset_dir train in
  res_bind (load_store torch_load rows paths train warmup)
    (fun '(paths', ds) =>
       Ok (mk_dataset paths' loop train warmup voxel_max k grid_size
             alpha batch_size cam_opts ds)).

Definition __len__ (self : dataset) : Z :=
  (len (data_paths self) * loop self)%Z.

Definition build (self : dataset) (xyz : tensor F) (feature : list (list F))
  (lbl : list Z) (rgb : tensor F) : Sample F CamPoints :=
  mk_sample xyz feature lbl rgb
    (make_cam_points (cam_opts self) (batch_size self) xyz (k self)
       (grid_size self) (alpha self)).

(** [ScanNetV2.get_test_item] *)
Definition get_test_item (self : dataset) (idx : Z)
  : M F (Sample F CamPoints) :=
  '(pick, rot, sc) <- lift (test_variant (loop self) idx) ;;
  idx <- lift (py_floordiv idx (loop self)) ;;
  '(xyz, col, norm, lbl) <- lift (py_index (datas self) idx) ;;
  let angle := fmul fpi (f_lit rot) in
  '(xyz, norm) <- rigid angle (ret (f_lit sc)) xyz norm ;;
  xyz <- recenter xyz ;;
  let indices :=
    grid_subsampling_test xyz (f_lit (2 # 100)%Q)
      (fdiv (f_lit (25 # 10)%Q) (f_lit (15 # 10)%Q)) pick in
  log (StSubsampleTest pick) ;;
  xyz <- lift (gather xyz indices) ;;
  lbl <- lift (gather lbl indices) ;;
  col <- lift (gather col indices) ;;
  let rgb := col in
  norm <- lift (gather norm indices) ;;
  col <- color_rescale col ;;
  xyz <- recenter xyz ;;
  feature <- lift (cat3 feature_row7 col xyz norm) ;;
  ret (build self xyz feature lbl rgb).

(** [if self.train and random.random() < 0.2: norm.fill_(0.)] *)
Definition normal_drop (train : bool) (norm : tensor F) : M F (tensor F) :=
  if train then
    u <- draw random_random ;;
    if fltb u (f_lit (2 # 10)%Q) then
      log StNormalDrop ;;
      ret (fill norm (f_lit 0%Q))
    else ret norm
  else ret norm.

(** [ScanNetV2.__getitem__] *)
Definition __getitem__ (self : dataset) (idx : Z)
  : M F (Sample F CamPoints) :=
  if negb (train self) then get_test_item self idx
  else
    idx <- lift (py_floordiv idx (loop self)) ;;
    '(xyz, col, norm, lbl) <- lift (py_index (datas self) idx) ;;
    angle <- random_angle ;;
    '(xyz, norm) <- rigid angle random_scale xyz norm ;;
    xyz <- els xyz ;;
    xyz <- recenter xyz ;;
    indices <- draw (grid_subsampling xyz (f_lit (2 # 100)%Q)
                       (fdiv (f_lit (25 # 10)%Q) (f_lit (15 # 10)%Q))) ;;
    log StSubsample ;;
    xyz <- lift (gather xyz indices) ;;
    '(xyz, indices) <- crop (voxel_max self) xyz indices ;;
    col <- lift (gather col indices) ;;
    let rgb := col in
    lbl <- lift (gather lbl indices) ;;
    norm <- lift (gather norm indices) ;;
    col <- color_aug col ;;
    norm <- normal_drop (train self) norm ;;
    feature <- lift (cat3 feature_row7 col xyz norm) ;;
    ret (build self xyz feature lbl rgb).
End Dataset.
End ScanNetV2.

(** ** [s3dis/dataset.py] *)

Module S3DIS.
Section Dataset.
Context {F : Type} `{Scalar F} `{Trig F} `{RandomSource F}
        `{!Collaborators F}.
Local Open Scope monad_scope.

(** One stored scene: [(xyz, col, lbl)]. *)
Definition scene : Type := (tensor F * tensor F * list Z)%type.

Record dataset : Type := mk_dataset {
  data_paths : list string;
  loop : Z;
  train : bool;
  warmup : bool;
  voxel_max : Z;
  k : list nat;
  grid_size : list F;
  alpha : F;
  batch_size : nat;
  cam_opts : CameraOptions;
  datas : list scene
}.

Definition rows (s : scene) : nat :=
  let '(xyz, _, _) := s in length xyz.

(** The per-point tensors of a stored scene agree in point count. *)
Definition aligned (s : scene) : Prop :=
  let '(xyz, col, lbl) := s in
  length col = length xyz /\ length lbl = length xyz.

(** [S3DIS.__init__], given the loader and the directory listing
    [dataset_dir.glob(pattern)]. *)
Definition __init__ (torch_load : string -> res scene)
  (glob : string -> string -> list string)
  (dataset_dir area : string) (loop : Z) (train warmup : bool)
  (voxel_max : Z) (k : list nat) (grid_size : list F) (alpha : F)
  (batch_size : nat) (cam_opts : CameraOptions) : res dataset :=
  let paths := glob dataset_dir ("[" ++ area ++ "]*.pt")%string in
  res_bind (load_store torch_load rows paths train warmup)
    (fun '(paths', ds) =>
       Ok (mk_dataset paths' loop train warmup voxel_max k grid_size
             alpha batch_size cam_opts ds)).

Definition __len__ (self : dataset) : Z :=
  (len (data_paths self) * loop self)%Z.

Definition build (self : dataset) (xyz : tensor F) (feature : list (list F))
  (lbl : list Z) (rgb : tensor F) : Sample F CamPoints :=
  mk_sample xyz feature lbl rgb
    (make_cam_points (cam_opts self) (batch_size self) xyz (k self)
       (grid_size self) (alpha self)).

(** [S3DIS.get_test_item] *)
Definition get_test_item (self : dataset) (idx : Z)
  : M F (Sample F CamPoints) :=
  aug <- lift (py_mod idx (loop self)) ;;
  let pick := (aug * 5)%Z in
  idx <- lift (py_floordiv idx (loop self)) ;;
  '(xyz, col, lbl) <- lift (py_index (datas self) idx) ;;
  let indices :=
    grid_subsampling_test xyz (f_lit (4 # 100)%Q)
      (fdiv (f_lit (25 # 10)%Q) (f_lit 14%Q)) pick in
  log (StSubsampleTest pick) ;;
  xyz <- lift (gather xyz indices) ;;
  lbl <- lift (gather lbl indices) ;;
  col <- lift (gather col indices) ;;
  let rgb := col in
  col <- color_rescale col ;;
  xyz <- recenter xyz ;;
  feature <- lift (cat2 feature_row4 col xyz) ;;
  ret (build self xyz feature lbl rgb).

(** [xyz += torch.empty_like(xyz).normal_(std=0.005)] *)
Definition jitter (xyz : tensor F) : M F (tensor F) :=
  noise <- draw (torch_normal (length xyz) (f_lit (5 # 1000)%Q)) ;;
  xyz <- lift (tensor_add xyz (map noise (seq 0 (length xyz)))) ;;
  log StJitter ;;
  ret xyz.

(** [S3DIS.__getitem__] *)
Definition __getitem__ (self : dataset) (idx : Z)
  : M F (Sample F CamPoints) :=
  if negb (train self) then get_test_item self idx
  else
    idx <- lift (py_floordiv idx (loop self)) ;;
    '(xyz, col, lbl) <- lift (py_index (datas self) idx) ;;
    angle <- random_angle ;;
    '(xyz, _) <- rigid angle random_scale xyz [] ;;
    xyz <- jitter xyz ;;
    xyz <- recenter xyz ;;
    indices <- draw (grid_subsampling xyz (f_lit (4 # 100)%Q)
                       (fdiv (f_lit (25 # 10)%Q) (f_lit 14%Q))) ;;
    log StSubsample ;;
    xyz <- lift (gather xyz indices) ;;
    '(xyz, indices) <- crop (voxel_max self) xyz indices ;;
    col <- lift (gather col indices) ;;
    let rgb := col in
    lbl <- lift (gather lbl indices) ;;
    col <- color_aug col ;;
    feature <- lift (cat2 feature_row4 col xyz) ;;
    ret (build self xyz feature lbl rgb).
End Dataset.
End S3DIS.

(** ** A concrete runtime on rationals *)

(** A scripted random source: the state is the list of uniform draws still
    to come (one half once it runs out). The index draw scales a uniform
    draw, the normal draws are affine in one. *)
Definition next_draw (g : list Q) : Q * list Q :=
  match g with
  | [] => ((1 # 2)%Q, [])
  | u :: g' => (u, g')
  end.

Definition scripted_randbelow (n : nat) (g : list Q) : nat * list Q :=
  let '(u, g') := next_draw g in
  (Z.to_nat (Qfloor (u * inject_Z (Z.of_nat n))) mod n, g').

Definition scripted_randn (dims : nat * nat * nat) (g : list Q)
  : (nat -> nat -> nat -> nat -> Q) * list Q :=
  let '(u, g') := next_draw g in
  (fun i j k c =>
     (u * inject_Z (Z.of_nat ((i + 2 * j + 3 * k + c) mod 5) - 2))%Q,
   g').

Definition scripted_normal (n : nat) (std : Q) (g : list Q)
  : (nat -> vec3 Q) * list Q :=
  let '(u, g') := next_draw g in
  (fun i =>
     let d := (std * (u - (1 # 2)))%Q in
     (d, (d * inject_Z (Z.of_nat (i mod 2)))%Q, (- d)%Q),
   g').

#[export] Instance Random_Q : RandomSource Q := {|
  RNG := list Q;
  random_random := next_draw;
  random_randbelow := scripted_randbelow;
  np_random_randn := scripted_randn;
  torch_normal := scripted_normal
|}.

(** A plain voxel-grid subsampling: the first point met in every cell. The
    test-time variant shifts the grid by [pick] hundredths of a cell. *)
Definition cell_of (cell shift : Q) (pt : vec3 Q) : Z * Z * Z :=
  let '(x, y, z) := pt in
  (Qfloor (x / cell + shift), Qfloor (y / cell + shift),
   Qfloor (z / cell + shift)).

Definition cell_eqb (a b : Z * Z * Z) : bool :=
  let '(a0, a1, a2) := a in
  let '(b0, b1, b2) := b in
  (Z.eqb a0 b0 && Z.eqb a1 b1 && Z.eqb a2 b2)%bool.

Fixpoint first_per_cell (cell shift : Q) (xyz : tensor Q) (i : nat)
  (seen : list (Z * Z * Z)) : list nat :=
  match xyz with
  | [] => []
  | pt :: rest =>
      let c := cell_of cell shift pt in
      if existsb (cell_eqb c) seen
      then first_per_cell cell shift rest (S i) seen
      else i :: first_per_cell cell shift rest (S i) (c :: seen)
  end.

#[export] Instance Collaborators_Q : Collaborators Q := {|
  CameraOptions := unit;
  CamPoints := nat;
  grid_subsampling := fun xyz cell _ g => (first_per_cell cell 0 xyz 0 [], g);
  grid_subsampling_test := fun xyz cell _ pick =>
    first_per_cell cell (inject_Z pick / 100) xyz 0 [];
  make_cam_points := fun _ _ xyz _ _ _ => length xyz
|}.

(** Ten points of the unit grid and the indices they were subsampled at,
    for running the crop. *)
Definition grid_points : tensor Q :=
  [(1, 1, 1); (0, 0, 0); (2, 0, 0); (1, 0, 0); (0, 1, 0);
   (1, 1, 0); (0, 0, 1); (0, 2, 0); (1, 0, 1); (0, 1, 1)]%Q.

Definition grid_indices : list nat := [0; 2; 4; 6; 8; 10; 12; 14; 16; 18].

Definition start (script : list Q) : state Q := @mk_state Q Random_Q script [].

(** Two small stored scenes and the datasets holding them. *)
Definition room : @ScanNetV2.scene Q :=
  ([(0, 0, 0); (1 # 100, 0, 0); (1, 1, 1 # 2);
    (2, 1 # 2, 1); (1 # 200, 1 # 200, 0); (3, 2, 1)]%Q,
   [(250, 0, 0); (0, 250, 0); (0, 0, 250);
    (125, 125, 0); (10, 20, 30); (255, 255, 255)]%Q,
   [(0, 0, 1); (1, 0, 0); (0, 1, 0); (0, 0, 1); (1, 0, 0); (0, 1, 0)]%Q,
   [0; 1; 2; 1; 0; 3]%Z).

Definition scannet (train : bool) (voxel_max : Z) : ScanNetV2.dataset :=
  ScanNetV2.mk_dataset ["scene0011_00.pt"%string] 12 train false voxel_max
    [24; 24; 24; 24; 24] [4 # 100; 8 # 100; 16 # 100; 32 # 100]%Q 0%Q 8 tt
    [room].

Definition office : @S3DIS.scene Q :=
  ([(5, 7, 1); (5 + (1 # 100), 7, 1); (6, 8, 3 # 2);
    (7, 15 # 2, 2); (5 + (1 # 200), 7 + (1 # 200), 1)]%Q,
   [(250, 0, 0); (0, 250, 0); (0, 0, 250); (125, 125, 0); (10, 20, 30)]%Q,
   [0; 1; 2; 1; 0]%Z).

Definition s3dis (train : bool) (voxel_max : Z) : S3DIS.dataset :=
  S3DIS.mk_dataset ["Area_5_office_1.pt"%string] 30 train false voxel_max
    [24; 24; 24; 24] [8 # 100; 16 # 100; 32 # 100]%Q 0%Q 8 tt [office].

(** A constant random source on reals: every uniform draw is one half,
    every normal draw zero. *)
#[export] Instance Random_R : RandomSource R := {|
  RNG := unit;
  random_random := fun g => ((1 / 2)%R, g);
  random_randbelow := fun _ g => (0, g);
  np_random_randn := fun _ g => (fun _ _ _ _ => 0%R, g);
  torch_normal := fun _ _ g => (fun _ => (0%R, 0%R, 0%R), g)
|}.

(** A second random source on reals, with a script of uniform draws
    (one half once the script is used up) and a noise that is not zero:
    the value [c + 1] in channel [c] at every node. *)
Definition Random_R_script : RandomSource R := {|
  RNG := list R;
  random_random := fun g =>
    match g with
    | [] => ((1 / 2)%R, [])
    | u :: g' => (u, g')
    end;
  random_randbelow := fun _ g => (0, g);
  np_random_randn := fun _ g => (fun _ _ _ c => IZR (Z.of_nat (S c)), g);
  torch_normal := fun _ _ g => (fun _ => (0%R, 0%R, 0%R), g)
|}.

(** Two stored scenes whose tensors disagree in point count, and the
    loaders of a directory holding one file each. *)
Definition ragged_room : @ScanNetV2.scene Q :=
  ([(0, 0, 0); (1, 1, 1)]%Q, [(250, 0, 0)]%Q, [], [0; 1; 2]%Z).


(** A stored scene with one colour and one label more than positions. *)
Definition long_office : @S3DIS.scene Q :=
  ([(0, 0, 0); (1, 1, 1)]%Q, [(250, 0, 0); (0, 250, 0); (0, 0, 250)]%Q,
   [0; 1; 2]%Z).

Definition load_one {Scene : Type} (name : string) (s : Scene)
  (path : string) : res Scene :=
  if String.eqb path name then Ok s else Err FileNotFoundError.

(** ** Order-preserving selections *)

(** [subseq l1 l2]: [l1] is [l2] with some elements left out, the others in
    their original order. *)
Inductive subseq {A : Type} : list A -> list A -> Prop :=
| subseq_nil : subseq [] []
| subseq_skip (x : A) (l1 l2 : list A) : subseq l1 l2 -> subseq l1 (x :: l2)
| subseq_take (x : A) (l1 l2 : list A) :
    subseq l1 l2 -> subseq (x :: l1) (x :: l2).

(** ** Further runtime: directories, reals, contracts of the random source *)

(** A loader over a directory given as a table of paths and scenes. *)
Fixpoint load_from {Scene : Type} (table : list (string * Scene))
  (path : string) : res Scene :=
  match table with
  | [] => Err FileNotFoundError
  | (name, s) :: rest =>
      if String.eqb path name then Ok s else load_from rest path
  end.

(** [at_most n p]: the file at [p] loads and holds at most [n] points;
    [fewer n p]: it loads and holds fewer than [n]. *)
Section SceneSizes.
Context {Scene : Type} (torch_load : string -> res Scene)
        (rows : Scene -> nat).

Definition at_most (n : nat) (p : string) : Prop :=
  exists s, torch_load p = Ok s /\ rows s <= n.

Definition fewer (n : nat) (p : string) : Prop :=
  exists s, torch_load p = Ok s /\ rows s < n.
End SceneSizes.

(** Collaborators on reals that keep every point: the subsampling returns
    all row indices, the camera structure is the number of positions. *)
Definition Collaborators_R : @Collaborators R Random_R := {|
  CameraOptions := unit;
  CamPoints := nat;
  grid_subsampling := fun xyz _ _ g => (seq 0 (length xyz), g);
  grid_subsampling_test := fun xyz _ _ _ => seq 0 (length xyz);
  make_cam_points := fun _ _ xyz _ _ _ => length xyz
|}.

(** A stored scene of one point, on reals, and the dataset holding it. *)
Definition corner : @ScanNetV2.scene R :=
  ([(1, 2, 3)%R], [(250, 0, 0)%R], [(0, 0, 1)%R], [0%Z]).

Definition scannet_R : @ScanNetV2.dataset R Random_R Collaborators_R :=
  @ScanNetV2.mk_dataset R Random_R Collaborators_R
    ["scene0011_00.pt"%string] 12 false false 80000
    [24; 24; 24; 24; 24] [] 0%R 8 tt [corner].

(** A dataset whose only scene has no points. *)
Definition vacant : @S3DIS.dataset Q Random_Q Collaborators_Q :=
  @S3DIS.mk_dataset Q Random_Q Collaborators_Q
    ["Area_5_storage_1.pt"%string] 30 false false 24000
    [24; 24; 24; 24] [8 # 100; 16 # 100; 32 # 100]%Q 0%Q 8 tt
    [(([] : tensor Q), ([] : tensor Q), ([] : list Z))].

(** The contract of [random.random()]: a float in the half-open unit
    interval. *)
Definition random_in_unit_interval {RS : RandomSource R} : Prop :=
  forall g : RNG, (0 <= fst (random_random g) < 1)%R.



(** ** The model configurations *)

(** [Tensor.split(sizes)] along the first dimension: the sizes must add up
    to the length. *)
Fixpoint split_with_sizes {A} (t : list A) (sizes : list nat)
  : res (list (list A)) :=
  match sizes with
  | [] => if Nat.eqb (length t) 0 then Ok [] else Err RuntimeError
  | n :: rest =>
      if Nat.leb n (length t)
      then res_bind (split_with_sizes (skipn n t) rest)
             (fun chunks => Ok (firstn n t :: chunks))
      else Err RuntimeError
  end.

(** [torch.linspace(0., drop_path, sum(res_blocks)).split(res_blocks)] of
    both [ModelConfig]s, as nested lists. *)
Definition drop_paths {F} `{Scalar F} (drop_path : F) (res_blocks : list nat)
  : res (list (list F)) :=
  split_with_sizes (linspace (f_lit 0%Q) drop_path (list_sum res_blocks))
    res_blocks.

(** The constants of [scannetv2/configs/scannetv2_l.py] and of
    [modelnet40/configs/modelnet40_l.py] that the properties refer to. *)
Module ScanNetV2Config.
Definition in_channels : nat := 7.
Definition res_blocks : list nat := [4; 4; 4; 8; 4].
Definition drop_path : Q := (1 # 10)%Q.
Definition bn_momentum : Q := (2 # 100)%Q.
End ScanNetV2Config.

Module ModelNet40Config.
Definition res_blocks : list nat := [4; 4; 4].
Definition drop_path : Q := (15 # 100)%Q.
End ModelNet40Config.

(** ** The test scripts *)

Module TestScript.
Section Warmup.
Context {World Batch : Type}.

(** [warmup] of [scanobjectnn/test.py] and [shapenetpart/test.py]: the
    forward pass [model], transfer to the device included, acts on the
    state of the device; the progress bar is left out. *)
Definition steps_per_epoch : nat := 10.

Fixpoint warmup_from (model : Batch -> World -> World)
  (test_loader : list Batch) (i : nat) (w : World) : World :=
  match test_loader with
  | [] => w
  | cam_points :: rest =>
      let w := model cam_points w in
      let i := i + 1 in
      if Nat.ltb steps_per_epoch i then w
      else warmup_from model rest i w
  end.

Definition warmup (model : Batch -> World -> World)
  (test_loader : list Batch) (w : World) : World :=
  warmup_from model test_loader 0 w.
End Warmup.

(** The momentum handed to the backbone:
    [1 - (1 - bn_momentum) ** 0.5] when gradient checkpointing is on. *)
Definition checkpoint_momentum (use_cp : bool) (bn_momentum : R) : R :=
  if use_cp then (1 - sqrt (1 - bn_momentum))%R else bn_momentum.
End TestScript.

(** [prepare_exp] of both test scripts, as far as the names go. *)
Module PrepareExp.
Import Ascii.
Local Open Scope string_scope.

Definition exp_root : string := "exp-test".

Fixpoint zeros (n : nat) : string :=
  match n with
  | O => EmptyString
  | S n' => String "0"%char (zeros n')
  end.

(** The format specification [:03d] on a nonnegative integer. *)
Definition format_03d (n : nat) : string :=
  let digits := DecimalString.NilZero.string_of_uint (Nat.to_uint n) in
  zeros (3 - String.length digits) ++ digits.

Record names : Type := mk_names {
  exp_name : string;
  exp_dir : string;
  log_path : string
}.

(** The three names stored in [cfg], given [cfg.exp] and the result of
    the glob for the experiments of that name under [exp_root]. *)
Definition prepare_exp (exp : string) (found : list string) : names :=
  let exp_id := length found in
  let exp_name := exp ++ "-" ++ format_03d exp_id in
  let exp_dir := exp_root ++ "/" ++ exp_name in
  mk_names exp_name exp_dir (exp_dir ++ "/test.log").

(** Reading a decimal numeral back. *)
Definition read_decimal (s : string) : option nat :=
  option_map Nat.of_uint (DecimalString.NilZero.uint_of_string s).
End PrepareExp.

(** ** The class-wise scores of [shapenetpart/test.py] *)

(** [l] with position [i] replaced by [x]. *)
Fixpoint set_nth {A} (l : list A) (i : nat) (x : A) : list A :=
  match l, i with
  | [], _ => []
  | _ :: l', O => x :: l'
  | y :: l', S i' => y :: set_nth l' i' x
  end.

(** [t[i] = op(t[i], x)] on a one-dimensional tensor: a negative index
    counts from the end, an index out of range raises. *)
Definition index_update {A} (op : A -> A -> A) (t : list A) (i : Z) (x : A)
  : res (list A) :=
  res_bind (py_index t i) (fun old =>
  let pos := if (0 <=? i)%Z then Z.to_nat i else Z.to_nat (len t + i) in
  Ok (set_nth t pos (op old x))).

Module ShapeNetPartTest.
Section Scores.
Context {F : Type} `{Scalar F}.

(** The accumulators [cls_mious] and [cls_nums]. *)
Definition accumulators : Type := (list F * list Z)%type.

Definition zeros (shape_classes : nat) : accumulators :=
  (repeat (f_lit 0%Q) shape_classes, repeat 0%Z shape_classes).

(** The loop over [shape_idx] of one batch: [shape] holds the shape labels
    of the batch and [ins_mious] the instance scores that [get_ins_mious]
    returned for it. *)
Fixpoint add_instances (shape : list Z) (ins_mious : list F)
  (acc : accumulators) : res accumulators :=
  match shape with
  | [] => Ok acc
  | gt_label :: shape' =>
      match ins_mious with
      | [] => Err IndexError
      | iou :: ins_mious' =>
          let '(cls_mious, cls_nums) := acc in
          res_bind (index_update fadd cls_mious gt_label iou)
            (fun cls_mious =>
          res_bind (index_update Z.add cls_nums gt_label 1%Z)
            (fun cls_nums =>
          add_instances shape' ins_mious' (cls_mious, cls_nums)))
      end
  end.

(** The test loop, as far as the scores go: every batch, given by its
    instance scores and its shape labels, extends [ins_miou_list] and the
    accumulators. *)
Fixpoint test_loop (batches : list (list F * list Z))
  (ins_miou_list : list F) (acc : accumulators)
  : res (list F * accumulators) :=
  match batches with
  | [] => Ok (ins_miou_list, acc)
  | (ins_mious, shape) :: rest =>
      let ins_miou_list := ins_miou_list ++ ins_mious in
      res_bind (add_instances shape ins_mious acc) (fun acc =>
      test_loop rest ins_miou_list acc)
  end.

(** [for cat_idx in range(16)]: the sum of a class that was met becomes
    its mean. *)
Fixpoint normalise (cats : list nat) (acc : accumulators) : res (list F) :=
  match cats with
  | [] => Ok (fst acc)
  | cat_idx :: rest =>
      let '(cls_mious, cls_nums) := acc in
      res_bind (py_index cls_nums (Z.of_nat cat_idx)) (fun n =>
      if (n >? 0)%Z then
        res_bind (py_index cls_mious (Z.of_nat cat_idx)) (fun m =>
        normalise rest
          (set_nth cls_mious cat_idx (fdiv m (f_of_Z n)), cls_nums))
      else normalise rest acc)
  end.

(** The scores [main] reports: [ins_miou], [cls_miou] and the class
    means before they are rounded for the log. [torch.stack] raises on an
    empty list. *)
Definition scores (shape_classes : nat) (batches : list (list F * list Z))
  : res (F * F * list F) :=
  res_bind (test_loop batches [] (zeros shape_classes))
    (fun '(ins_miou_list, acc) =>
  res_bind (match ins_miou_list with
            | [] => Err RuntimeError
            | _ => Ok (fsum ins_miou_list)
            end) (fun ins_mious_sum =>
  let count := f_of_nat (length ins_miou_list) in
  res_bind (normalise (seq 0 16) acc) (fun cls_mious =>
  let ins_miou := fdiv ins_mious_sum count in
  let cls_miou := fdiv (fsum cls_mious) (f_of_nat (length cls_mious)) in
  Ok (ins_miou, cls_miou, cls_mious)))).
End Scores.
End ShapeNetPartTest.

(** The instances of a test run, label by score, the scores of the
    instances of one class, and the sum of a list of reals. *)
Definition instances {F} (batches : list (list F * list Z))
  : list (Z * F) :=
  flat_map (fun b => combine (snd b) (fst b)) batches.

Definition of_class {F} (c : nat) (l : list (Z * F)) : list F :=
  map snd (filter (fun e => Z.eqb (fst e) (Z.of_nat c)) l).

Definition Rsum (l : list R) : R := fold_right Rplus 0%R l.

(** A batch whose scores and labels agree in number, with labels of
    existing classes. *)
Definition batch_ok (n : nat) (b : list R * list Z) : Prop :=
  length (fst b) = length (snd b) /\
  Forall (fun l => (0 <= l < Z.of_nat n)%Z) (snd b).

(* ================================================================= *)
(** * Part II: properties *)
(* ================================================================= *)

(** ** The test enumeration *)

Section TestVariant.
Local Open Scope Z_scope.

Lemma py_mod_ok (a b : Z) : b <> 0 -> py_mod a b = Ok (a mod b).
Proof.
  intros Hb. unfold py_mod.
  destruct (Z.eqb_spec b 0); [contradiction | reflexivity].
Qed.

Lemma py_floordiv_ok (a b : Z) : b <> 0 -> py_floordiv a b = Ok (a / b).
Proof.
  intros Hb. unfold py_floordiv.
  destruct (Z.eqb_spec b 0); [contradiction | reflexivity].
Qed.

Lemma py_index_nonneg {A} (l : list A) (i : Z) (x : A) :
  0 <= i -> nth_error l (Z.to_nat i) = Some x -> py_index l i = Ok x.
Proof.
  intros Hi Hx. unfold py_index.
  destruct (Z.leb_spec 0 i); [| lia]. now rewrite Hx.
Qed.

(** The twelve joint indices, spelled out. *)
Lemma small_cases (a : Z) :
  0 <= a < 12 ->
  a = 0 \/ a = 1 \/ a = 2 \/ a = 3 \/ a = 4 \/ a = 5 \/
  a = 6 \/ a = 7 \/ a = 8 \/ a = 9 \/ a = 10 \/ a = 11.
Proof. lia. Qed.

(** C1. With [v = idx % loop] and
    [augs_per_offset = len(rotations) * len(scales)], the test
    enumeration requests the subsampling offset [v // augs_per_offset],
    takes the rotation at index [(v % augs_per_offset) // len(scales)]
    and the scale at index [(v % augs_per_offset) % len(scales)]; with
    [loop = 12], variant 7 gets rotation index 2 (the angle pi), scale
    index 1 (the scale 1) and offset 0. *)
Theorem test_variant_enumeration :
  (forall loop idx : Z,
      loop <> 0 ->
      let v := idx mod loop in
      let augs_per_offset := len rotations * len scales in
      let rotation_index := (v mod augs_per_offset) / len scales in
      let scale_index := (v mod augs_per_offset) mod len scales in
      exists rot sc,
        test_variant loop idx = Ok (v / augs_per_offset, rot, sc) /\
        0 <= rotation_index < len rotations /\
        0 <= scale_index < len scales /\
        nth_error rotations (Z.to_nat rotation_index) = Some rot /\
        nth_error scales (Z.to_nat scale_index) = Some sc) /\
  (forall idx : Z,
      idx mod 12 = 7 ->
      test_variant 12 idx = Ok (0, 1%Q, 1%Q) /\
      (7 mod (len rotations * len scales)) / len scales = 2 /\
      (7 mod (len rotations * len scales)) mod len scales = 1 /\
      nth_error rotations 2 = Some 1%Q /\
      nth_error scales 1 = Some 1%Q /\
      @fmul R _ fpi (f_lit 1%Q) = PI).
Proof.
  split.
  - intros loop idx Hloop. cbv zeta.
    unfold test_variant.
    change (len rotations * len scales) with 12.
    change (len scales) with 3. change (len rotations) with 4.
    rewrite (py_mod_ok idx loop Hloop). cbn [res_bind].
    remember (idx mod loop) as v eqn:Hv. clear Hv.
    rewrite (py_floordiv_ok v 12) by lia. cbn [res_bind].
    rewrite (py_mod_ok v 12) by lia. cbn [res_bind].
    assert (Ha : 0 <= v mod 12 < 12) by (apply Z.mod_pos_bound; lia).
    remember (v mod 12) as a eqn:Hamod. clear Hamod.
    rewrite (py_floordiv_ok a 3) by lia. cbn [res_bind].
    rewrite (py_mod_ok a 3) by lia.
    destruct (small_cases a Ha)
      as [E|[E|[E|[E|[E|[E|[E|[E|[E|[E|[E|E]]]]]]]]]]];
      rewrite E; cbn; do 2 eexists; repeat split; try reflexivity; lia.
  - intros idx Hidx.
    unfold test_variant.
    rewrite (py_mod_ok idx 12) by lia. rewrite Hidx.
    repeat split; try reflexivity.
    cbn. rewrite RMicromega.Q2R_1. ring.
Qed.

Lemma test_variant_enumeration_witness :
  exists rot sc,
    test_variant 12 7
    = Ok ((7 mod 12) / (len rotations * len scales), rot, sc) /\
    0 <= ((7 mod 12) mod (len rotations * len scales)) / len scales
      < len rotations /\
    0 <= ((7 mod 12) mod (len rotations * len scales)) mod len scales
      < len scales /\
    nth_error rotations
      (Z.to_nat (((7 mod 12) mod (len rotations * len scales)) / len scales))
    = Some rot /\
    nth_error scales
      (Z.to_nat (((7 mod 12) mod (len rotations * len scales)) mod len scales))
    = Some sc.
Proof.
  apply (proj1 test_variant_enumeration 12 7). lia.
Defined.
End TestVariant.

(** ** Sorting, slicing and gathering *)

Section SortFacts.
Context {A : Type} (leb : A -> A -> bool).

Lemma insert_by_perm (x : A) (l : list A) :
  Permutation (insert_by leb x l) (x :: l).
Proof.
  induction l as [| y l IH]; cbn.
  - apply Permutation_refl.
  - destruct (leb x y).
    + apply Permutation_refl.
    + eapply perm_trans; [apply perm_skip, IH | apply perm_swap].
Qed.

Lemma sort_by_perm (l : list A) : Permutation (sort_by leb l) l.
Proof.
  induction l as [| x l IH]; cbn.
  - constructor.
  - eapply perm_trans; [apply insert_by_perm | now apply perm_skip].
Qed.
End SortFacts.

Lemma insert_by_sorted (x : nat) (l : list nat) :
  Sorted le l -> Sorted le (insert_by Nat.leb x l).
Proof.
  induction l as [| y l IH]; intros Hs; cbn.
  - repeat constructor.
  - destruct (Nat.leb_spec x y) as [Hxy | Hxy].
    + constructor; [assumption | constructor; assumption].
    + inversion Hs as [| ? ? Hs' Hhd]; subst.
      constructor; [apply IH; assumption |].
      destruct l as [| z l]; cbn.
      * constructor. lia.
      * destruct (Nat.leb_spec x z); constructor; try lia.
        inversion Hhd; subst. assumption.
Qed.

Lemma sort_indices_sorted (l : list nat) : Sorted le (sort_indices l).
Proof.
  unfold sort_indices, sort_by.
  induction l as [| x l IH]; cbn.
  - constructor.
  - apply insert_by_sorted, IH.
Qed.

Lemma sorted_nodup_strict (l : list nat) :
  Sorted le l -> NoDup l -> StronglySorted lt l.
Proof.
  intros Hs Hn.
  apply Sorted_StronglySorted in Hs; [| intros a b c; lia].
  induction l as [| x l IH].
  - constructor.
  - inversion Hs as [| ? ? Hs' Hall]; subst.
    inversion Hn as [| ? ? Hnotin Hn']; subst.
    constructor; [apply IH; assumption |].
    rewrite Forall_forall in *. intros z Hz.
    specialize (Hall z Hz).
    assert (x <> z) by (intros ->; contradiction). lia.
Qed.

Lemma map_snd_combine_seq {A} (l : list A) (s : list nat) :
  length l = length s -> map snd (combine l s) = s.
Proof.
  revert s. induction l as [| x l IH]; intros [| i s] Hlen;
    cbn in *; try discriminate; try reflexivity.
  f_equal. apply IH. lia.
Qed.

Lemma argsort_perm {F} `{Scalar F} (keys : list F) :
  Permutation (argsort keys) (seq 0 (length keys)).
Proof.
  unfold argsort.
  eapply perm_trans.
  - apply Permutation_map, sort_by_perm.
  - rewrite map_snd_combine_seq; [apply Permutation_refl |].
    now rewrite length_seq.
Qed.

Lemma py_slice_to_firstn {A} (l : list A) (n : Z) :
  (0 <= n)%Z -> py_slice_to l n = firstn (Z.to_nat n) l.
Proof.
  intros Hn. unfold py_slice_to.
  destruct (Z.leb_spec 0 n); [reflexivity | lia].
Qed.

Lemma firstn_incl {A} (n : nat) (l : list A) : incl (firstn n l) l.
Proof.
  revert n. induction l as [| x l IH]; intros [| n]; cbn;
    try (intros y []; fail).
  intros y [-> | Hy]; [now left | right; eapply IH; eassumption].
Qed.

Lemma firstn_nodup {A} (n : nat) (l : list A) : NoDup l -> NoDup (firstn n l).
Proof.
  revert n. induction l as [| x l IH]; intros [| n] Hn; cbn;
    try constructor.
  - inversion Hn; subst. intros Hin. apply firstn_incl in Hin. contradiction.
  - inversion Hn; subst. now apply IH.
Qed.

(** ** Gathering *)

Lemma gather_length {A} (t : list A) (indices : list nat) (r : list A) :
  gather t indices = Ok r -> length r = length indices.
Proof.
  revert r. induction indices as [| i rest IH]; intros r Hg; cbn in Hg.
  - now inversion Hg.
  - destruct (nth_error t i); [| discriminate].
    destruct (gather t rest) as [xs |]; cbn in Hg; [| discriminate].
    inversion Hg; subst. cbn. f_equal. now apply IH.
Qed.

Lemma gather_ok {A} (t : list A) (indices : list nat) :
  Forall (fun i => i < length t) indices ->
  exists r, gather t indices = Ok r.
Proof.
  induction 1 as [| i rest Hi _ [r IH]]; cbn.
  - now exists [].
  - destruct (nth_error t i) as [x |] eqn:E.
    + rewrite IH. cbn. now eexists.
    + apply nth_error_None in E. lia.
Qed.

Lemma gather_in_range {A} (t : list A) (indices : list nat) (r : list A) :
  gather t indices = Ok r -> Forall (fun i => i < length t) indices.
Proof.
  revert r. induction indices as [| i rest IH]; intros r Hg; cbn in Hg.
  - constructor.
  - destruct (nth_error t i) eqn:E; [| discriminate].
    destruct (gather t rest) as [xs |] eqn:G; cbn in Hg; [| discriminate].
    constructor; [| eapply IH; reflexivity].
    apply nth_error_Some. congruence.
Qed.

Lemma gather_shift {A} (x : A) (t : list A) (indices : list nat) :
  gather (x :: t) (map S indices) = gather t indices.
Proof.
  induction indices as [| i rest IH]; cbn; [reflexivity |].
  now rewrite IH.
Qed.

Lemma positive_indices (l : list nat) :
  Forall (fun i => 0 < i) l -> exists l', l = map S l'.
Proof.
  induction 1 as [| i rest Hi _ [l' ->]].
  - now exists [].
  - destruct i as [| i]; [lia |]. now exists (i :: l').
Qed.

Lemma strict_map_S (l : list nat) :
  StronglySorted lt (map S l) -> StronglySorted lt l.
Proof.
  induction l as [| x l IH]; cbn; intros Hs; [constructor |].
  inversion Hs as [| ? ? Hs' Hall]; subst.
  constructor; [now apply IH |].
  rewrite Forall_forall in *. intros z Hz.
  specialize (Hall (S z) (in_map S _ _ Hz)). lia.
Qed.

Lemma subseq_nil_l {A} (l : list A) : subseq [] l.
Proof. induction l; constructor; assumption. Qed.

Lemma subseq_incl {A} (l1 l2 : list A) : subseq l1 l2 -> incl l1 l2.
Proof.
  induction 1 as [| x l1 l2 _ IH | x l1 l2 _ IH]; intros z Hz.
  - assumption.
  - right. now apply IH.
  - destruct Hz as [-> | Hz]; [now left | right; now apply IH].
Qed.

Lemma subseq_nodup {A} (l1 l2 : list A) :
  subseq l1 l2 -> NoDup l2 -> NoDup l1.
Proof.
  induction 1 as [| x l1 l2 _ IH | x l1 l2 Hs IH]; intros Hn.
  - assumption.
  - inversion Hn; subst. now apply IH.
  - inversion Hn; subst. constructor; [| now apply IH].
    intros Hin. apply (subseq_incl _ _ Hs) in Hin. contradiction.
Qed.

Lemma subseq_refl {A} (l : list A) : subseq l l.
Proof. induction l; constructor; assumption. Qed.

(** Gathering at strictly increasing positions keeps the original order. *)
Lemma gather_increasing_subseq {A} (t : list A) :
  forall (positions : list nat) (r : list A),
    StronglySorted lt positions ->
    gather t positions = Ok r ->
    subseq r t.
Proof.
  induction t as [| x t IH]; intros positions r Hs Hg.
  - destruct positions as [| i rest]; cbn in Hg.
    + inversion Hg. constructor.
    + destruct i; discriminate.
  - destruct positions as [| i rest]; cbn in Hg.
    + inversion Hg. apply subseq_nil_l.
    + inversion Hs as [| ? ? Hs' Hall]; subst.
      destruct i as [| i].
      * cbn in Hg.
        destruct (positive_indices _ Hall) as [rest' ->].
        rewrite gather_shift in Hg.
        destruct (gather t rest') as [xs |] eqn:G; cbn in Hg; [| discriminate].
        inversion Hg; subst. apply subseq_take.
        eapply IH; [| exact G]. now apply strict_map_S.
      * assert (Hpos : Forall (fun j => 0 < j) (S i :: rest)).
        { constructor; [lia |]. rewrite Forall_forall in *.
          intros z Hz. specialize (Hall z Hz). lia. }
        destruct (positive_indices _ Hpos) as [all' Eall].
        apply subseq_skip.
        apply (IH all' r).
        -- apply strict_map_S. rewrite <- Eall. exact Hs.
        -- rewrite <- (gather_shift x t all'), <- Eall. exact Hg.
Qed.

(** ** The locality-preserving crop *)

Section CropFacts.
Context {F : Type} {SF : Scalar F} {RS : RandomSource F}.

Lemma random_choice_ok {A} (l : list A) (st : state F) :
  randbelow_in_range -> l <> [] ->
  exists x g, random_choice l st = Ok (x, mk_state g (trace st)) /\ In x l.
Proof.
  intros Hrb Hl. destruct l as [| a l]; [contradiction |].
  unfold random_choice, bind, draw, lift.
  specialize (Hrb (length (a :: l)) (rng st)).
  destruct (random_randbelow (length (a :: l)) (rng st)) as [i g] eqn:E.
  cbn [fst] in Hrb.
  destruct (nth_error (a :: l) i) as [x |] eqn:Ex.
  - exists x, g. split; [reflexivity |]. eapply nth_error_In; eassumption.
  - apply nth_error_None in Ex. cbn in Ex, Hrb. lia.
Qed.

Lemma crop_condition_spec (voxel_max : Z) (xyz : tensor F) (pt : vec3 F) :
  (0 <= voxel_max)%Z -> (voxel_max < len xyz)%Z ->
  let condition := crop_condition voxel_max xyz pt in
  len condition = voxel_max /\
  StronglySorted lt condition /\
  NoDup condition /\
  Forall (fun i => i < length xyz) condition.
Proof.
  intros H0 Hlt. unfold crop_condition, len in *.
  rewrite py_slice_to_firstn by assumption.
  set (a := argsort (map (sqdist pt) xyz)).
  assert (Ha : Permutation a (seq 0 (length xyz))).
  { subst a. rewrite <- (length_map (sqdist pt) xyz). apply argsort_perm. }
  set (s := firstn (Z.to_nat voxel_max) a).
  assert (Hs : Permutation (sort_indices s) s) by apply sort_by_perm.
  assert (Hnd : NoDup s).
  { apply firstn_nodup.
    eapply Permutation_NoDup; [apply Permutation_sym, Ha | apply seq_NoDup]. }
  assert (Hnd' : NoDup (sort_indices s))
    by (eapply Permutation_NoDup; [apply Permutation_sym, Hs | exact Hnd]).
  cbv zeta. repeat split.
  - rewrite (Permutation_length Hs). subst s.
    rewrite length_firstn, (Permutation_length Ha), length_seq. lia.
  - apply sorted_nodup_strict; [apply sort_indices_sorted | exact Hnd'].
  - exact Hnd'.
  - rewrite Forall_forall. intros i Hi.
    apply (Permutation_in _ Hs) in Hi. apply firstn_incl in Hi.
    apply (Permutation_in _ Ha) in Hi. apply in_seq in Hi. lia.
Qed.

(** C2. When the subsampled set has more than [voxel_max] points the crop
    returns exactly [voxel_max] indices, taken from the input indices at
    distinct, strictly increasing positions, hence in their original
    order and distinct whenever the input indices are; the positions are
    cut by the same selection. When it has at most [voxel_max] points the
    crop hands back its input and draws nothing. *)
Theorem crop_spec (voxel_max : Z) (xyz : tensor F) (indices : list nat)
  (st : state F) :
  randbelow_in_range ->
  length xyz = length indices ->
  (0 <= voxel_max)%Z ->
  ((len indices > voxel_max)%Z ->
   exists condition xyz' indices' g,
     crop voxel_max xyz indices st
     = Ok ((xyz', indices'), mk_state g (trace st ++ [StCrop])) /\
     len indices' = voxel_max /\
     len xyz' = voxel_max /\
     StronglySorted lt condition /\
     NoDup condition /\
     Forall (fun i => i < length indices) condition /\
     gather indices condition = Ok indices' /\
     gather xyz condition = Ok xyz' /\
     subseq indices' indices /\
     subseq xyz' xyz /\
     incl indices' indices /\
     (NoDup indices -> NoDup indices')) /\
  ((len indices <= voxel_max)%Z ->
   crop voxel_max xyz indices st = Ok ((xyz, indices), st)).
Proof.
  intros Hrb Hlen H0. unfold len in *. split.
  - intros Hgt. unfold crop, len. rewrite Hlen.
    destruct (Z.gtb_spec (Z.of_nat (length indices)) voxel_max) as [_ | ?];
      [| lia].
    assert (Hne : xyz <> []).
    { intros ->. cbn in Hlen. rewrite <- Hlen in Hgt. cbn in Hgt. lia. }
    destruct (random_choice_ok xyz st Hrb Hne) as (pt & g & Hpt & _).
    unfold bind at 1. rewrite Hpt.
    destruct (crop_condition_spec voxel_max xyz pt H0)
      as (Hc1 & Hc2 & Hc3 & Hc4).
    { unfold len. lia. }
    set (condition := crop_condition voxel_max xyz pt) in *.
    destruct (gather_ok xyz condition Hc4) as [xyz' Hx].
    assert (Hc4' : Forall (fun i => i < length indices) condition)
      by (rewrite <- Hlen; exact Hc4).
    destruct (gather_ok indices condition Hc4') as [indices' Hi].
    exists condition, xyz', indices', g.
    assert (Hsub : subseq indices' indices)
      by (eapply gather_increasing_subseq; eassumption).
    repeat split; try assumption.
    + unfold bind, lift, log, ret. rewrite Hx, Hi. reflexivity.
    + rewrite (gather_length _ _ _ Hi). unfold len in Hc1. exact Hc1.
    + rewrite (gather_length _ _ _ Hx). unfold len in Hc1. exact Hc1.
    + eapply gather_increasing_subseq; eassumption.
    + now apply subseq_incl.
    + now apply subseq_nodup.
  - intros Hle. unfold crop, len. rewrite Hlen.
    destruct (Z.gtb_spec (Z.of_nat (length indices)) voxel_max) as [? | _];
      [lia | reflexivity].
Qed.
End CropFacts.

Lemma scripted_randbelow_in_range : @randbelow_in_range Q Random_Q.
Proof.
  intros n g Hn. cbn. unfold scripted_randbelow.
  destruct (next_draw g) as [u g']. cbn [fst].
  apply Nat.mod_upper_bound. lia.
Qed.

(** The anchor is the grid origin (position 1); its five nearest points
    come back in their original order. *)
Example crop_grid_points :
  crop 5 grid_points grid_indices (start [(1 # 10)%Q])
  = Ok (([(0, 0, 0); (1, 0, 0); (0, 1, 0); (1, 1, 0); (0, 0, 1)]%Q,
         [2; 6; 8; 10; 12]),
        @mk_state Q Random_Q [] [StCrop]).
Proof. vm_compute. reflexivity. Qed.

Lemma crop_spec_witness :
  exists condition xyz' indices' g,
    crop 5 grid_points grid_indices (start [(1 # 10)%Q])
    = Ok ((xyz', indices'),
          mk_state g (trace (start [(1 # 10)%Q]) ++ [StCrop])) /\
    len indices' = 5%Z /\
    len xyz' = 5%Z /\
    StronglySorted lt condition /\
    NoDup condition /\
    Forall (fun i => i < length grid_indices) condition /\
    gather grid_indices condition = Ok indices' /\
    gather grid_points condition = Ok xyz' /\
    subseq indices' grid_indices /\
    subseq xyz' grid_points /\
    incl indices' grid_indices /\
    (NoDup grid_indices -> NoDup indices').
Proof.
  apply (proj1 (crop_spec 5 grid_points grid_indices (start [(1 # 10)%Q])
                  scripted_randbelow_in_range eq_refl ltac:(lia))).
  vm_compute. reflexivity.
Defined.

(** ** Stepping through the pipeline monad *)

Section MonadFacts.
Context {F : Type} {RS : RandomSource F}.

Lemma bind_ok_inv {A B} (m : M F A) (k : A -> M F B) (st : state F)
  (r : B * state F) :
  bind m k st = Ok r ->
  exists a st1, m st = Ok (a, st1) /\ k a st1 = Ok r.
Proof.
  unfold bind. destruct (m st) as [[a st1] | e]; [| discriminate].
  intros Hk. now exists a, st1.
Qed.

Lemma lift_ok_inv {A} (r : res A) (st : state F) (a : A) (st' : state F) :
  lift r st = Ok (a, st') -> r = Ok a /\ st' = st.
Proof.
  unfold lift. destruct r; [| discriminate].
  intros E. inversion E. now split.
Qed.

Lemma ret_ok_inv {A} (a : A) (st : state F) (b : A) (st' : state F) :
  ret a st = Ok (b, st') -> b = a /\ st' = st.
Proof. unfold ret. intros E. inversion E. now split. Qed.

Lemma log_ok_inv (s : stage) (st : state F) (u : unit) (st' : state F) :
  log s st = Ok (u, st') -> st' = mk_state (rng st) (trace st ++ [s]).
Proof. unfold log. intros E. now inversion E. Qed.

Lemma draw_ok_inv {A} (gen : RNG -> A * RNG) (st : state F) (a : A)
  (st' : state F) :
  draw gen st = Ok (a, st') ->
  a = fst (gen (rng st)) /\ st' = mk_state (snd (gen (rng st))) (trace st).
Proof.
  unfold draw. destruct (gen (rng st)) as [x g]. intros E.
  inversion E. now split.
Qed.

Lemma deterministic_ret {A} (a : A) : deterministic (ret a).
Proof.
  exists (Ok (a, [])). intros [g t]. unfold ret. cbn.
  now rewrite app_nil_r.
Qed.

Lemma deterministic_lift {A} (r : res A) : deterministic (lift r).
Proof.
  destruct r as [a | e].
  - exists (Ok (a, [])). intros [g t]. cbn. now rewrite app_nil_r.
  - exists (Err e). reflexivity.
Qed.

Lemma deterministic_log (s : stage) : deterministic (log s).
Proof. exists (Ok (tt, [s])). reflexivity. Qed.

Lemma deterministic_bind {A B} (m : M F A) (k : A -> M F B) :
  deterministic m -> (forall a, deterministic (k a)) ->
  deterministic (bind m k).
Proof.
  intros [[[a t] | e] Hm] Hk.
  - destruct (Hk a) as [[[b t'] | e'] Hka].
    + exists (Ok (b, t ++ t')). intros st. unfold bind.
      rewrite Hm, Hka. cbn. now rewrite app_assoc.
    + exists (Err e'). intros st. unfold bind. now rewrite Hm, Hka.
  - exists (Err e). intros st. unfold bind. now rewrite Hm.
Qed.
(** Two runs of a computation that draws nothing agree, whatever the two
    random states, and neither run moves its random source. *)
Lemma deterministic_runs_agree {A} (m : M F A) :
  deterministic m ->
  forall (st1 st2 st1' st2' : state F) (a1 a2 : A),
    m st1 = Ok (a1, st1') -> m st2 = Ok (a2, st2') ->
    a1 = a2 /\ rng st1' = rng st1 /\ rng st2' = rng st2.
Proof.
  intros [[[a t] | e] Hm] st1 st2 st1' st2' a1 a2 H1 H2;
    rewrite Hm in H1, H2; [| discriminate].
  inversion H1; inversion H2; subst. auto.
Qed.
End MonadFacts.

Create HintDb determinism.
#[export] Hint Resolve deterministic_ret deterministic_lift deterministic_log
  : determinism.

Ltac step_deterministic :=
  repeat first
    [ apply deterministic_ret
    | apply deterministic_lift
    | apply deterministic_log
    | apply deterministic_bind; [| intros ]
    | match goal with
      | |- deterministic (match ?x with _ => _ end) => destruct x
      end ].

(** ** Determinism of the test-time construction *)

Section Determinism.
Context {F : Type} {SF : Scalar F} {TF : Trig F} {RS : RandomSource F}
        {CO : Collaborators F}.

Lemma deterministic_recenter (xyz : tensor F) : deterministic (recenter xyz).
Proof. unfold recenter. step_deterministic. Qed.

Lemma deterministic_color_rescale (col : tensor F) :
  deterministic (color_rescale col).
Proof. unfold color_rescale. step_deterministic. Qed.

Lemma deterministic_rigid (angle s : F) (xyz norm : tensor F) :
  deterministic (rigid angle (ret s) xyz norm).
Proof. unfold rigid. step_deterministic. Qed.

#[local] Hint Resolve deterministic_recenter deterministic_color_rescale
  deterministic_rigid : determinism.

(** C3. For a fixed dataset (scenes and configuration) and a fixed [idx],
    [get_test_item] of either dataset draws nothing: there is one outcome,
    a sample with its stages or an exception, that every run returns
    whatever the state of the random source; two runs that return hand
    back the same sample, and each leaves its random source untouched. *)
Theorem get_test_item_deterministic :
  (forall (self : ScanNetV2.dataset) (idx : Z),
      deterministic (ScanNetV2.get_test_item self idx) /\
      forall (st1 st2 st1' st2' : state F) (s1 s2 : Sample F CamPoints),
        ScanNetV2.get_test_item self idx st1 = Ok (s1, st1') ->
        ScanNetV2.get_test_item self idx st2 = Ok (s2, st2') ->
        s1 = s2 /\ rng st1' = rng st1 /\ rng st2' = rng st2) /\
  (forall (self : S3DIS.dataset) (idx : Z),
      deterministic (S3DIS.get_test_item self idx) /\
      forall (st1 st2 st1' st2' : state F) (s1 s2 : Sample F CamPoints),
        S3DIS.get_test_item self idx st1 = Ok (s1, st1') ->
        S3DIS.get_test_item self idx st2 = Ok (s2, st2') ->
        s1 = s2 /\ rng st1' = rng st1 /\ rng st2' = rng st2).
Proof.
  split; intros self idx.
  - assert (Hd : deterministic (ScanNetV2.get_test_item self idx)).
    { unfold ScanNetV2.get_test_item.
      step_deterministic; auto with determinism. }
    split; [exact Hd | now apply deterministic_runs_agree].
  - assert (Hd : deterministic (S3DIS.get_test_item self idx)).
    { unfold S3DIS.get_test_item.
      step_deterministic; auto with determinism. }
    split; [exact Hd | now apply deterministic_runs_agree].
Qed.
End Determinism.

(** Two test-time runs from different random states, on either small
    dataset. *)
Lemma get_test_item_deterministic_witness :
  (exists s st1' st2',
      ScanNetV2.get_test_item (scannet false 24000) 7 (start [1 # 4]%Q)
      = Ok (s, st1') /\
      ScanNetV2.get_test_item (scannet false 24000) 7 (start [3 # 4; 1]%Q)
      = Ok (s, st2') /\
      rng st1' = [1 # 4]%Q /\ rng st2' = [3 # 4; 1]%Q) /\
  (exists s st1' st2',
      S3DIS.get_test_item (s3dis false 24000) 29 (start [1 # 4]%Q)
      = Ok (s, st1') /\
      S3DIS.get_test_item (s3dis false 24000) 29 (start [])
      = Ok (s, st2') /\
      rng st1' = [1 # 4]%Q /\ rng st2' = []).
Proof.
  split.
  - assert (H1 : exists r,
               ScanNetV2.get_test_item (scannet false 24000) 7
                 (start [1 # 4]%Q) = Ok r)
      by (eexists; vm_compute; reflexivity).
    assert (H2 : exists r,
               ScanNetV2.get_test_item (scannet false 24000) 7
                 (start [3 # 4; 1]%Q) = Ok r)
      by (eexists; vm_compute; reflexivity).
    destruct H1 as [[s1 st1'] H1], H2 as [[s2 st2'] H2].
    destruct (proj2 (proj1 get_test_item_deterministic
                       (scannet false 24000) 7%Z) _ _ _ _ _ _ H1 H2)
      as (<- & Hr1 & Hr2).
    exists s1, st1', st2'. repeat split; assumption.
  - assert (H1 : exists r,
               S3DIS.get_test_item (s3dis false 24000) 29
                 (start [1 # 4]%Q) = Ok r)
      by (eexists; vm_compute; reflexivity).
    assert (H2 : exists r,
               S3DIS.get_test_item (s3dis false 24000) 29 (start [])
               = Ok r)
      by (eexists; vm_compute; reflexivity).
    destruct H1 as [[s1 st1'] H1], H2 as [[s2 st2'] H2].
    destruct (proj2 (proj2 get_test_item_deterministic
                       (s3dis false 24000) 29%Z) _ _ _ _ _ _ H1 H2)
      as (<- & Hr1 & Hr2).
    exists s1, st1', st2'. repeat split; assumption.
Defined.

(** ** Stage by stage *)

Ltac minv :=
  repeat match goal with
  | H : bind _ _ _ = Ok _ |- _ =>
      apply bind_ok_inv in H; destruct H as (? & ? & ? & H); cbv beta in H
  | H : lift _ _ = Ok (_, _) |- _ =>
      apply lift_ok_inv in H; destruct H as [H ?]; subst
  | H : ret _ _ = Ok (_, _) |- _ =>
      apply ret_ok_inv in H; destruct H as [? ?]; subst
  | H : log _ _ = Ok (_, _) |- _ => apply log_ok_inv in H; subst
  | H : draw _ _ = Ok (_, _) |- _ =>
      apply draw_ok_inv in H; destruct H as [? ?]; subst
  | H : (match ?x with _ => _ end) _ = Ok _ |- _ => is_var x; destruct x
  | H : Ok _ = Ok _ |- _ => inversion H; subst; clear H
  | H : (_, _) = (_, _) |- _ => inversion H; subst; clear H
  end.

Section StageFacts.
Context {F : Type} {SF : Scalar F} {TF : Trig F} {RS : RandomSource F}.

Lemma recenter_inv (xyz xyz' : tensor F) (st st' : state F) :
  recenter xyz st = Ok (xyz', st') ->
  exists m, col_min xyz = Ok m /\ xyz' = sub_row xyz m /\
            st' = mk_state (rng st) (trace st ++ [StRecenter]).
Proof.
  unfold recenter. intros Hr. minv. eexists. repeat split; eauto.
Qed.

Lemma rigid_inv (angle : F) (get_scale : M F F) (xyz norm xyz' norm' : tensor F)
  (st st' : state F) :
  rigid angle get_scale xyz norm st = Ok ((xyz', norm'), st') ->
  exists s st1,
    get_scale st = Ok (s, st1) /\
    norm' = matmul norm (rotmat (fcos angle) (fsin angle)) /\
    xyz' = matmul xyz (mat_scale (rotmat (fcos angle) (fsin angle)) s) /\
    st' = mk_state (rng st1) (trace st1 ++ [StRigid]).
Proof.
  unfold rigid. intros Hr. minv. do 2 eexists. repeat split; eauto.
Qed.

Lemma color_rescale_inv (col col' : tensor F) (st st' : state F) :
  color_rescale col st = Ok (col', st') ->
  col' = mul_scalar col (fdiv (f_lit 1%Q) (f_lit 250%Q)) /\
  st' = mk_state (rng st) (trace st ++ [StColorRescale]).
Proof.
  unfold color_rescale. intros Hr. minv. now split.
Qed.
End StageFacts.

Section Rows.
Context {F : Type} {SF : Scalar F} {TF : Trig F} {RS : RandomSource F}
        {CO : Collaborators F}.

Lemma cat2_length {A B C} (f : A -> B -> C) (a : list A) (b : list B)
  (r : list C) :
  cat2 f a b = Ok r -> length r = length a /\ length r = length b.
Proof.
  revert b r. induction a as [| x a IH]; intros [| y b] r Hc; cbn in Hc;
    try discriminate.
  - inversion Hc. now split.
  - destruct (cat2 f a b) as [r' |] eqn:E; cbn in Hc; [| discriminate].
    inversion Hc; subst. destruct (IH b r' E). cbn. split; lia.
Qed.

Lemma cat3_length {A B C D} (f : A -> B -> C -> D) (a : list A) (b : list B)
  (c : list C) (r : list D) :
  cat3 f a b c = Ok r ->
  length r = length a /\ length r = length b /\ length r = length c.
Proof.
  revert b c r.
  induction a as [| x a IH]; intros [| y b] [| z c] r Hc; cbn in Hc;
    try discriminate.
  - inversion Hc. now repeat split.
  - destruct (cat3 f a b c) as [r' |] eqn:E; cbn in Hc; [| discriminate].
    inversion Hc; subst. destruct (IH b c r' E) as (? & ? & ?).
    cbn. repeat split; lia.
Qed.

Lemma crop_inv_length (voxel_max : Z) (xyz xyz' : tensor F)
  (indices indices' : list nat) (st st' : state F) :
  crop voxel_max xyz indices st = Ok ((xyz', indices'), st') ->
  length xyz = length indices ->
  length xyz' = length indices'.
Proof.
  unfold crop. intros Hc Hlen.
  destruct (len xyz >? voxel_max)%Z.
  - minv.
    repeat match goal with
    | H : gather _ _ = Ok _ |- _ => apply gather_length in H
    end. congruence.
  - minv. assumption.
Qed.

Lemma color_aug_length (col col' : tensor F) (st st' : state F) :
  color_aug col st = Ok (col', st') -> length col' = length col.
Proof.
  unfold color_aug. intros Hc. minv.
  destruct (fltb _ _).
  - minv. unfold fill. now rewrite length_map.
  - minv. destruct (fltb _ _); minv;
      unfold mul_scalar, contrast; now rewrite ?length_map.
Qed.

Lemma normal_drop_length (train : bool) (norm norm' : tensor F)
  (st st' : state F) :
  ScanNetV2.normal_drop train norm st = Ok (norm', st') ->
  length norm' = length norm.
Proof.
  unfold ScanNetV2.normal_drop. intros Hn. destruct train; minv.
  - destruct (fltb _ _); minv; [unfold fill; now rewrite length_map | easy].
  - reflexivity.
Qed.

Lemma elastic_distortion_length (coords coords' : tensor F)
  (granularity magnitude : F) (st st' : state F) :
  elastic_distortion coords granularity magnitude st = Ok (coords', st') ->
  length coords' = length coords.
Proof.
  unfold elastic_distortion. intros He. minv.
  unfold distort. now rewrite length_map.
Qed.

Lemma distort_all_length (params : list (F * F)) :
  forall (coord coord' : tensor F) (st st' : state F),
    distort_all params coord st = Ok (coord', st') ->
    length coord' = length coord.
Proof.
  induction params as [| [g m] rest IH]; intros coord coord' st st' Hd;
    cbn in Hd; minv.
  - reflexivity.
  - apply IH in Hd. apply elastic_distortion_length in H. congruence.
Qed.

Lemma els_length (coord coord' : tensor F) (st st' : state F) :
  els coord st = Ok (coord', st') -> length coord' = length coord.
Proof.
  unfold els. intros He. minv. destruct (fltb _ _).
  - eapply distort_all_length; eassumption.
  - minv. reflexivity.
Qed.

Lemma jitter_length (xyz xyz' : tensor F) (st st' : state F) :
  S3DIS.jitter xyz st = Ok (xyz', st') -> length xyz' = length xyz.
Proof.
  unfold S3DIS.jitter. intros Hj. minv.
  unfold tensor_add in *.
  match goal with
  | H : (if ?c then _ else _) = Ok _ |- _ => destruct c; [| discriminate]
  end.
  minv. rewrite length_map, length_combine, length_map, length_seq. lia.
Qed.

Lemma recenter_length (xyz xyz' : tensor F) (st st' : state F) :
  recenter xyz st = Ok (xyz', st') -> length xyz' = length xyz.
Proof.
  intros Hr. apply recenter_inv in Hr. destruct Hr as (m & _ & -> & _).
  unfold sub_row. now rewrite length_map.
Qed.

Lemma rigid_length (angle : F) (get_scale : M F F)
  (xyz norm xyz' norm' : tensor F) (st st' : state F) :
  rigid angle get_scale xyz norm st = Ok ((xyz', norm'), st') ->
  length xyz' = length xyz /\ length norm' = length norm.
Proof.
  intros Hr. apply rigid_inv in Hr.
  destruct Hr as (s & st1 & _ & -> & -> & _).
  unfold matmul. now rewrite !length_map.
Qed.

Lemma color_rescale_length (col col' : tensor F) (st st' : state F) :
  color_rescale col st = Ok (col', st') -> length col' = length col.
Proof.
  intros Hc. apply color_rescale_inv in Hc. destruct Hc as [-> _].
  unfold mul_scalar. now rewrite length_map.
Qed.

Ltac row_facts :=
  repeat match goal with
  | H : gather ?t ?i = Ok ?r |- _ =>
      lazymatch goal with
      | _ : length r = length i |- _ => fail
      | _ => pose proof (gather_length _ _ _ H)
      end
  | H : recenter _ _ = Ok _ |- _ => apply recenter_length in H
  | H : rigid _ _ _ _ _ = Ok _ |- _ =>
      apply rigid_length in H; destruct H as [? ?]
  | H : color_rescale _ _ = Ok _ |- _ => apply color_rescale_length in H
  | H : color_aug _ _ = Ok _ |- _ => apply color_aug_length in H
  | H : ScanNetV2.normal_drop _ _ _ = Ok _ |- _ =>
      apply normal_drop_length in H
  | H : els _ _ = Ok _ |- _ => apply els_length in H
  | H : S3DIS.jitter _ _ = Ok _ |- _ => apply jitter_length in H
  | H : cat3 _ _ _ _ = Ok _ |- _ =>
      apply cat3_length in H; destruct H as (? & ? & ?)
  | H : cat2 _ _ _ = Ok _ |- _ =>
      apply cat2_length in H; destruct H as (? & ?)
  end;
  repeat match goal with
  | H : crop _ _ _ _ = Ok _ |- _ =>
      apply crop_inv_length in H; [| assumption]
  end.

(** C10. Every sample either dataset returns, in training and in test
    mode, has as many feature rows, labels and raw colours as positions:
    the raw colours and the labels are the stored scene's rows at one index
    vector, and the positions number as many as that vector has entries. *)
Theorem sample_rows_aligned :
  (forall (self : ScanNetV2.dataset) (idx : Z) (st st' : state F)
          (s : Sample F CamPoints),
      ScanNetV2.__getitem__ self idx st = Ok (s, st') ->
      length (sample_f s) = length (sample_p s) /\
      length (sample_y s) = length (sample_p s) /\
      length (sample_rgb s) = length (sample_p s) /\
      exists scene_idx xyz col norm lbl indices,
        py_floordiv idx (ScanNetV2.loop self) = Ok scene_idx /\
        py_index (ScanNetV2.datas self) scene_idx = Ok (xyz, col, norm, lbl) /\
        gather col indices = Ok (sample_rgb s) /\
        gather lbl indices = Ok (sample_y s) /\
        length (sample_p s) = length indices) /\
  (forall (self : S3DIS.dataset) (idx : Z) (st st' : state F)
          (s : Sample F CamPoints),
      S3DIS.__getitem__ self idx st = Ok (s, st') ->
      length (sample_f s) = length (sample_p s) /\
      length (sample_y s) = length (sample_p s) /\
      length (sample_rgb s) = length (sample_p s) /\
      exists scene_idx xyz col lbl indices,
        py_floordiv idx (S3DIS.loop self) = Ok scene_idx /\
        py_index (S3DIS.datas self) scene_idx = Ok (xyz, col, lbl) /\
        gather col indices = Ok (sample_rgb s) /\
        gather lbl indices = Ok (sample_y s) /\
        length (sample_p s) = length indices).
Proof.
  split; intros self idx st st' s Hg.
  - unfold ScanNetV2.__getitem__ in Hg.
    destruct (negb (ScanNetV2.train self));
      [unfold ScanNetV2.get_test_item in Hg |];
      minv; row_facts; cbn;
      (repeat split; [congruence .. |]);
      do 6 eexists;
      (split; [eassumption |]); (split; [eassumption |]);
      (split; [eassumption |]); (split; [eassumption |]); congruence.
  - unfold S3DIS.__getitem__ in Hg.
    destruct (negb (S3DIS.train self));
      [unfold S3DIS.get_test_item in Hg |];
      minv; row_facts; cbn;
      (repeat split; [congruence .. |]);
      do 5 eexists;
      (split; [eassumption |]); (split; [eassumption |]);
      (split; [eassumption |]); (split; [eassumption |]); congruence.
Qed.
End Rows.

(** ** The stages of the test-time construction *)

Section TestStages.
Context {F : Type} {SF : Scalar F} {TF : Trig F} {RS : RandomSource F}
        {CO : Collaborators F}.

(** C4 (as the code has it). [ScanNetV2.get_test_item] applies the rigid
    transform of the training path with the catalogue angle and scale (the
    normals rotated by the unscaled matrix, the positions by the scaled
    one), re-centres, subsamples with the pick, rescales the colour by
    1/250 and re-centres again: two re-centrings, one after the rigid
    transform and one after the subsampling, both subtracting the per-axis
    minimum. [S3DIS.get_test_item] applies no rigid transform: it
    subsamples the stored positions, rescales the colour and re-centres
    once. Neither goes through a stochastic stage (elastic distortion,
    jitter, colour drop or contrast, normal drop, crop) nor touches the
    random source. *)
Theorem test_item_stages :
  (forall (self : ScanNetV2.dataset) (idx : Z) (st st' : state F)
          (s : Sample F CamPoints),
      ScanNetV2.get_test_item self idx st = Ok (s, st') ->
      exists pick rot sc scene_idx xyz col norm lbl m1 xyz3 m2 norm3,
        test_variant (ScanNetV2.loop self) idx = Ok (pick, rot, sc) /\
        py_floordiv idx (ScanNetV2.loop self) = Ok scene_idx /\
        py_index (ScanNetV2.datas self) scene_idx = Ok (xyz, col, norm, lbl) /\
        let angle := fmul fpi (f_lit rot) in
        let rot := rotmat (fcos angle) (fsin angle) in
        let xyz1 := matmul xyz (mat_scale rot (f_lit sc)) in
        let norm1 := matmul norm rot in
        rigid angle (ret (f_lit sc)) xyz norm st
        = Ok ((xyz1, norm1), mk_state (rng st) (trace st ++ [StRigid])) /\
        col_min xyz1 = Ok m1 /\
        let xyz2 := sub_row xyz1 m1 in
        let indices :=
          grid_subsampling_test xyz2 (f_lit (2 # 100)%Q)
            (fdiv (f_lit (25 # 10)%Q) (f_lit (15 # 10)%Q)) pick in
        gather xyz2 indices = Ok xyz3 /\
        col_min xyz3 = Ok m2 /\
        sample_p s = sub_row xyz3 m2 /\
        gather norm1 indices = Ok norm3 /\
        gather col indices = Ok (sample_rgb s) /\
        gather lbl indices = Ok (sample_y s) /\
        cat3 feature_row7
          (mul_scalar (sample_rgb s) (fdiv (f_lit 1%Q) (f_lit 250%Q)))
          (sample_p s) norm3
        = Ok (sample_f s) /\
        rng st' = rng st /\
        trace st'
        = trace st ++ [StRigid; StRecenter; StSubsampleTest pick;
                       StColorRescale; StRecenter]) /\
  (forall (self : S3DIS.dataset) (idx : Z) (st st' : state F)
          (s : Sample F CamPoints),
      S3DIS.get_test_item self idx st = Ok (s, st') ->
      exists aug scene_idx xyz col lbl xyz3 m,
        py_mod idx (S3DIS.loop self) = Ok aug /\
        py_floordiv idx (S3DIS.loop self) = Ok scene_idx /\
        py_index (S3DIS.datas self) scene_idx = Ok (xyz, col, lbl) /\
        let indices :=
          grid_subsampling_test xyz (f_lit (4 # 100)%Q)
            (fdiv (f_lit (25 # 10)%Q) (f_lit 14%Q)) (aug * 5)%Z in
        gather xyz indices = Ok xyz3 /\
        col_min xyz3 = Ok m /\
        sample_p s = sub_row xyz3 m /\
        gather col indices = Ok (sample_rgb s) /\
        gather lbl indices = Ok (sample_y s) /\
        cat2 feature_row4
          (mul_scalar (sample_rgb s) (fdiv (f_lit 1%Q) (f_lit 250%Q)))
          (sample_p s)
        = Ok (sample_f s) /\
        rng st' = rng st /\
        trace st'
        = trace st ++ [StSubsampleTest (aug * 5)%Z; StColorRescale;
                       StRecenter]) /\
  (forall pick : Z,
      let scannet_stages :=
        [StRigid; StRecenter; StSubsampleTest pick; StColorRescale;
         StRecenter] in
      let s3dis_stages :=
        [StSubsampleTest pick; StColorRescale; StRecenter] in
      count_stage StRecenter scannet_stages = 2 /\
      count_stage StRigid scannet_stages = 1 /\
      existsb is_stochastic scannet_stages = false /\
      count_stage StRecenter s3dis_stages = 1 /\
      count_stage StRigid s3dis_stages = 0 /\
      existsb is_stochastic s3dis_stages = false).
Proof.
  split; [| split].
  - intros self idx st st' s Hg.
    unfold ScanNetV2.get_test_item in Hg. minv.
    repeat match goal with
    | H : recenter _ _ = Ok _ |- _ =>
        apply recenter_inv in H; destruct H as (? & ? & ? & ?)
    | H : rigid _ _ _ _ _ = Ok _ |- _ =>
        let H' := fresh in
        pose proof H as H'; apply rigid_inv in H';
        destruct H' as (? & ? & ? & ? & ? & ?); revert H
    | H : color_rescale _ _ = Ok _ |- _ =>
        apply color_rescale_inv in H; destruct H as (? & ?)
    end. intros Hrig. minv. subst. cbn in *.
    do 12 eexists. cbv zeta.
    repeat match goal with
    | |- _ /\ _ => split
    end; try eassumption; try reflexivity.
    rewrite <- !app_assoc. reflexivity.
  - intros self idx st st' s Hg.
    unfold S3DIS.get_test_item in Hg. minv.
    repeat match goal with
    | H : recenter _ _ = Ok _ |- _ =>
        apply recenter_inv in H; destruct H as (? & ? & ? & ?)
    | H : color_rescale _ _ = Ok _ |- _ =>
        apply color_rescale_inv in H; destruct H as (? & ?)
    end. subst. cbn in *.
    do 7 eexists. cbv zeta.
    repeat match goal with
    | |- _ /\ _ => split
    end; try eassumption; try reflexivity.
    rewrite <- !app_assoc. reflexivity.
  - intros pick. cbn. repeat split.
Qed.
End TestStages.

(** At test time [S3DIS] re-centres once, not twice, and never rotates. *)
Lemma s3dis_test_item_recenters_once :
  exists s st',
    S3DIS.get_test_item (s3dis false 24000) 0 (start []) = Ok (s, st') /\
    trace st' = [StSubsampleTest 0; StColorRescale; StRecenter] /\
    count_stage StRecenter (trace st') <> 2 /\
    count_stage StRigid (trace st') = 0.
Proof.
  do 2 eexists. split; [vm_compute; reflexivity |].
  cbn. repeat split. discriminate.
Qed.

Lemma test_item_stages_witness :
  exists s st',
    ScanNetV2.get_test_item (scannet false 24000) 7 (start []) = Ok (s, st') /\
    rng st' = rng (start []) /\
    count_stage StRecenter (trace st') = 2.
Proof.
  assert (Hrun : exists r,
             ScanNetV2.get_test_item (scannet false 24000) 7 (start [])
             = Ok r).
  { eexists. vm_compute. reflexivity. }
  destruct Hrun as [[s st'] Hrun].
  exists s, st'. split; [exact Hrun |].
  destruct (proj1 test_item_stages _ _ _ _ _ Hrun)
    as (pick & rot & sc & scene_idx & xyz & col & norm & lbl & m1 & xyz3
        & m2 & norm3 & _ & _ & _ & _ & _ & _ & _ & _ & _ & _ & _ & _
        & Hrng & Htrace).
  split; [exact Hrng |]. rewrite Htrace. reflexivity.
Defined.

(** ** The rotation matrix over the reals *)

Section Rotation.
Local Open Scope R_scope.

Lemma cos2_sin2 (theta : R) : cos theta * cos theta + sin theta * sin theta = 1.
Proof. generalize (sin2_cos2 theta). unfold Rsqr. lra. Qed.

(** C8. For every angle the unscaled rotation matrix is orthogonal: its
    product with its transpose, on either side, is the identity, and its
    determinant is 1. *)
Theorem rotmat_orthogonal (theta : R) :
  let rot := rotmat (cos theta) (sin theta) in
  mat_mul rot (transpose rot) = identity /\
  mat_mul (transpose rot) rot = identity /\
  det rot = 1 /\
  (det rot = 1 \/ det rot = -1).
Proof.
  pose proof (cos2_sin2 theta) as Hcs.
  unfold identity. cbn.
  rewrite !RMicromega.Q2R_0, !RMicromega.Q2R_1.
  assert (Hdet : cos theta * (cos theta * 1 - 0 * 0)
                 - sin theta * (- sin theta * 1 - 0 * 0)
                 + 0 * (- sin theta * 0 - cos theta * 0) = 1) by nra.
  repeat split.
  - repeat f_equal; nra.
  - repeat f_equal; nra.
  - exact Hdet.
  - left. exact Hdet.
Qed.
End Rotation.

(** ** The rigid transform over the reals *)

Lemma Forall2_map_image {A B : Type} (fn : A -> B) (P : A -> B -> Prop)
  (l : list A) :
  (forall x, P x (fn x)) -> Forall2 P l (map fn l).
Proof.
  intros HP. induction l as [| x l IH]; cbn [map]; constructor;
    [apply HP | exact IH].
Qed.

Section RigidReal.
Context {RS : RandomSource R}.
Local Open Scope R_scope.

(** A row times the rotation matrix, and times the scaled matrix, written
    out by coordinates. *)
Lemma vec_matmul_rotmat (v : vec3 R) (c sn : R) :
  vec_matmul v (rotmat c sn)
  = (let '(x, y, z) := v in (x * c - y * sn, x * sn + y * c, z)).
Proof.
  destruct v as [[x y] z]. cbn.
  rewrite !RMicromega.Q2R_0, !RMicromega.Q2R_1.
  f_equal; [f_equal |]; ring.
Qed.

Lemma vec_matmul_scaled_rotmat (v : vec3 R) (c sn s : R) :
  vec_matmul v (mat_scale (rotmat c sn) s)
  = (let '(x, y, z) := v in
     (s * (x * c - y * sn), s * (x * sn + y * c), s * z)).
Proof.
  destruct v as [[x y] z]. cbn.
  rewrite !RMicromega.Q2R_0, !RMicromega.Q2R_1.
  f_equal; [f_equal |]; ring.
Qed.

(** What the rigid transform returns, whatever the scale is drawn from. *)
Lemma rigid_returns (angle s : R) (get_scale : M R R)
  (xyz norm : tensor R) (st st1 : state R) :
  get_scale st = Ok (s, st1) ->
  rigid angle get_scale xyz norm st
  = Ok ((map (fun v : vec3 R =>
               let '(x, y, z) := v in
               (s * (x * cos angle - y * sin angle),
                s * (x * sin angle + y * cos angle), s * z)) xyz,
         map (fun v : vec3 R =>
               let '(x, y, z) := v in
               (x * cos angle - y * sin angle,
                x * sin angle + y * cos angle, z)) norm),
        mk_state (rng st1) (trace st1 ++ [StRigid])).
Proof.
  intros Hs. unfold rigid, bind, log, ret. rewrite Hs.
  cbn [fcos fsin Trig_R]. unfold matmul. do 3 f_equal.
  - apply map_ext. intros v. apply vec_matmul_scaled_rotmat.
  - apply map_ext. intros v. apply vec_matmul_rotmat.
Qed.

(** C7. In training, with [u0] and [u1] the two uniform draws, the
    transform returns every normal rotated about the vertical axis by the
    angle [u0 * 2 * pi] and nothing else, and every position rotated the
    same way and then stretched by [0.8 + (1.2 - 0.8) * u1], a factor
    between 0.8 and 1.2. A returned normal therefore has the vertical
    component and the length of the stored one; a returned position has
    its vertical component and its length multiplied by the factor. *)
Theorem rigid_rotates_normals_scales_positions
  (xyz norm : tensor R) (st : state R) (u0 u1 : R) (g0 g1 : RNG) :
  random_random (rng st) = (u0, g0) ->
  random_random g0 = (u1, g1) ->
  0 <= u1 < 1 ->
  let angle := u0 * 2 * PI in
  let s := 8 / 10 + (12 / 10 - 8 / 10) * u1 in
  let rotate (v : vec3 R) : vec3 R :=
    let '(x, y, z) := v in
    (x * cos angle - y * sin angle, x * sin angle + y * cos angle, z) in
  let stretch (v : vec3 R) : vec3 R :=
    let '(x, y, z) := v in (s * x, s * y, s * z) in
  exists xyz' norm' : tensor R,
    bind random_angle (fun angle => rigid angle random_scale xyz norm) st
    = Ok ((xyz', norm'), mk_state g1 (trace st ++ [StRigid])) /\
    8 / 10 <= s <= 12 / 10 /\
    norm' = map rotate norm /\
    xyz' = map (fun p => stretch (rotate p)) xyz /\
    Forall2 (fun n n' => height n' = height n /\ sqnorm n' = sqnorm n)
      norm norm' /\
    Forall2 (fun p p' => height p' = s * height p /\
                         sqnorm p' = s * s * sqnorm p) xyz xyz'.
Proof.
  intros E0 E1 Hu angle s rotate stretch.
  pose proof (sin2_cos2 angle) as Hcs. unfold Rsqr in Hcs.
  exists (map (fun p => stretch (rotate p)) xyz), (map rotate norm).
  split; [| split; [| split; [| split; [| split]]]].
  - unfold bind at 1, random_angle, bind, draw, ret. rewrite E0.
    cbn [rng trace].
    rewrite (rigid_returns _ s _ _ _ _ (mk_state g1 (trace st))).
    + cbn [rng trace fmul fpi f_lit Scalar_R Trig_R].
      replace (u0 * Q2R 2 * PI) with angle
        by (subst angle; unfold Q2R; cbn; lra).
      rewrite (map_ext (fun p => stretch (rotate p))
                 (fun v : vec3 R =>
                    let '(x, y, z) := v in
                    (s * (x * cos angle - y * sin angle),
                     s * (x * sin angle + y * cos angle), s * z)))
        by (intros [[x y] z]; reflexivity).
      reflexivity.
    + unfold random_scale, random_uniform, bind, draw, ret.
      cbn [rng trace]. rewrite E1.
      replace (fadd (f_lit (8 # 10)%Q)
                 (fmul (fsub (f_lit (12 # 10)%Q) (f_lit (8 # 10)%Q)) u1))
        with s by (subst s; cbn; unfold Q2R; cbn; lra).
      reflexivity.
  - subst s. lra.
  - reflexivity.
  - reflexivity.
  - apply Forall2_map_image. intros [[x y] z]. subst rotate. cbn.
    split; [reflexivity |].
    set (c := cos angle) in *. set (sn := sin angle) in *. nra.
  - apply Forall2_map_image. intros [[x y] z]. subst rotate stretch. cbn.
    split; [reflexivity |].
    set (c := cos angle) in *. set (sn := sin angle) in *.
    replace ((s * (x * c - y * sn)) * (s * (x * c - y * sn))
             + (s * (x * sn + y * c)) * (s * (x * sn + y * c))
             + s * z * (s * z))
      with (s * s * ((x * x + y * y) * (sn * sn + c * c) + z * z)) by ring.
    rewrite Hcs. ring.
Qed.
End RigidReal.

(** A quarter turn and the factor 1.1: the normal along the first axis
    comes back along the second, the vertical normal is unchanged, and the
    position is turned and stretched. *)
Lemma rigid_rotates_normals_scales_positions_witness :
  bind random_angle
    (fun angle =>
       rigid angle random_scale [(1, 2, 3)%R] [(1, 0, 0)%R; (0, 0, 1)%R])
    (@mk_state R Random_R_script [1 / 4; 3 / 4]%R [])
  = Ok (([(-22 / 10, 11 / 10, 33 / 10)%R], [(0, 1, 0)%R; (0, 0, 1)%R]),
        @mk_state R Random_R_script [] [StRigid]).
Proof.
  destruct (@rigid_rotates_normals_scales_positions Random_R_script
              [(1, 2, 3)%R] [(1, 0, 0)%R; (0, 0, 1)%R]
              (@mk_state R Random_R_script [1 / 4; 3 / 4]%R [])
              (1 / 4)%R (3 / 4)%R [(3 / 4)%R] [] eq_refl eq_refl)
    as (xyz' & norm' & Hrun & _ & Hn & Hx & _).
  - lra.
  - rewrite Hrun, Hn, Hx.
    replace (1 / 4 * 2 * PI)%R with (PI / 2)%R by lra.
    rewrite cos_PI2, sin_PI2. cbn [map trace app].
    repeat match goal with
           | |- Ok _ = Ok _ => f_equal
           | |- (_, _) = (_, _) => f_equal
           | |- _ :: _ = _ :: _ => f_equal
           end; lra.
Defined.

(** ** Construction of the scene store *)

Section StoreFacts.
Context {Scene : Type} (torch_load : string -> res Scene)
        (rows : Scene -> nat).

Lemma load_all_spec (paths : list string) (scenes : list Scene) :
  load_all torch_load paths = Ok scenes <->
  Forall2 (fun path s => torch_load path = Ok s) paths scenes.
Proof.
  revert scenes. induction paths as [| path rest IH]; intros scenes; cbn.
  - split.
    + intros E. inversion E. constructor.
    + intros E. inversion E. reflexivity.
  - split.
    + destruct (torch_load path) as [s |] eqn:El; cbn; [| discriminate].
      destruct (load_all torch_load rest) as [ss |] eqn:Er; cbn;
        [| discriminate].
      intros E. inversion E; subst. constructor; [assumption |].
      now apply IH.
    + intros E. inversion E as [| ? s ? ss Hl Hr]; subst.
      rewrite Hl. cbn. apply IH in Hr. rewrite Hr. reflexivity.
Qed.

Lemma scan_max_in (paths : list string) :
  forall (max_n : nat) (selected sel : string),
    scan_max torch_load rows paths max_n selected = Ok sel ->
    sel = selected \/ In sel paths.
Proof.
  induction paths as [| data rest IH]; intros max_n selected sel Hs;
    cbn in Hs.
  - inversion Hs. now left.
  - destruct (torch_load data) as [s |]; cbn [res_bind] in Hs;
      [| discriminate].
    match type of Hs with
    | (if ?c then _ else _) = _ => destruct c
    end.
    + apply IH in Hs. destruct Hs as [-> | Hin]; right; [now left | now right].
    + apply IH in Hs. destruct Hs as [-> | Hin]; [now left | right; now right].
Qed.

(** What the store holds is what the loader returned, file by file. *)
Lemma load_store_spec (paths : list string) (train warmup : bool) :
  (paths = [] ->
   load_store torch_load rows paths train warmup = Err AssertionError) /\
  (forall scenes,
      paths <> [] -> train && warmup = false ->
      load_all torch_load paths = Ok scenes ->
      load_store torch_load rows paths train warmup = Ok (paths, scenes)) /\
  (forall paths' scenes,
      load_store torch_load rows paths train warmup = Ok (paths', scenes) ->
      paths <> [] /\ incl paths' paths /\
      Forall2 (fun path s => torch_load path = Ok s) paths' scenes).
Proof.
  split; [| split].
  - intros ->. reflexivity.
  - intros scenes Hne Hw Hl. destruct paths as [| first rest];
      [contradiction |].
    unfold load_store. rewrite Hw. cbn [res_bind]. rewrite Hl. reflexivity.
  - intros paths' scenes H.
    destruct paths as [| first rest]; [discriminate |].
    split; [discriminate |].
    unfold load_store in H.
    assert (Hsel : forall ps,
               (if train && warmup
                then res_bind
                       (scan_max torch_load rows (first :: rest) 0 first)
                       (fun sel => Ok [sel])
                else Ok (first :: rest)) = Ok ps ->
               incl ps (first :: rest)).
    { intros ps Hps. destruct (train && warmup).
      - destruct (scan_max torch_load rows (first :: rest) 0 first)
          as [sel |] eqn:Es; cbn in Hps; [| discriminate].
        inversion Hps; subst. intros x [<- | []].
        apply scan_max_in in Es. destruct Es as [-> | Hin];
          [now left | assumption].
      - inversion Hps; subst. apply incl_refl. }
    destruct (if train && warmup
              then res_bind (scan_max torch_load rows (first :: rest) 0 first)
                            (fun sel => Ok [sel])
              else Ok (first :: rest)) as [ps |]; cbn [res_bind] in H;
      [| discriminate].
    destruct (load_all torch_load ps) as [ds |] eqn:El; cbn [res_bind] in H;
      [| discriminate].
    inversion H; subst. split; [now apply Hsel | now apply load_all_spec].
Qed.
End StoreFacts.

Section InitFacts.
Context {F : Type} {SF : Scalar F} {RS : RandomSource F}
        {CO : Collaborators F}.

End InitFacts.


(** Such a scene, once stored, is sampled without complaint when every
    subsampled index is in range of the longer tensors: the rows beyond
    the positions are never read. *)
Example ragged_scene_is_sampled :
  exists self s st',
    S3DIS.__init__ (load_one "data/Area_5_office_1.pt" long_office)
      (fun _ _ => ["data/Area_5_office_1.pt"%string]) "data" "5" 30
      false false 24000
      [24; 24; 24; 24] [8 # 100; 16 # 100; 32 # 100]%Q 0%Q 8 tt = Ok self /\
    ~ S3DIS.aligned long_office /\
    S3DIS.get_test_item self 0 (start []) = Ok (s, st') /\
    sample_y s = [0; 1]%Z /\
    length (sample_rgb s) = 2.
Proof.
  do 3 eexists. split; [vm_compute; reflexivity |].
  split; [cbn; intros [H _]; discriminate |].
  split; [vm_compute; reflexivity |]. split; reflexivity.
Qed.


(** ** The noise grid over the reals *)

Section NoiseGrid.
Context {RS : RandomSource R}.
Local Open Scope R_scope.

Lemma Rleb_true (a b : R) : Rleb a b = true <-> a <= b.
Proof. unfold Rleb. destruct (Rle_dec a b); split; intros; easy. Qed.



Lemma fmin_spec (a b : R) : fmin a b <= a /\ fmin a b <= b /\
                            (fmin a b = a \/ fmin a b = b).
Proof.
  unfold fmin. cbn. unfold Rleb. destruct (Rle_dec a b); repeat split;
    try lra; auto.
Qed.

Lemma fmax_spec (a b : R) : a <= fmax a b /\ b <= fmax a b /\
                            (fmax a b = a \/ fmax a b = b).
Proof.
  unfold fmax. cbn. unfold Rleb. destruct (Rle_dec a b); repeat split;
    try lra; auto.
Qed.

Lemma fold_fmin_le (l : list R) :
  forall init : R,
    fold_left fmin l init <= init /\
    Forall (fun x => fold_left fmin l init <= x) l.
Proof.
  induction l as [| x l IH]; intros init; cbn [fold_left].
  - split; [lra | constructor].
  - destruct (IH (fmin init x)) as [Hi Hall].
    destruct (fmin_spec init x) as (H1 & H2 & _).
    split; [lra |]. constructor; [lra | exact Hall].
Qed.




Lemma coord_fold {A} (op : A -> A -> A) (a : nat) (l : list (vec3 A)) :
  forall v : vec3 A,
    coord a (fold_left (vmap2 op) l v)
    = fold_left op (map (coord a) l) (coord a v).
Proof.
  induction l as [| [[w0 w1] w2] l IH]; intros [[v0 v1] v2];
    cbn [fold_left map].
  - reflexivity.
  - rewrite IH. destruct a as [| [| a]]; reflexivity.
Qed.

Lemma coord_vsub (a : nat) (u v : vec3 R) :
  coord a (vsub u v) = coord a u - coord a v.
Proof.
  destruct u as [[u0 u1] u2], v as [[v0 v1] v2], a as [| [| a]];
    reflexivity.
Qed.













(** A zero granularity gives the cast of a quotient that is no number. *)
Lemma noise_dim_axis_zero (extent : R) :
  noise_dim_axis extent 0 = (int64_min + 3)%Z.
Proof.
  unfold noise_dim_axis, is_zero. cbn. rewrite RMicromega.Q2R_0.
  now rewrite (proj2 (Rleb_true 0 0) (Rle_refl 0)).
Qed.




(** With a zero granularity every axis of the shape is negative and the
    draw of the noise raises: no division error is ever reported. *)
Lemma zero_granularity_refused (coords : tensor R) (magnitude : R)
  (st : state R) :
  coords <> [] ->
  elastic_distortion coords 0 magnitude st = Err ValueError.
Proof.
  intros Hne. destruct coords as [| v t]; [contradiction |].
  unfold elastic_distortion, bind, lift.
  destruct (np_min (v :: t)) as [m |] eqn:Hm; [| discriminate].
  unfold noise_dim.
  destruct (np_max (sub_row (v :: t) m)) as [[[e0 e1] e2] |] eqn:He;
    [| discriminate].
  cbn [res_bind]. rewrite !noise_dim_axis_zero. reflexivity.
Qed.

End NoiseGrid.


(** On rationals: three coincident points give a 3 x 3 x 3 grid; at the
    float32 granularity [0.2] an extent of 3 gives 17 nodes and an extent
    of 1 gives 7; with a zero granularity the pass raises the ValueError
    of the draw. *)
Example noise_dim_coincident :
  noise_dim [(1, 2, 3); (1, 2, 3); (1, 2, 3)]%Q (1, 2, 3)%Q
    (float32 (2 # 10))
  = Ok (3, 3, 3)%Z /\
  noise_dim [(1, 2, 3); (1, 5, 3)]%Q (1, 2, 3)%Q (float32 (2 # 10))
  = Ok (3, 17, 3)%Z /\
  noise_dim [(0, 0, 0); (1, 0, 0)]%Q (0, 0, 0)%Q (float32 (2 # 10))
  = Ok (7, 3, 3)%Z /\
  elastic_distortion [(0, 0, 0); (1, 0, 0)]%Q 0%Q (4 # 10)%Q
    (@mk_state Q Random_Q [] [])
  = Err ValueError.
Proof. repeat split; vm_compute; reflexivity. Qed.

(** ** Elastic distortion over the reals *)

Section ElasticReal.
Context {RS : RandomSource R}.
Local Open Scope R_scope.









Lemma f_of_nat_INR (n : nat) : @f_of_nat R _ n = INR n.
Proof.
  unfold f_of_nat, f_of_Z. cbn. unfold Q2R. cbn.
  rewrite INR_IZR_INZ. field.
Qed.

Lemma f_of_Z_IZR (z : Z) : @f_of_Z R _ z = IZR z.
Proof. unfold f_of_Z. cbn. unfold Q2R. cbn. field. Qed.

Lemma linspace_length (a b : R) (n : nat) : length (linspace a b n) = n.
Proof. unfold linspace. now rewrite length_map, length_seq. Qed.

(** The nodes of [linspace] are evenly spaced from [a] to [b]. *)
Lemma linspace_node (a b : R) (n i : nat) :
  (2 <= n)%nat -> (i < n)%nat ->
  node (linspace a b n) i = a + INR i * ((b - a) / INR (n - 1)).
Proof.
  intros Hn Hi. unfold node, linspace.
  set (fn := fun i0 : nat => if (Nat.eqb i0 (n - 1) && Nat.ltb 1 n)%bool
                             then b
                             else fadd (fmul (f_of_nat i0)
                                          (fdiv (fsub b a) (f_of_nat (n - 1))))
                                       a).
  rewrite (nth_indep _ (f_lit 0%Q) (fn 0%nat))
    by (now rewrite length_map, length_seq).
  rewrite (map_nth fn), seq_nth by assumption. cbn [Nat.add]. subst fn.
  cbv beta.
  assert (Hd : INR (n - 1) <> 0).
  { apply not_0_INR. lia. }
  destruct (Nat.eqb_spec i (n - 1)) as [-> | Hne]; cbn [andb].
  - destruct (Nat.ltb_spec 1 n); [| lia]. field. exact Hd.
  - rewrite !f_of_nat_INR. cbn. ring.
Qed.










End ElasticReal.



(** On rationals: the interpolant returns the field at a node, the mean of
    two neighbouring nodes half way between them, and zero outside the
    axes. *)
Example interp_on_grid :
  let values :=
    mk_ndarray (5, 3, 3, 3) (fst (scripted_randn (5, 3, 3) [1%Q])) in
  let ax := axes (0, 0, 0)%Q (1 # 4)%Q (5, 3, 3)%Z in
  ax = ([-1 # 4; 0; 1 # 4; 1 # 2; 3 # 4], [-1 # 4; 0; 1 # 4],
        [-1 # 4; 0; 1 # 4])%Q /\
  (data values 1 1 1 0, data values 2 1 1 0) = (-1, 0)%Q /\
  interp ax values (0, 0, 0)%Q = (-1, 0, 1)%Q /\
  interp ax values (1 # 8, 0, 0)%Q = (-1 # 2, 1 # 2, 3 # 2)%Q /\
  interp ax values (7 # 8, 0, 0)%Q = (0, 0, 0)%Q.
Proof. vm_compute. repeat split. Qed.

(** A training item of the small [ScanNetV2] dataset, elastic distortion
    and crop included, and a test item of the small [S3DIS] dataset. *)
Lemma sample_rows_aligned_witness :
  (exists s st',
      ScanNetV2.__getitem__ (scannet true 3) 0
        (start [1 # 4; 1 # 2; 1 # 100; 1 # 3; 1 # 2; 1 # 10; 1 # 10; 1 # 10]%Q)
      = Ok (s, st') /\
      length (sample_p s) = 3 /\
      length (sample_f s) = length (sample_p s) /\
      length (sample_y s) = length (sample_p s) /\
      length (sample_rgb s) = length (sample_p s)) /\
  (exists s st',
      S3DIS.__getitem__ (s3dis false 24000) 0 (start []) = Ok (s, st') /\
      length (sample_f s) = length (sample_p s) /\
      length (sample_y s) = length (sample_p s) /\
      length (sample_rgb s) = length (sample_p s)).
Proof.
  split.
  - assert (Hrun : exists r,
               ScanNetV2.__getitem__ (scannet true 3) 0
                 (start [1 # 4; 1 # 2; 1 # 100; 1 # 3; 1 # 2; 1 # 10;
                         1 # 10; 1 # 10]%Q) = Ok r
               /\ length (sample_p (fst r)) = 3).
    { eexists. vm_compute. split; reflexivity. }
    destruct Hrun as [[s st'] [Hrun Hlen]].
    exists s, st'. split; [exact Hrun |]. split; [exact Hlen |].
    destruct (proj1 sample_rows_aligned _ _ _ _ _ Hrun) as (Hf & Hy & Hc & _).
    repeat split; assumption.
  - assert (Hrun : exists r,
               S3DIS.__getitem__ (s3dis false 24000) 0 (start []) = Ok r).
    { eexists. vm_compute. reflexivity. }
    destruct Hrun as [[s st'] Hrun].
    exists s, st'. split; [exact Hrun |].
    destruct (proj2 sample_rows_aligned _ _ _ _ _ Hrun) as (Hf & Hy & Hc & _).
    repeat split; assumption.
Defined.

(** Two training runs that differ only in the draws return different
    samples: the training path does read the random source. *)
Example training_reads_random_source :
  exists s1 s2 st1 st2,
    S3DIS.__getitem__ (s3dis true 3) 0
      (start [1 # 4; 1 # 2; 1 # 3; 1 # 2; 1 # 10; 1 # 10; 1 # 10]%Q)
    = Ok (s1, st1) /\
    S3DIS.__getitem__ (s3dis true 3) 0
      (start [3 # 4; 1 # 2; 1 # 3; 1 # 2; 1 # 10; 1 # 10; 1 # 10]%Q)
    = Ok (s2, st2) /\
    sample_p s1 <> sample_p s2.
Proof.
  do 4 eexists. split; [vm_compute; reflexivity |].
  split; [vm_compute; reflexivity |]. cbn. discriminate.
Qed.

(* ================================================================= *)
(** * Part III: further properties *)
(* ================================================================= *)

(** ** Which indices reach a scene *)

Section IndexFacts.
Local Open Scope Z_scope.

Lemma py_index_in_range {A} (l : list A) (i : Z) :
  - len l <= i < len l ->
  exists x,
    py_index l i = Ok x /\
    nth_error l (Z.to_nat (if 0 <=? i then i else len l + i)) = Some x.
Proof.
  intros Hi. unfold py_index, len in *.
  destruct (Z.leb_spec 0 i).
  - destruct (nth_error l (Z.to_nat i)) as [x |] eqn:E.
    + exists x. now split.
    + apply nth_error_None in E. lia.
  - destruct (Z.leb_spec (- Z.of_nat (length l)) i); [| lia].
    destruct (nth_error l (Z.to_nat (Z.of_nat (length l) + i)))
      as [x |] eqn:E.
    + exists x. now split.
    + apply nth_error_None in E. lia.
Qed.

Lemma py_index_out_of_range {A} (l : list A) (i : Z) :
  i < - len l \/ len l <= i -> py_index l i = Err IndexError.
Proof.
  intros Hi. unfold py_index, len in *.
  destruct (Z.leb_spec 0 i).
  - destruct (nth_error l (Z.to_nat i)) as [x |] eqn:E; [| reflexivity].
    assert (Hlt : (Z.to_nat i < length l)%nat)
      by (apply nth_error_Some; congruence).
    lia.
  - destruct (Z.leb_spec (- Z.of_nat (length l)) i); [lia | reflexivity].
Qed.

(** Floor division maps the index range of the dataset onto the index
    range of the store, negative indices included. *)
Lemma floordiv_range (idx loop n : Z) :
  0 < loop -> 0 <= n ->
  (- (n * loop) <= idx < n * loop <-> - n <= idx / loop < n).
Proof.
  intros Hl Hn. split; intros [H1 H2]; split.
  - apply Z.div_le_lower_bound; [lia | nia].
  - apply Z.div_lt_upper_bound; [lia | nia].
  - pose proof (Z.mod_pos_bound idx loop Hl).
    pose proof (Z.div_mod idx loop ltac:(lia)). nia.
  - pose proof (Z.mod_pos_bound idx loop Hl).
    pose proof (Z.div_mod idx loop ltac:(lia)). nia.
Qed.

Lemma floordiv_sign (idx loop : Z) :
  0 < loop -> (0 <=? idx / loop) = (0 <=? idx).
Proof.
  intros Hl.
  destruct (Z.leb_spec 0 idx), (Z.leb_spec 0 (idx / loop)); try reflexivity.
  - pose proof (Z.div_pos idx loop). lia.
  - pose proof (Z.div_lt_upper_bound idx loop 0). lia.
Qed.

(** The lookup of the test enumeration, in closed form. *)
Lemma test_variant_value (loop idx : Z) :
  loop <> 0 ->
  let v := idx mod loop in
  test_variant loop idx
  = Ok (v / 12,
        nth (Z.to_nat ((v mod 12) / 3)) rotations 0%Q,
        nth (Z.to_nat ((v mod 12) mod 3)) scales 0%Q).
Proof.
  intros Hloop v. unfold test_variant.
  change (len rotations * len scales) with 12.
  change (len scales) with 3.
  rewrite (py_mod_ok idx loop Hloop). cbn [res_bind]. fold v.
  rewrite (py_floordiv_ok v 12) by lia. cbn [res_bind].
  rewrite (py_mod_ok v 12) by lia. cbn [res_bind].
  assert (Ha : 0 <= v mod 12 < 12) by (apply Z.mod_pos_bound; lia).
  remember (v mod 12) as a eqn:Hamod. clear Hamod.
  rewrite (py_floordiv_ok a 3) by lia. cbn [res_bind].
  rewrite (py_mod_ok a 3) by lia.
  destruct (small_cases a Ha)
    as [E|[E|[E|[E|[E|[E|[E|[E|[E|[E|[E|E]]]]]]]]]]];
    rewrite E; reflexivity.
Qed.
End IndexFacts.

(** One step of a sample construction: the monad primitives unfolded. *)
Ltac mstep :=
  unfold bind, lift, ret, log, draw; cbn [rng trace res_bind];
  cbv beta iota zeta.

Section IndexRange.
Context {F : Type} {SF : Scalar F} {TF : Trig F} {RS : RandomSource F}
        {CO : Collaborators F}.
Local Open Scope Z_scope.

Lemma scannet_lookup_fails (self : ScanNetV2.dataset) (idx : Z) (e : error)
  (st : state F) :
  ScanNetV2.loop self <> 0 ->
  py_index (ScanNetV2.datas self) (idx / ScanNetV2.loop self) = Err e ->
  ScanNetV2.__getitem__ self idx st = Err e.
Proof.
  intros Hloop He. unfold ScanNetV2.__getitem__, ScanNetV2.get_test_item.
  destruct (negb (ScanNetV2.train self)).
  - rewrite (test_variant_value _ idx Hloop). cbv zeta.
    rewrite (py_floordiv_ok _ _ Hloop). mstep. now rewrite He.
  - rewrite (py_floordiv_ok _ _ Hloop). mstep. now rewrite He.
Qed.

Lemma s3dis_lookup_fails (self : S3DIS.dataset) (idx : Z) (e : error)
  (st : state F) :
  S3DIS.loop self <> 0 ->
  py_index (S3DIS.datas self) (idx / S3DIS.loop self) = Err e ->
  S3DIS.__getitem__ self idx st = Err e.
Proof.
  intros Hloop He. unfold S3DIS.__getitem__, S3DIS.get_test_item.
  destruct (negb (S3DIS.train self)).
  - rewrite (py_mod_ok _ _ Hloop), (py_floordiv_ok _ _ Hloop). mstep.
    now rewrite He.
  - rewrite (py_floordiv_ok _ _ Hloop). mstep. now rewrite He.
Qed.

(** X1. With a positive [loop] and one stored scene per path, as both
    constructors leave the store, an index from [-len(dataset)] up to but
    not including [len(dataset)] reaches the stored scene at position
    [idx // loop], counted from the end for a negative index; any other
    index makes [__getitem__] raise IndexError, in training and in test
    mode; and with [loop = 0] every index raises ZeroDivisionError. *)
Theorem getitem_index_range :
  (forall (self : ScanNetV2.dataset) (idx : Z),
      (ScanNetV2.loop self = 0 ->
       forall st : state F,
         ScanNetV2.__getitem__ self idx st = Err ZeroDivisionError) /\
      (0 < ScanNetV2.loop self ->
       length (ScanNetV2.datas self) = length (ScanNetV2.data_paths self) ->
       let scene_idx := idx / ScanNetV2.loop self in
       (- ScanNetV2.__len__ self <= idx < ScanNetV2.__len__ self ->
        exists scene,
          py_index (ScanNetV2.datas self) scene_idx = Ok scene /\
          nth_error (ScanNetV2.datas self)
            (Z.to_nat (if 0 <=? idx then scene_idx
                       else len (ScanNetV2.datas self) + scene_idx))
          = Some scene) /\
       (idx < - ScanNetV2.__len__ self \/ ScanNetV2.__len__ self <= idx ->
        forall st : state F,
          ScanNetV2.__getitem__ self idx st = Err IndexError))) /\
  (forall (self : S3DIS.dataset) (idx : Z),
      (S3DIS.loop self = 0 ->
       forall st : state F,
         S3DIS.__getitem__ self idx st = Err ZeroDivisionError) /\
      (0 < S3DIS.loop self ->
       length (S3DIS.datas self) = length (S3DIS.data_paths self) ->
       let scene_idx := idx / S3DIS.loop self in
       (- S3DIS.__len__ self <= idx < S3DIS.__len__ self ->
        exists scene,
          py_index (S3DIS.datas self) scene_idx = Ok scene /\
          nth_error (S3DIS.datas self)
            (Z.to_nat (if 0 <=? idx then scene_idx
                       else len (S3DIS.datas self) + scene_idx))
          = Some scene) /\
       (idx < - S3DIS.__len__ self \/ S3DIS.__len__ self <= idx ->
        forall st : state F,
          S3DIS.__getitem__ self idx st = Err IndexError))) /\
  (forall (torch_load : string -> res ScanNetV2.scene)
          (scan_train_list scan_val_list : list string)
          (dataset_dir : string) (loop : Z) (train warmup : bool)
          (voxel_max : Z) (k : list nat) (grid_size : list F) (alpha : F)
          (batch_size : nat) (cam_opts : CameraOptions)
          (self : ScanNetV2.dataset),
      ScanNetV2.__init__ torch_load scan_train_list scan_val_list
        dataset_dir loop train warmup voxel_max k grid_size alpha
        batch_size cam_opts = Ok self ->
      length (ScanNetV2.datas self) = length (ScanNetV2.data_paths self) /\
      ScanNetV2.loop self = loop) /\
  (forall (torch_load : string -> res S3DIS.scene)
          (glob : string -> string -> list string)
          (dataset_dir area : string) (loop : Z) (train warmup : bool)
          (voxel_max : Z) (k : list nat) (grid_size : list F) (alpha : F)
          (batch_size : nat) (cam_opts : CameraOptions)
          (self : S3DIS.dataset),
      S3DIS.__init__ torch_load glob dataset_dir area loop train warmup
        voxel_max k grid_size alpha batch_size cam_opts = Ok self ->
      length (S3DIS.datas self) = length (S3DIS.data_paths self) /\
      S3DIS.loop self = loop).
Proof.
  split; [| split; [| split]].
  - intros self idx. split.
    + intros Hloop st.
      unfold ScanNetV2.__getitem__, ScanNetV2.get_test_item, test_variant,
        py_mod, py_floordiv.
      rewrite Hloop. now destruct (negb (ScanNetV2.train self)).
    + intros Hloop Hlen scene_idx.
      unfold ScanNetV2.__len__. unfold len in *. rewrite <- Hlen.
      pose proof (floordiv_range idx (ScanNetV2.loop self)
                    (Z.of_nat (length (ScanNetV2.datas self))) Hloop
                    ltac:(lia)) as Hr.
      fold scene_idx in Hr. split.
      * intros Hi. apply Hr in Hi.
        destruct (py_index_in_range (ScanNetV2.datas self) scene_idx Hi)
          as (scene & Hp & Hn).
        exists scene. split; [exact Hp |].
        rewrite <- (floordiv_sign idx (ScanNetV2.loop self) Hloop).
        exact Hn.
      * intros Hout st. apply scannet_lookup_fails; [lia |].
        apply py_index_out_of_range. fold scene_idx. unfold len. lia.
  - intros self idx. split.
    + intros Hloop st.
      unfold S3DIS.__getitem__, S3DIS.get_test_item, py_mod, py_floordiv.
      rewrite Hloop. now destruct (negb (S3DIS.train self)).
    + intros Hloop Hlen scene_idx.
      unfold S3DIS.__len__. unfold len in *. rewrite <- Hlen.
      pose proof (floordiv_range idx (S3DIS.loop self)
                    (Z.of_nat (length (S3DIS.datas self))) Hloop
                    ltac:(lia)) as Hr.
      fold scene_idx in Hr. split.
      * intros Hi. apply Hr in Hi.
        destruct (py_index_in_range (S3DIS.datas self) scene_idx Hi)
          as (scene & Hp & Hn).
        exists scene. split; [exact Hp |].
        rewrite <- (floordiv_sign idx (S3DIS.loop self) Hloop).
        exact Hn.
      * intros Hout st. apply s3dis_lookup_fails; [lia |].
        apply py_index_out_of_range. fold scene_idx. unfold len. lia.
  - intros torch_load tl vl dir loop train warmup vm k gs al bs co self Hinit.
    unfold ScanNetV2.__init__ in Hinit.
    destruct (load_store torch_load ScanNetV2.rows
                (ScanNetV2.split_paths tl vl dir train) train warmup)
      as [[ps ds] |] eqn:Els; cbn in Hinit; [| discriminate].
    inversion Hinit; subst. cbn.
    apply load_store_spec in Els. destruct Els as (_ & _ & Hall).
    split; [symmetry; eapply Forall2_length; eassumption | reflexivity].
  - intros torch_load glob dir area loop train warmup vm k gs al bs co self
      Hinit.
    unfold S3DIS.__init__ in Hinit.
    destruct (load_store torch_load S3DIS.rows
                (glob dir ("[" ++ area ++ "]*.pt")%string) train warmup)
      as [[ps ds] |] eqn:Els; cbn in Hinit; [| discriminate].
    inversion Hinit; subst. cbn.
    apply load_store_spec in Els. destruct Els as (_ & _ & Hall).
    split; [symmetry; eapply Forall2_length; eassumption | reflexivity].
Qed.
End IndexRange.

(** Index 7 of the small [ScanNetV2] dataset, and index -1, the last
    variant of its last scene. *)
Lemma getitem_index_range_witness :
  (exists scene,
      py_index (ScanNetV2.datas (scannet false 24000))
        (7 / ScanNetV2.loop (scannet false 24000)) = Ok scene /\
      nth_error (ScanNetV2.datas (scannet false 24000)) 0 = Some scene) /\
  (exists scene,
      py_index (ScanNetV2.datas (scannet false 24000))
        (-1 / ScanNetV2.loop (scannet false 24000)) = Ok scene /\
      nth_error (ScanNetV2.datas (scannet false 24000)) 0 = Some scene).
Proof.
  split.
  - apply (proj1 (proj2 (proj1 (@getitem_index_range Q Scalar_Q
                                  Trig_Q_taylor Random_Q Collaborators_Q)
                           (scannet false 24000) 7%Z)
                    ltac:(reflexivity) eq_refl)).
    cbn. lia.
  - apply (proj1 (proj2 (proj1 (@getitem_index_range Q Scalar_Q
                                  Trig_Q_taylor Random_Q Collaborators_Q)
                           (scannet false 24000) (-1)%Z)
                    ltac:(reflexivity) eq_refl)).
    cbn. lia.
Defined.

(** An index one past the end, and a dataset built with [loop = 0]. *)
Example getitem_out_of_range :
  ScanNetV2.__getitem__ (scannet false 24000) 12 (start []) = Err IndexError /\
  S3DIS.__getitem__
    (@S3DIS.mk_dataset Q Random_Q Collaborators_Q
       ["Area_5_office_1.pt"%string] 0 false false 24000
       [24; 24; 24; 24] [8 # 100; 16 # 100; 32 # 100]%Q 0%Q 8 tt [office])
    0 (start [])
  = Err ZeroDivisionError.
Proof. split; vm_compute; reflexivity. Qed.

(** ** The warm-up store *)

Section WarmupFacts.
Context {Scene : Type} (torch_load : string -> res Scene)
        (rows : Scene -> nat).

(** The scan keeps the selection it started from when no scene beats the
    running maximum; otherwise it ends on the first scene of the largest
    size. *)
Lemma scan_max_spec (paths : list string) :
  forall (max_n : nat) (selected sel : string),
    scan_max torch_load rows paths max_n selected = Ok sel ->
    (sel = selected /\ Forall (at_most torch_load rows max_n) paths) \/
    (exists l1 l2 s,
        paths = l1 ++ sel :: l2 /\ torch_load sel = Ok s /\
        max_n < rows s /\
        Forall (fewer torch_load rows (rows s)) l1 /\
        Forall (at_most torch_load rows (rows s)) l2).
Proof.
  induction paths as [| data rest IH]; intros max_n selected sel Hs;
    cbn [scan_max] in Hs.
  - inversion Hs. left. split; [reflexivity | constructor].
  - destruct (torch_load data) as [s |] eqn:El; cbn [res_bind] in Hs;
      [| discriminate].
    revert Hs. destruct (Nat.ltb_spec max_n (rows s)) as [Hlt | Hge];
      intros Hs.
    + right. apply IH in Hs.
      destruct Hs as [[-> Hall] | (l1 & l2 & s' & -> & Hl & Hm & H1 & H2)].
      * exists [], rest, s.
        split; [reflexivity |]. split; [assumption |]. split; [assumption |].
        split; [constructor | assumption].
      * exists (data :: l1), l2, s'.
        split; [reflexivity |]. split; [assumption |]. split; [lia |].
        split; [| assumption].
        constructor; [| assumption]. exists s. split; [assumption | lia].
    + apply IH in Hs.
      destruct Hs as [[-> Hall] | (l1 & l2 & s' & -> & Hl & Hm & H1 & H2)].
      * left. split; [reflexivity |]. constructor; [| assumption].
        exists s. now split.
      * right. exists (data :: l1), l2, s'.
        split; [reflexivity |]. split; [assumption |]. split; [assumption |].
        split; [| assumption].
        constructor; [| assumption]. exists s. split; [assumption | lia].
Qed.

Lemma load_store_warmup (paths paths' : list string) (scenes : list Scene) :
  load_store torch_load rows paths true true = Ok (paths', scenes) ->
  exists l1 l2 sel s,
    paths = l1 ++ sel :: l2 /\ torch_load sel = Ok s /\
    paths' = [sel] /\ scenes = [s] /\
    Forall (fewer torch_load rows (rows s)) l1 /\
    Forall (at_most torch_load rows (rows s)) l2.
Proof.
  destruct paths as [| first rest]; [discriminate |].
  unfold load_store. cbn [andb].
  destruct (scan_max torch_load rows (first :: rest) 0 first)
    as [sel |] eqn:Es; cbn [res_bind]; [| discriminate].
  cbn [load_all].
  destruct (torch_load sel) as [s |] eqn:El; cbn [res_bind]; [| discriminate].
  intros E. inversion E; subst. clear E.
  apply scan_max_spec in Es.
  destruct Es as [[-> Hall] | (l1 & l2 & s' & Hp & Hl & _ & H1 & H2)].
  - exists [], rest, first, s.
    split; [reflexivity |]. split; [assumption |].
    split; [reflexivity |]. split; [reflexivity |].
    split; [constructor |].
    inversion Hall as [| ? ? [s0 [Hs0 Hr0]] Hrest]; subst.
    assert (s0 = s) by congruence. subst s0.
    eapply Forall_impl; [| exact Hrest].
    intros p (sp & Hsp & Hrp). exists sp. split; [assumption | lia].
  - assert (s' = s) by congruence. subst s'.
    exists l1, l2, sel, s.
    split; [assumption |]. split; [assumption |].
    split; [reflexivity |]. split; [reflexivity |]. now split.
Qed.
End WarmupFacts.

Section WarmupInit.
Context {F : Type} {RS : RandomSource F} {CO : Collaborators F}.

(** X2. A dataset constructed for warm-up training holds exactly one
    scene: among the listed files, the first one with the largest number
    of points; every file listed before it has strictly fewer points,
    every file after it at most as many, all of them load, and the length
    of the dataset is [loop]. *)
Theorem warmup_keeps_largest_scene :
  (forall (torch_load : string -> res ScanNetV2.scene)
          (scan_train_list scan_val_list : list string)
          (dataset_dir : string) (loop : Z) (voxel_max : Z) (k : list nat)
          (grid_size : list F) (alpha : F) (batch_size : nat)
          (cam_opts : CameraOptions) (self : ScanNetV2.dataset),
      ScanNetV2.__init__ torch_load scan_train_list scan_val_list
        dataset_dir loop true true voxel_max k grid_size alpha batch_size
        cam_opts = Ok self ->
      exists before after selected s,
        ScanNetV2.split_paths scan_train_list scan_val_list dataset_dir true
        = before ++ selected :: after /\
        torch_load selected = Ok s /\
        ScanNetV2.data_paths self = [selected] /\
        ScanNetV2.datas self = [s] /\
        ScanNetV2.__len__ self = loop /\
        Forall (fewer torch_load ScanNetV2.rows (ScanNetV2.rows s)) before /\
        Forall (at_most torch_load ScanNetV2.rows (ScanNetV2.rows s))
          after) /\
  (forall (torch_load : string -> res S3DIS.scene)
          (glob : string -> string -> list string)
          (dataset_dir area : string) (loop : Z) (voxel_max : Z)
          (k : list nat) (grid_size : list F) (alpha : F) (batch_size : nat)
          (cam_opts : CameraOptions) (self : S3DIS.dataset),
      S3DIS.__init__ torch_load glob dataset_dir area loop true true
        voxel_max k grid_size alpha batch_size cam_opts = Ok self ->
      exists before after selected s,
        glob dataset_dir ("[" ++ area ++ "]*.pt")%string
        = before ++ selected :: after /\
        torch_load selected = Ok s /\
        S3DIS.data_paths self = [selected] /\
        S3DIS.datas self = [s] /\
        S3DIS.__len__ self = loop /\
        Forall (fewer torch_load S3DIS.rows (S3DIS.rows s)) before /\
        Forall (at_most torch_load S3DIS.rows (S3DIS.rows s)) after).
Proof.
  split.
  - intros torch_load tl vl dir loop vm k gs al bs co self Hinit.
    unfold ScanNetV2.__init__ in Hinit.
    destruct (load_store torch_load ScanNetV2.rows
                (ScanNetV2.split_paths tl vl dir true) true true)
      as [[ps ds] |] eqn:Els; cbn in Hinit; [| discriminate].
    inversion Hinit; subst. clear Hinit.
    apply load_store_warmup in Els.
    destruct Els as (l1 & l2 & sel & s & Hp & Hl & -> & -> & H1 & H2).
    exists l1, l2, sel, s.
    split; [assumption |]. split; [assumption |].
    split; [reflexivity |]. split; [reflexivity |].
    split; [| now split].
    unfold ScanNetV2.__len__, len.
    cbn [ScanNetV2.data_paths ScanNetV2.loop length]. lia.
  - intros torch_load glob dir area loop vm k gs al bs co self Hinit.
    unfold S3DIS.__init__ in Hinit.
    destruct (load_store torch_load S3DIS.rows
                (glob dir ("[" ++ area ++ "]*.pt")%string) true true)
      as [[ps ds] |] eqn:Els; cbn in Hinit; [| discriminate].
    inversion Hinit; subst. clear Hinit.
    apply load_store_warmup in Els.
    destruct Els as (l1 & l2 & sel & s & Hp & Hl & -> & -> & H1 & H2).
    exists l1, l2, sel, s.
    split; [assumption |]. split; [assumption |].
    split; [reflexivity |]. split; [reflexivity |].
    split; [| now split].
    unfold S3DIS.__len__, len. cbn [S3DIS.data_paths S3DIS.loop length]. lia.
Qed.
End WarmupInit.

(** Three files of two, six and six points: the second one is kept. *)
Lemma warmup_keeps_largest_scene_witness :
  exists before after selected s,
    ScanNetV2.split_paths
      ["scene0000_00"; "scene0011_00"; "scene0011_01"]%string [] "data" true
    = before ++ selected :: after /\
    load_from [("data/scene0000_00.pt"%string, ragged_room);
               ("data/scene0011_00.pt"%string, room);
               ("data/scene0011_01.pt"%string, room)] selected = Ok s /\
    selected = "data/scene0011_00.pt"%string /\
    ScanNetV2.rows s = 6.
Proof.
  destruct (proj1 (@warmup_keeps_largest_scene Q Random_Q Collaborators_Q)
    (load_from [("data/scene0000_00.pt"%string, ragged_room);
                ("data/scene0011_00.pt"%string, room);
                ("data/scene0011_01.pt"%string, room)])
    ["scene0000_00"; "scene0011_00"; "scene0011_01"]%string []
    "data"%string 12%Z 24000%Z
    [24; 24; 24; 24; 24] [4 # 100; 8 # 100; 16 # 100; 32 # 100]%Q 0%Q 8 tt
    _ eq_refl) as (b & a & sel & s & Hp & Hl & Hd & Hs & _).
  exists b, a, sel, s.
  cbn in Hd, Hs. inversion Hd; subst. inversion Hs; subst.
  repeat split; assumption || reflexivity.
Defined.

(** ** The test enumeration covers its catalogue *)

Section VariantCoverage.
Local Open Scope Z_scope.

(** The rotation and the scale determine the joint index. *)
Lemma variant_joint_injective (a b : Z) :
  0 <= a < 12 -> 0 <= b < 12 ->
  nth (Z.to_nat (a / 3)) rotations 0%Q = nth (Z.to_nat (b / 3)) rotations 0%Q ->
  nth (Z.to_nat (a mod 3)) scales 0%Q = nth (Z.to_nat (b mod 3)) scales 0%Q ->
  a = b.
Proof.
  intros Ha Hb.
  destruct (small_cases a Ha)
    as [E|[E|[E|[E|[E|[E|[E|[E|[E|[E|[E|E]]]]]]]]]]]; rewrite E;
  destruct (small_cases b Hb)
    as [E'|[E'|[E'|[E'|[E'|[E'|[E'|[E'|[E'|[E'|[E'|E']]]]]]]]]]]; rewrite E';
  cbn; intros H1 H2; try reflexivity; discriminate.
Qed.

(** X3. Within one period of [loop] indices, distinct variants get
    distinct combinations of subsampling offset, rotation and scale; the
    enumeration repeats with period [loop]; and when [loop] is [picks]
    times the number of rotation and scale pairs, every combination of an
    offset below [picks], a rotation and a scale of the catalogue is the
    combination of some variant. *)
Theorem test_variants_cover (loop : Z) :
  0 < loop ->
  (forall v w : Z,
      0 <= v < loop -> 0 <= w < loop ->
      test_variant loop v = test_variant loop w -> v = w) /\
  (forall idx : Z, test_variant loop (idx + loop) = test_variant loop idx) /\
  (forall picks : Z,
      loop = picks * (len rotations * len scales) ->
      forall (pick : Z) (ri si : nat) (rot sc : Q),
        0 <= pick < picks ->
        nth_error rotations ri = Some rot ->
        nth_error scales si = Some sc ->
        exists v, 0 <= v < loop /\ test_variant loop v = Ok (pick, rot, sc)).
Proof.
  intros Hloop. split; [| split].
  - intros v w Hv Hw.
    rewrite !test_variant_value by lia. cbv zeta.
    rewrite (Z.mod_small v loop), (Z.mod_small w loop) by assumption.
    intros E. inversion E as [[Hp Hr Hs]].
    apply variant_joint_injective in Hr;
      [| apply Z.mod_pos_bound; lia | apply Z.mod_pos_bound; lia | exact Hs].
    pose proof (Z.div_mod v 12 ltac:(lia)).
    pose proof (Z.div_mod w 12 ltac:(lia)). lia.
  - intros idx. rewrite !test_variant_value by lia. cbv zeta.
    replace (idx + loop) with (idx + 1 * loop) by lia.
    now rewrite Z.mod_add by lia.
  - intros picks Hp pick ri si rot sc Hpick Hr Hs.
    change (len rotations * len scales) with 12 in Hp.
    assert (Hri : (ri < 4)%nat)
      by (change 4%nat with (length rotations); apply nth_error_Some;
          congruence).
    assert (Hsi : (si < 3)%nat)
      by (change 3%nat with (length scales); apply nth_error_Some;
          congruence).
    set (a := 3 * Z.of_nat ri + Z.of_nat si).
    exists (12 * pick + a).
    assert (Ha : 0 <= a < 12) by (subst a; lia).
    split; [lia |].
    rewrite test_variant_value by lia. cbv zeta.
    rewrite (Z.mod_small (12 * pick + a)) by lia.
    assert (E1 : (12 * pick + a) / 12 = pick).
    { symmetry. apply (Z.div_unique _ 12 pick a); lia. }
    assert (E2 : (12 * pick + a) mod 12 = a).
    { symmetry. apply (Z.mod_unique _ 12 pick a); lia. }
    assert (E3 : a / 3 = Z.of_nat ri).
    { symmetry. apply (Z.div_unique _ 3 _ (Z.of_nat si)); subst a; lia. }
    assert (E4 : a mod 3 = Z.of_nat si).
    { symmetry. apply (Z.mod_unique _ 3 (Z.of_nat ri)); subst a; lia. }
    rewrite E1, E2, E3, E4, !Nat2Z.id.
    rewrite (nth_error_nth _ _ _ Hr), (nth_error_nth _ _ _ Hs). reflexivity.
Qed.
End VariantCoverage.

(** With [loop = 24], two subsampling offsets: the second offset with the
    rotation by three half turns of pi and the scale 1.05 is variant 23. *)
Lemma test_variants_cover_witness :
  exists v : Z,
    (0 <= v < 24)%Z /\
    test_variant 24 v = Ok (1%Z, (3 # 2)%Q, (105 # 100)%Q).
Proof.
  apply (proj2 (proj2 (test_variants_cover 24 ltac:(lia))) 2%Z eq_refl
           1%Z 3 2 (3 # 2)%Q (105 # 100)%Q ltac:(lia) eq_refl eq_refl).
Defined.

(** ** The size and the layout of a sample *)

Section SampleSize.
Context {F : Type} {SF : Scalar F} {TF : Trig F} {RS : RandomSource F}
        {CO : Collaborators F}.

(** The crop never returns more than [voxel_max] points. *)
Lemma crop_bound (voxel_max : Z) (xyz xyz' : tensor F)
  (indices indices' : list nat) (st st' : state F) :
  (0 <= voxel_max)%Z ->
  crop voxel_max xyz indices st = Ok ((xyz', indices'), st') ->
  (len xyz' <= voxel_max)%Z.
Proof.
  intros H0. unfold crop.
  destruct (Z.gtb_spec (len xyz) voxel_max) as [Hgt | Hle]; intros Hc.
  - minv.
    match goal with
    | H : gather xyz (crop_condition voxel_max xyz ?pt) = Ok _ |- _ =>
        apply gather_length in H;
        destruct (crop_condition_spec voxel_max xyz pt H0 ltac:(lia))
          as (Hl & _)
    end.
    unfold len in *. lia.
  - minv. lia.
Qed.

(** X4. With a nonnegative [voxel_max], a training sample of either
    dataset never holds more than [voxel_max] points. *)
Theorem training_sample_bounded :
  (forall (self : ScanNetV2.dataset) (idx : Z) (st st' : state F)
          (s : Sample F CamPoints),
      ScanNetV2.train self = true ->
      (0 <= ScanNetV2.voxel_max self)%Z ->
      ScanNetV2.__getitem__ self idx st = Ok (s, st') ->
      (len (sample_p s) <= ScanNetV2.voxel_max self)%Z) /\
  (forall (self : S3DIS.dataset) (idx : Z) (st st' : state F)
          (s : Sample F CamPoints),
      S3DIS.train self = true ->
      (0 <= S3DIS.voxel_max self)%Z ->
      S3DIS.__getitem__ self idx st = Ok (s, st') ->
      (len (sample_p s) <= S3DIS.voxel_max self)%Z).
Proof.
  split; intros self idx st st' s Ht H0 Hg.
  - unfold ScanNetV2.__getitem__ in Hg. rewrite Ht in Hg. cbn [negb] in Hg.
    minv.
    match goal with
    | H : crop _ _ _ _ = Ok _ |- _ => exact (crop_bound _ _ _ _ _ _ _ H0 H)
    end.
  - unfold S3DIS.__getitem__ in Hg. rewrite Ht in Hg. cbn [negb] in Hg.
    minv.
    match goal with
    | H : crop _ _ _ _ = Ok _ |- _ => exact (crop_bound _ _ _ _ _ _ _ H0 H)
    end.
Qed.

(** Row by row through a concatenation along the feature axis. *)
Lemma cat3_rows {A B C D} (f : A -> B -> C -> D)
  (P : A -> B -> C -> D -> Prop) :
  (forall x y z, P x y z (f x y z)) ->
  forall (a : list A) (b : list B) (c : list C) (r : list D),
    cat3 f a b c = Ok r ->
    forall i row,
      nth_error r i = Some row ->
      exists x y z,
        nth_error a i = Some x /\ nth_error b i = Some y /\
        nth_error c i = Some z /\ P x y z row.
Proof.
  intros HP. induction a as [| x a IH]; intros [| y b] [| z c] r Hc;
    cbn in Hc; try discriminate.
  - inversion Hc. intros [| i] row Hr; discriminate.
  - destruct (cat3 f a b c) as [r' |] eqn:E; cbn in Hc; [| discriminate].
    inversion Hc; subst. intros [| i] row Hr; cbn in Hr.
    + inversion Hr; subst. exists x, y, z. repeat split. apply HP.
    + destruct (IH b c r' E i row Hr) as (x' & y' & z' & ? & ? & ? & ?).
      exists x', y', z'. now repeat split.
Qed.

Lemma cat2_rows {A B C} (f : A -> B -> C) (P : A -> B -> C -> Prop) :
  (forall x y, P x y (f x y)) ->
  forall (a : list A) (b : list B) (r : list C),
    cat2 f a b = Ok r ->
    forall i row,
      nth_error r i = Some row ->
      exists x y,
        nth_error a i = Some x /\ nth_error b i = Some y /\ P x y row.
Proof.
  intros HP. induction a as [| x a IH]; intros [| y b] r Hc;
    cbn in Hc; try discriminate.
  - inversion Hc. intros [| i] row Hr; discriminate.
  - destruct (cat2 f a b) as [r' |] eqn:E; cbn in Hc; [| discriminate].
    inversion Hc; subst. intros [| i] row Hr; cbn in Hr.
    + inversion Hr; subst. exists x, y. repeat split. apply HP.
    + destruct (IH b r' E i row Hr) as (x' & y' & ? & ? & ?).
      exists x', y'. now repeat split.
Qed.

(** X5. Every feature row of a [ScanNetV2] sample has the seven channels
    the model configuration declares, every feature row of an [S3DIS]
    sample has four, and in both the fourth channel is the height of the
    position in the same row of the sample. At test time the first three
    channels are the raw colour of the row times [1 / 250]. *)
Theorem feature_rows_layout :
  (forall (self : ScanNetV2.dataset) (idx : Z) (st st' : state F)
          (s : Sample F CamPoints) (i : nat) (row : list F),
      ScanNetV2.__getitem__ self idx st = Ok (s, st') ->
      nth_error (sample_f s) i = Some row ->
      length row = ScanNetV2Config.in_channels /\
      exists pt,
        nth_error (sample_p s) i = Some pt /\
        nth_error row 3 = Some (coord 2 pt)) /\
  (forall (self : S3DIS.dataset) (idx : Z) (st st' : state F)
          (s : Sample F CamPoints) (i : nat) (row : list F),
      S3DIS.__getitem__ self idx st = Ok (s, st') ->
      nth_error (sample_f s) i = Some row ->
      length row = 4 /\
      exists pt,
        nth_error (sample_p s) i = Some pt /\
        nth_error row 3 = Some (coord 2 pt)) /\
  (forall (self : ScanNetV2.dataset) (idx : Z) (st st' : state F)
          (s : Sample F CamPoints) (i : nat) (row : list F),
      ScanNetV2.get_test_item self idx st = Ok (s, st') ->
      nth_error (sample_f s) i = Some row ->
      exists c,
        nth_error (sample_rgb s) i = Some c /\
        firstn 3 row
        = [fmul (coord 0 c) (fdiv (f_lit 1%Q) (f_lit 250%Q));
           fmul (coord 1 c) (fdiv (f_lit 1%Q) (f_lit 250%Q));
           fmul (coord 2 c) (fdiv (f_lit 1%Q) (f_lit 250%Q))]) /\
  (forall (self : S3DIS.dataset) (idx : Z) (st st' : state F)
          (s : Sample F CamPoints) (i : nat) (row : list F),
      S3DIS.get_test_item self idx st = Ok (s, st') ->
      nth_error (sample_f s) i = Some row ->
      exists c,
        nth_error (sample_rgb s) i = Some c /\
        firstn 3 row
        = [fmul (coord 0 c) (fdiv (f_lit 1%Q) (f_lit 250%Q));
           fmul (coord 1 c) (fdiv (f_lit 1%Q) (f_lit 250%Q));
           fmul (coord 2 c) (fdiv (f_lit 1%Q) (f_lit 250%Q))]).
Proof.
  assert (H7 : forall (c p n : vec3 F),
             length (feature_row7 c p n) = 7 /\
             nth_error (feature_row7 c p n) 3 = Some (coord 2 p)).
  { intros [[c0 c1] c2] [[p0 p1] p2] [[n0 n1] n2]. now split. }
  assert (H4 : forall (c p : vec3 F),
             length (feature_row4 c p) = 4 /\
             nth_error (feature_row4 c p) 3 = Some (coord 2 p)).
  { intros [[c0 c1] c2] [[p0 p1] p2]. now split. }
  split; [| split; [| split]]; intros self idx st st' s i row Hg Hrow.
  - unfold ScanNetV2.__getitem__ in Hg.
    destruct (negb (ScanNetV2.train self));
      [unfold ScanNetV2.get_test_item in Hg |]; minv; cbn in Hrow |- *;
      match goal with
      | H : cat3 _ _ _ _ = Ok _ |- _ =>
          destruct (cat3_rows feature_row7
                      (fun c p n r => length r = 7 /\
                                      nth_error r 3 = Some (coord 2 p))
                      H7 _ _ _ _ H i row Hrow)
            as (c & pt & n & _ & Hp & _ & Hl & Hh)
      end;
      (split; [exact Hl | exists pt; now split]).
  - unfold S3DIS.__getitem__ in Hg.
    destruct (negb (S3DIS.train self));
      [unfold S3DIS.get_test_item in Hg |]; minv; cbn in Hrow |- *;
      match goal with
      | H : cat2 _ _ _ = Ok _ |- _ =>
          destruct (cat2_rows feature_row4
                      (fun c p r => length r = 4 /\
                                    nth_error r 3 = Some (coord 2 p))
                      H4 _ _ _ H i row Hrow)
            as (c & pt & _ & Hp & Hl & Hh)
      end;
      (split; [exact Hl | exists pt; now split]).
  - unfold ScanNetV2.get_test_item in Hg. minv. cbn in Hrow |- *.
    match goal with
    | H : color_rescale _ _ = Ok _ |- _ =>
        apply color_rescale_inv in H; destruct H as [-> _]
    end.
    match goal with
    | H : cat3 _ _ _ _ = Ok _ |- _ =>
        destruct (cat3_rows feature_row7
                    (fun c p n r =>
                       firstn 3 r = [coord 0 c; coord 1 c; coord 2 c])
                    ltac:(intros [[? ?] ?] [[? ?] ?] [[? ?] ?]; reflexivity)
                    _ _ _ _ H i row Hrow)
          as (c & pt & n & Hc & _ & _ & Hf)
    end.
    unfold mul_scalar in Hc. rewrite nth_error_map in Hc.
    match type of Hc with
    | context [nth_error ?l i] =>
        destruct (nth_error l i) as [[[c0 c1] c2] |] eqn:Ec; [| discriminate]
    end.
    inversion Hc; subst. eexists. split; [reflexivity |]. exact Hf.
  - unfold S3DIS.get_test_item in Hg. minv. cbn in Hrow |- *.
    match goal with
    | H : color_rescale _ _ = Ok _ |- _ =>
        apply color_rescale_inv in H; destruct H as [-> _]
    end.
    match goal with
    | H : cat2 _ _ _ = Ok _ |- _ =>
        destruct (cat2_rows feature_row4
                    (fun c p r =>
                       firstn 3 r = [coord 0 c; coord 1 c; coord 2 c])
                    ltac:(intros [[? ?] ?] [[? ?] ?]; reflexivity)
                    _ _ _ H i row Hrow)
          as (c & pt & Hc & _ & Hf)
    end.
    unfold mul_scalar in Hc. rewrite nth_error_map in Hc.
    match type of Hc with
    | context [nth_error ?l i] =>
        destruct (nth_error l i) as [[[c0 c1] c2] |] eqn:Ec; [| discriminate]
    end.
    inversion Hc; subst. eexists. split; [reflexivity |]. exact Hf.
Qed.
End SampleSize.

(** A training item of the small [ScanNetV2] dataset cropped to three
    points. *)
Lemma training_sample_bounded_witness :
  exists s st',
    ScanNetV2.__getitem__ (scannet true 3) 0
      (start [1 # 4; 1 # 2; 1 # 100; 1 # 3; 1 # 2; 1 # 10; 1 # 10; 1 # 10]%Q)
    = Ok (s, st') /\
    (len (sample_p s) <= 3)%Z.
Proof.
  assert (Hrun : exists r,
             ScanNetV2.__getitem__ (scannet true 3) 0
               (start [1 # 4; 1 # 2; 1 # 100; 1 # 3; 1 # 2; 1 # 10;
                       1 # 10; 1 # 10]%Q) = Ok r).
  { eexists. vm_compute. reflexivity. }
  destruct Hrun as [[s st'] Hrun].
  exists s, st'. split; [exact Hrun |].
  exact (proj1 (@training_sample_bounded Q Scalar_Q Trig_Q_taylor Random_Q
                  Collaborators_Q)
           (scannet true 3) 0%Z _ _ s eq_refl ltac:(cbn; lia) Hrun).
Defined.

(** The first feature row of a test item of the small [ScanNetV2]
    dataset. *)
Lemma feature_rows_layout_witness :
  exists s st' row,
    ScanNetV2.__getitem__ (scannet false 24000) 7 (start []) = Ok (s, st') /\
    nth_error (sample_f s) 0 = Some row /\
    length row = ScanNetV2Config.in_channels /\
    exists pt,
      nth_error (sample_p s) 0 = Some pt /\
      nth_error row 3 = Some (coord 2 pt).
Proof.
  assert (Hrun : exists r,
             ScanNetV2.__getitem__ (scannet false 24000) 7 (start []) = Ok r
             /\ exists row, nth_error (sample_f (fst r)) 0 = Some row).
  { eexists. vm_compute. split; [reflexivity | eexists; reflexivity]. }
  destruct Hrun as [[s st'] [Hrun [row Hrow]]]. cbn [fst] in Hrow.
  exists s, st', row. split; [exact Hrun |]. split; [exact Hrow |].
  exact (proj1 (@feature_rows_layout Q Scalar_Q Trig_Q_taylor Random_Q
                  Collaborators_Q)
           (scannet false 24000) 7%Z _ _ s 0 row Hrun Hrow).
Defined.

(** ** The crop keeps the nearest points *)

Section SortOrder.
Context {A : Type} (leb : A -> A -> bool).
Hypothesis leb_total : forall a b, leb a b = true \/ leb b a = true.
Hypothesis leb_trans :
  forall a b c, leb a b = true -> leb b c = true -> leb a c = true.

Lemma insert_by_strongly_sorted (x : A) (l : list A) :
  StronglySorted (fun a b => leb a b = true) l ->
  StronglySorted (fun a b => leb a b = true) (insert_by leb x l).
Proof.
  induction 1 as [| y l Hs IH Hall]; cbn [insert_by].
  - repeat constructor.
  - destruct (leb x y) eqn:E.
    + constructor; [now constructor |].
      constructor; [exact E |].
      eapply Forall_impl; [| exact Hall]. intros z Hz.
      exact (leb_trans _ _ _ E Hz).
    + constructor; [exact IH |].
      assert (Hyx : leb y x = true)
        by (destruct (leb_total x y); congruence).
      rewrite Forall_forall. intros z Hz.
      apply (Permutation_in _ (insert_by_perm leb x l)) in Hz.
      destruct Hz as [<- | Hz]; [exact Hyx |].
      rewrite Forall_forall in Hall. now apply Hall.
Qed.

Lemma sort_by_strongly_sorted (l : list A) :
  StronglySorted (fun a b => leb a b = true) (sort_by leb l).
Proof.
  unfold sort_by. induction l as [| x l IH]; cbn [fold_right].
  - constructor.
  - now apply insert_by_strongly_sorted.
Qed.

(** In a sorted list every element of a prefix is below every element of
    the rest. *)
Lemma sorted_prefix_below (l : list A) :
  StronglySorted (fun a b => leb a b = true) l ->
  forall (n : nat) (x y : A),
    In x (firstn n l) -> In y (skipn n l) -> leb x y = true.
Proof.
  induction 1 as [| z l Hs IH Hall]; intros n x y Hx Hy.
  - destruct n; contradiction.
  - destruct n as [| n]; [contradiction |].
    cbn [firstn skipn] in Hx, Hy. destruct Hx as [<- | Hx].
    + rewrite Forall_forall in Hall. apply Hall.
      rewrite <- (firstn_skipn n l). apply in_or_app. now right.
    + eapply IH; eassumption.
Qed.
End SortOrder.

Lemma combine_seq_nth {A} (l : list A) :
  forall (start : nat) (x : A) (i : nat),
    In (x, i) (combine l (seq start (length l))) ->
    start <= i /\ nth_error l (i - start) = Some x.
Proof.
  induction l as [| y l IH]; intros start x i Hin; cbn in Hin.
  - contradiction.
  - destruct Hin as [E | Hin].
    + inversion E; subst. rewrite Nat.sub_diag. now split.
    + apply IH in Hin. destruct Hin as [Hle Hn]. split; [lia |].
      replace (i - start) with (S (i - S start)) by lia. exact Hn.
Qed.

Lemma combine_seq_in {A} (l : list A) :
  forall (start : nat) (x : A) (i : nat),
    nth_error l i = Some x ->
    In (x, start + i) (combine l (seq start (length l))).
Proof.
  induction l as [| y l IH]; intros start x [| i] Hn; cbn in Hn;
    try discriminate; cbn [length seq combine].
  - inversion Hn; subst. left. f_equal. lia.
  - right. replace (start + S i) with (S start + i) by lia. now apply IH.
Qed.

Section CropNearest.
Context {F : Type} {SF : Scalar F} {RS : RandomSource F}.

Lemma crop_condition_nearest (voxel_max : Z) (xyz : tensor F) (pt : vec3 F) :
  (forall a b : F, fleb a b = true \/ fleb b a = true) ->
  (forall a b c : F,
      fleb a b = true -> fleb b c = true -> fleb a c = true) ->
  forall (i j : nat) (p q : vec3 F),
    In i (crop_condition voxel_max xyz pt) ->
    ~ In j (crop_condition voxel_max xyz pt) ->
    nth_error xyz i = Some p -> nth_error xyz j = Some q ->
    fleb (sqdist pt p) (sqdist pt q) = true.
Proof.
  intros Htot Htrans i j p q Hi Hj Hp Hq.
  unfold crop_condition, argsort in Hi, Hj.
  set (keys := map (sqdist pt) xyz) in *.
  set (lebk := fun a b : F * nat => fleb (fst a) (fst b)) in *.
  set (sorted := sort_by lebk (combine keys (seq 0 (length keys)))) in *.
  assert (Hn : exists n, py_slice_to (map snd sorted) voxel_max
                         = map snd (firstn n sorted)).
  { unfold py_slice_to. destruct (0 <=? voxel_max)%Z;
      eexists; rewrite firstn_map; reflexivity. }
  destruct Hn as [n Hn]. rewrite Hn in Hi, Hj.
  assert (Hs : Permutation (sort_indices (map snd (firstn n sorted)))
                 (map snd (firstn n sorted))) by apply sort_by_perm.
  apply (Permutation_in _ Hs) in Hi.
  assert (Hj' : ~ In j (map snd (firstn n sorted))).
  { intros H. apply Hj. apply (Permutation_in _ (Permutation_sym Hs)), H. }
  clear Hj Hs Hn.
  assert (Hperm : Permutation sorted (combine keys (seq 0 (length keys))))
    by apply sort_by_perm.
  assert (Hjs : In (sqdist pt q, j) sorted).
  { apply (Permutation_in _ (Permutation_sym Hperm)).
    apply (combine_seq_in keys 0 (sqdist pt q) j).
    subst keys. now rewrite nth_error_map, Hq. }
  rewrite <- (firstn_skipn n sorted) in Hjs.
  apply in_app_or in Hjs. destruct Hjs as [Hjs | Hjs].
  { exfalso. apply Hj'. apply in_map_iff. exists (sqdist pt q, j). now split. }
  apply in_map_iff in Hi. destruct Hi as ([ki i'] & Ei & Hi).
  cbn [snd] in Ei. subst i'.
  assert (Hki : ki = sqdist pt p).
  { assert (Hin : In (ki, i) sorted) by (eapply firstn_incl, Hi).
    apply (Permutation_in _ Hperm) in Hin.
    apply combine_seq_nth in Hin. destruct Hin as [_ Hin].
    rewrite Nat.sub_0_r in Hin. subst keys.
    rewrite nth_error_map, Hp in Hin. now inversion Hin. }
  subst ki.
  assert (Hsorted : StronglySorted (fun a b => lebk a b = true) sorted).
  { apply sort_by_strongly_sorted.
    - intros a b. apply Htot.
    - intros a b c. apply Htrans. }
  exact (sorted_prefix_below lebk sorted Hsorted n _ _ Hi Hjs).
Qed.

(** X6. When the comparison of scalars is total and transitive, a crop
    that cuts is centred on one of its input points and keeps nearest
    points: every kept point is at most as far from the centre as every
    dropped point. *)
Theorem crop_keeps_nearest (voxel_max : Z) (xyz xyz' : tensor F)
  (indices indices' : list nat) (st st' : state F) :
  (forall a b : F, fleb a b = true \/ fleb b a = true) ->
  (forall a b c : F,
      fleb a b = true -> fleb b c = true -> fleb a c = true) ->
  (len xyz > voxel_max)%Z ->
  crop voxel_max xyz indices st = Ok ((xyz', indices'), st') ->
  exists (pt : vec3 F) (condition : list nat),
    In pt xyz /\
    gather xyz condition = Ok xyz' /\
    gather indices condition = Ok indices' /\
    forall (i j : nat) (p q : vec3 F),
      In i condition -> ~ In j condition ->
      nth_error xyz i = Some p -> nth_error xyz j = Some q ->
      fleb (sqdist pt p) (sqdist pt q) = true.
Proof.
  intros Htot Htrans Hgt Hc. unfold crop in Hc.
  destruct (Z.gtb_spec (len xyz) voxel_max) as [_ | ?]; [| lia].
  minv.
  match goal with
  | H : random_choice xyz _ = Ok (?x, _) |- _ =>
      exists x, (crop_condition voxel_max xyz x); rename H into Hr
  end.
  split; [| split; [assumption | split; [assumption |]]].
  - unfold random_choice in Hr. destruct xyz; [discriminate |].
    minv.
    match goal with
    | H : res_of_option _ (nth_error _ _) = Ok _ |- _ =>
        unfold res_of_option in H;
        destruct (nth_error _ _) eqn:E in H; [| discriminate];
        inversion H; subst
    end.
    eapply nth_error_In; eassumption.
  - now apply crop_condition_nearest.
Qed.
End CropNearest.

Lemma Qle_bool_total (a b : Q) : Qle_bool a b = true \/ Qle_bool b a = true.
Proof.
  destruct (Qlt_le_dec a b) as [H | H].
  - left. apply Qle_bool_iff, Qlt_le_weak, H.
  - right. apply Qle_bool_iff, H.
Qed.

Lemma Qle_bool_trans (a b c : Q) :
  Qle_bool a b = true -> Qle_bool b c = true -> Qle_bool a c = true.
Proof. rewrite !Qle_bool_iff. apply Qle_trans. Qed.

(** The crop of the ten grid points to five, on rationals. *)
Lemma crop_keeps_nearest_witness :
  exists (pt : vec3 Q) (condition : list nat),
    In pt grid_points /\
    gather grid_points condition
    = Ok [(0, 0, 0); (1, 0, 0); (0, 1, 0); (1, 1, 0); (0, 0, 1)]%Q /\
    gather grid_indices condition = Ok [2; 6; 8; 10; 12] /\
    forall (i j : nat) (p q : vec3 Q),
      In i condition -> ~ In j condition ->
      nth_error grid_points i = Some p -> nth_error grid_points j = Some q ->
      Qle_bool (sqdist pt p) (sqdist pt q) = true.
Proof.
  apply (@crop_keeps_nearest Q Scalar_Q Random_Q 5 grid_points _ grid_indices
           _ (start [(1 # 10)%Q]) (@mk_state Q Random_Q [] [StCrop])
           Qle_bool_total Qle_bool_trans).
  - reflexivity.
  - vm_compute. reflexivity.
Defined.

(** ** Re-centred positions *)

Lemma gather_incl {A} (t : list A) (indices : list nat) (r : list A) :
  gather t indices = Ok r -> incl r t.
Proof.
  revert r. induction indices as [| i rest IH]; intros r Hg; cbn in Hg.
  - inversion Hg. intros x [].
  - destruct (nth_error t i) as [x |] eqn:E; [| discriminate].
    destruct (gather t rest) as [xs |]; cbn in Hg; [| discriminate].
    inversion Hg; subst. intros y [<- | Hy].
    + eapply nth_error_In, E.
    + now apply (IH xs).
Qed.

Section RecenterReal.
Context {TF : Trig R} {RS : RandomSource R} {CO : Collaborators R}.
Local Open Scope R_scope.

Lemma fold_fmin_in (l : list R) :
  forall init : R, In (fold_left fmin l init) (init :: l).
Proof.
  induction l as [| x l IH]; intros init; cbn [fold_left].
  - now left.
  - destruct (IH (fmin init x)) as [E | Hin].
    + destruct (fmin_spec init x) as (_ & _ & [E' | E']); rewrite <- E, E';
        [now left | right; now left].
    + right. now right.
Qed.

Lemma fold_fmax_le (l : list R) :
  forall init : R,
    init <= fold_left fmax l init /\
    Forall (fun x => x <= fold_left fmax l init) l.
Proof.
  induction l as [| x l IH]; intros init; cbn [fold_left].
  - split; [lra | constructor].
  - destruct (IH (fmax init x)) as [Hi Hall].
    destruct (fmax_spec init x) as (H1 & H2 & _).
    split; [lra |]. constructor; [lra | exact Hall].
Qed.

(** The column minimum is a lower bound of its column and is attained;
    the column maximum is an upper bound. *)
Lemma col_min_spec (t : tensor R) (m : vec3 R) (a : nat) :
  col_min t = Ok m ->
  (forall p, In p t -> coord a m <= coord a p) /\
  (exists p, In p t /\ coord a p = coord a m).
Proof.
  destruct t as [| v t]; [discriminate |]. cbn [col_min]. intros E.
  assert (Ha : coord a m = fold_left fmin (map (coord a) t) (coord a v))
    by (injection E as <-; apply coord_fold).
  clear E. split.
  - destruct (fold_fmin_le (map (coord a) t) (coord a v)) as [Hi Hall].
    rewrite <- Ha in Hi, Hall. intros p [<- | Hp]; [exact Hi |].
    rewrite Forall_forall in Hall. apply Hall. now apply in_map.
  - destruct (fold_fmin_in (map (coord a) t) (coord a v)) as [E | Hin].
    + exists v. split; [now left | congruence].
    + apply in_map_iff in Hin. destruct Hin as (p & Ep & Hp).
      exists p. split; [now right | congruence].
Qed.

Lemma col_max_upper (t : tensor R) (m : vec3 R) (a : nat) :
  col_max t = Ok m -> forall p, In p t -> coord a p <= coord a m.
Proof.
  destruct t as [| v t]; [discriminate |]. cbn [col_max]. intros E.
  assert (Ha : coord a m = fold_left fmax (map (coord a) t) (coord a v))
    by (injection E as <-; apply coord_fold).
  clear E.
  destruct (fold_fmax_le (map (coord a) t) (coord a v)) as [Hi Hall].
  rewrite <- Ha in Hi, Hall. intros p [<- | Hp]; [exact Hi |].
  rewrite Forall_forall in Hall. apply Hall. now apply in_map.
Qed.

(** After re-centring the minimum of every axis is exactly zero. *)
Lemma recenter_min_zero (xyz xyz' : tensor R) (st st' : state R) :
  recenter xyz st = Ok (xyz', st') ->
  col_min xyz' = Ok (0, 0, 0) /\
  (forall p a, In p xyz' -> 0 <= coord a p).
Proof.
  intros Hr. apply recenter_inv in Hr. destruct Hr as (m & Hm & -> & _).
  assert (Hpos : forall p a, In p (sub_row xyz m) -> 0 <= coord a p).
  { intros p a Hp. unfold sub_row in Hp. apply in_map_iff in Hp.
    destruct Hp as (q & <- & Hq). rewrite coord_vsub.
    destruct (col_min_spec xyz m a Hm) as [Hlow _].
    specialize (Hlow q Hq). lra. }
  split; [| exact Hpos].
  destruct (col_min (sub_row xyz m)) as [m' |] eqn:Hm'.
  - f_equal.
    assert (H0 : forall a, coord a m' = 0).
    { intros a.
      destruct (col_min_spec (sub_row xyz m) m' a Hm') as [Hlow [p [Hp Ep]]].
      destruct (col_min_spec xyz m a Hm) as [_ [q [Hq Eq]]].
      assert (Hz : In (vsub q m) (sub_row xyz m))
        by (unfold sub_row; apply (in_map (fun p0 => vsub p0 m)), Hq).
      specialize (Hlow _ Hz). rewrite coord_vsub in Hlow.
      specialize (Hpos p a Hp). lra. }
    pose proof (H0 0%nat). pose proof (H0 1%nat). pose proof (H0 2%nat).
    destruct m' as [[m0 m1] m2]. cbn [coord] in *. congruence.
  - destruct xyz; [discriminate | discriminate].
Qed.

Lemma crop_incl (voxel_max : Z) (xyz xyz' : tensor R)
  (indices indices' : list nat) (st st' : state R) :
  crop voxel_max xyz indices st = Ok ((xyz', indices'), st') ->
  incl xyz' xyz.
Proof.
  unfold crop. destruct (len xyz >? voxel_max)%Z; intros Hc; minv.
  - eapply gather_incl; eassumption.
  - apply incl_refl.
Qed.

Lemma scannet_test_recentered (self : ScanNetV2.dataset) (idx : Z)
  (st st' : state R) (s : Sample R CamPoints) :
  ScanNetV2.get_test_item self idx st = Ok (s, st') ->
  col_min (sample_p s) = Ok (0, 0, 0) /\
  forall p a, In p (sample_p s) -> 0 <= coord a p.
Proof.
  intros Hg. unfold ScanNetV2.get_test_item in Hg.
  minv. cbn [sample_p ScanNetV2.build].
  match goal with
  | H : recenter ?x _ = Ok (?y, _), H' : cat3 _ _ ?y _ = Ok _ |- _ =>
      exact (recenter_min_zero _ _ _ _ H)
  end.
Qed.

Lemma s3dis_test_recentered (self : S3DIS.dataset) (idx : Z)
  (st st' : state R) (s : Sample R CamPoints) :
  S3DIS.get_test_item self idx st = Ok (s, st') ->
  col_min (sample_p s) = Ok (0, 0, 0) /\
  forall p a, In p (sample_p s) -> 0 <= coord a p.
Proof.
  intros Hg. unfold S3DIS.get_test_item in Hg.
  minv. cbn [sample_p S3DIS.build].
  match goal with
  | H : recenter ?x _ = Ok (?y, _), H' : cat2 _ _ ?y = Ok _ |- _ =>
      exact (recenter_min_zero _ _ _ _ H)
  end.
Qed.

(** X7. Over the reals, the positions of a test item of either dataset
    have minimum exactly zero on every axis; the positions of every item,
    training items included, have no negative coordinate (a training item
    is subsampled and cropped after the re-centring, so its minimum need
    not be zero). *)
Theorem samples_recentered :
  (forall (self : ScanNetV2.dataset) (idx : Z) (st st' : state R)
          (s : Sample R CamPoints),
      ScanNetV2.get_test_item self idx st = Ok (s, st') ->
      col_min (sample_p s) = Ok (0, 0, 0)) /\
  (forall (self : S3DIS.dataset) (idx : Z) (st st' : state R)
          (s : Sample R CamPoints),
      S3DIS.get_test_item self idx st = Ok (s, st') ->
      col_min (sample_p s) = Ok (0, 0, 0)) /\
  (forall (self : ScanNetV2.dataset) (idx : Z) (st st' : state R)
          (s : Sample R CamPoints),
      ScanNetV2.__getitem__ self idx st = Ok (s, st') ->
      forall p a, In p (sample_p s) -> 0 <= coord a p) /\
  (forall (self : S3DIS.dataset) (idx : Z) (st st' : state R)
          (s : Sample R CamPoints),
      S3DIS.__getitem__ self idx st = Ok (s, st') ->
      forall p a, In p (sample_p s) -> 0 <= coord a p).
Proof.
  split; [| split; [| split]].
  - intros self idx st st' s Hg.
    exact (proj1 (scannet_test_recentered _ _ _ _ _ Hg)).
  - intros self idx st st' s Hg.
    exact (proj1 (s3dis_test_recentered _ _ _ _ _ Hg)).
  - intros self idx st st' s Hg. unfold ScanNetV2.__getitem__ in Hg.
    destruct (negb (ScanNetV2.train self)).
    + exact (proj2 (scannet_test_recentered _ _ _ _ _ Hg)).
    + minv. cbn [sample_p ScanNetV2.build]. intros p a Hp.
      match goal with
      | H : crop _ _ _ _ = Ok _ |- _ => apply crop_incl in H; apply H in Hp
      end.
      match goal with
      | H : gather _ _ = Ok ?l, Hp : In p ?l |- _ =>
          apply gather_incl in H; apply H in Hp
      end.
      match goal with
      | H : recenter _ _ = Ok _ |- _ =>
          apply recenter_min_zero in H; destruct H as [_ H]
      end.
      auto.
  - intros self idx st st' s Hg. unfold S3DIS.__getitem__ in Hg.
    destruct (negb (S3DIS.train self)).
    + exact (proj2 (s3dis_test_recentered _ _ _ _ _ Hg)).
    + minv. cbn [sample_p S3DIS.build]. intros p a Hp.
      match goal with
      | H : crop _ _ _ _ = Ok _ |- _ => apply crop_incl in H; apply H in Hp
      end.
      match goal with
      | H : gather _ _ = Ok ?l, Hp : In p ?l |- _ =>
          apply gather_incl in H; apply H in Hp
      end.
      match goal with
      | H : recenter _ _ = Ok _ |- _ =>
          apply recenter_min_zero in H; destruct H as [_ H]
      end.
      auto.
Qed.
End RecenterReal.

(** The test item of the one-point scene on reals is constructed. *)
Lemma scannet_R_test_item :
  exists s st',
    ScanNetV2.get_test_item scannet_R 0 (@mk_state R Random_R tt [])
    = Ok (s, st').
Proof.
  do 2 eexists.
  cbv -[cos sin PI Rplus Rmult Rminus Rdiv Ropp Rinv IZR Q2R Rleb Rltb].
  reflexivity.
Qed.

Lemma samples_recentered_witness :
  exists s st',
    ScanNetV2.get_test_item scannet_R 0 (@mk_state R Random_R tt [])
    = Ok (s, st') /\
    col_min (sample_p s) = Ok (0, 0, 0)%R.
Proof.
  destruct scannet_R_test_item as (s & st' & Hrun).
  exists s, st'. split; [exact Hrun |].
  exact (proj1 (@samples_recentered Trig_R Random_R Collaborators_R)
           _ _ _ _ _ Hrun).
Defined.

(** ** Colour features *)

Section ColourReal.
Context {RS : RandomSource R}.
Local Open Scope R_scope.

(** One channel of the contrast blend: the convex combination of the
    colour and of its stretch to the full range. *)
Lemma contrast_channel (alpha : R) (colmin colmax c : vec3 R) (a : nat) :
  coord a colmin < coord a colmax ->
  coord a
    (vsub (vmul (vmap (fun s => fadd (fsub (f_lit 1%Q) alpha) (fmul alpha s))
                   (vdiv (vfill (f_lit 255%Q)) (vsub colmax colmin))) c)
          (vmul (vscale alpha colmin)
             (vdiv (vfill (f_lit 255%Q)) (vsub colmax colmin))))
  = (1 - alpha) * coord a c
    + alpha * (255 * ((coord a c - coord a colmin)
                      / (coord a colmax - coord a colmin))).
Proof.
  intros Hlt.
  assert (E255 : Q2R 255 = 255) by (unfold Q2R; cbn; lra).
  destruct colmin as [[m0 m1] m2], colmax as [[x0 x1] x2], c as [[c0 c1] c2].
  destruct a as [| [| a]]; cbn in Hlt |- *;
    rewrite ?RMicromega.Q2R_1, ?E255; field; lra.
Qed.

Lemma contrast_in_range (alpha : R) (colmin colmax : vec3 R)
  (col : tensor R) :
  col_min col = Ok colmin -> col_max col = Ok colmax ->
  0 <= alpha <= 1 ->
  (forall c a, In c col -> 0 <= coord a c <= 255) ->
  (forall a, coord a colmin < coord a colmax) ->
  forall c a, In c (contrast alpha colmin colmax col) ->
              0 <= coord a c <= 255.
Proof.
  intros Hmin Hmax Ha Hcol Hne c a Hc.
  unfold contrast in Hc. apply in_map_iff in Hc.
  destruct Hc as (c0 & <- & Hc0).
  rewrite contrast_channel by apply Hne.
  pose proof (proj1 (col_min_spec col colmin a Hmin) c0 Hc0) as Hlo.
  pose proof (col_max_upper col colmax a Hmax c0 Hc0) as Hhi.
  specialize (Hne a). specialize (Hcol c0 a Hc0).
  set (t := (coord a c0 - coord a colmin)
            / (coord a colmax - coord a colmin)).
  assert (Ht : 0 <= t <= 1).
  { subst t. split.
    - apply Rmult_le_pos; [lra |]. apply Rlt_le, Rinv_0_lt_compat. lra.
    - apply (Rmult_le_reg_r (coord a colmax - coord a colmin)); [lra |].
      unfold Rdiv. rewrite Rmult_assoc, Rinv_l by lra. lra. }
  nra.
Qed.

(** X8. Over the reals, with [random.random()] in the unit interval:
    when the raw colours lie between 0 and 255 and no colour channel is
    constant over the sample, the colour channels the training
    augmentation returns lie between 0 and [255 / 250], whichever branch
    is drawn: dropped colours are zero, the contrast blend stays within
    the raw range, and the result is rescaled by [1 / 250]. *)
Theorem colour_features_in_range (col col' : tensor R) (st st' : state R) :
  random_in_unit_interval ->
  (forall c a, In c col -> 0 <= coord a c <= 255) ->
  (forall a, exists p q, In p col /\ In q col /\ coord a p < coord a q) ->
  color_aug col st = Ok (col', st') ->
  forall c a, In c col' -> 0 <= coord a c <= 255 / 250.
Proof.
  intros Hu Hcol Hne Hc c a Hin.
  assert (E1 : Q2R 1 = 1) by apply RMicromega.Q2R_1.
  assert (E250 : Q2R 250 = 250) by (unfold Q2R; cbn; lra).
  assert (Hscale : forall (t : tensor R),
             (forall c a, In c t -> 0 <= coord a c <= 255) ->
             In c (mul_scalar t (fdiv (f_lit 1%Q) (f_lit 250%Q))) ->
             0 <= coord a c <= 255 / 250).
  { intros t Ht Hi. unfold mul_scalar in Hi. apply in_map_iff in Hi.
    destruct Hi as ([[c0 c1] c2] & <- & Hc0).
    pose proof (Ht _ 0%nat Hc0). pose proof (Ht _ 1%nat Hc0).
    pose proof (Ht _ 2%nat Hc0). cbn [coord] in *.
    destruct a as [| [| a]]; cbn; rewrite E1, E250; lra. }
  unfold color_aug in Hc. minv.
  destruct (fltb _ _).
  - minv. unfold fill in Hin. apply in_map_iff in Hin.
    destruct Hin as (c0 & <- & _).
    destruct a as [| [| a]]; cbn; rewrite RMicromega.Q2R_0; lra.
  - minv. destruct (fltb _ _); minv.
    + eapply Hscale; [| exact Hin].
      match goal with
      | H1 : col_min col = Ok ?mn, H2 : col_max col = Ok ?mx |- _ =>
          apply (contrast_in_range _ mn mx col H1 H2)
      end.
      * match goal with
        | |- 0 <= fst (random_random ?g) <= 1 => pose proof (Hu g); lra
        end.
      * exact Hcol.
      * intros a'. destruct (Hne a') as (p & q & Hp & Hq & Hlt).
        match goal with
        | H1 : col_min col = Ok ?mn, H2 : col_max col = Ok ?mx |- _ =>
            pose proof (proj1 (col_min_spec col mn a' H1) p Hp);
            pose proof (col_max_upper col mx a' H2 q Hq)
        end. lra.
    + now apply (Hscale col).
Qed.

(** The colour augmentation runs on every nonempty colour tensor. *)
Lemma color_aug_runs (col : tensor R) (st : state R) :
  col <> [] -> exists col' st', color_aug col st = Ok (col', st').
Proof.
  intros Hne. destruct col as [| c col]; [contradiction |].
  unfold color_aug, bind, draw, log, ret, lift.
  destruct (random_random (rng st)) as [u g]. cbn [rng trace].
  match goal with
  | |- context [fltb u ?x] =>
      destruct (fltb u x); [do 2 eexists; reflexivity |]
  end.
  cbn [rng trace]. destruct (random_random g) as [u' g']. cbn [rng trace].
  match goal with
  | |- context [fltb u' ?x] =>
      destruct (fltb u' x); cbn [col_min col_max rng trace]
  end.
  - cbn [rng trace]. destruct (random_random g') as [al g''].
    do 2 eexists. reflexivity.
  - do 2 eexists. reflexivity.
Qed.
End ColourReal.

Lemma colour_features_in_range_witness :
  exists col' st',
    color_aug [(0, 10, 20); (250, 200, 100)]%R (@mk_state R Random_R tt [])
    = Ok (col', st') /\
    forall c a, In c col' -> (0 <= coord a c <= 255 / 250)%R.
Proof.
  destruct (@color_aug_runs Random_R [(0, 10, 20); (250, 200, 100)]%R
              (@mk_state R Random_R tt []) ltac:(discriminate))
    as (col' & st' & Hrun).
  exists col', st'. split; [exact Hrun |].
  apply (@colour_features_in_range Random_R
           [(0, 10, 20); (250, 200, 100)]%R col'
           (@mk_state R Random_R tt []) st'); [| | | exact Hrun].
  - intros g. cbn. lra.
  - intros c a [<- | [<- | []]]; destruct a as [| [| a]]; cbn; lra.
  - intros a. exists (0, 10, 20)%R, (250, 200, 100)%R.
    split; [now left |]. split; [right; now left |].
    destruct a as [| [| a]]; cbn; lra.
Defined.

(** ** The elastic displacement is bounded *)

Section ElasticBound.
Context {RS : RandomSource R}.
Local Open Scope R_scope.














End ElasticBound.


(** ** A scene without points *)

Section EmptyScene.
Context {F : Type} {SF : Scalar F} {TF : Trig F} {RS : RandomSource F}
        {CO : Collaborators F}.
Local Open Scope Z_scope.

(** X10. A stored scene without points cannot be sampled: with a nonzero
    [loop], every index that reaches such a scene makes [__getitem__]
    raise. At test time, and in [S3DIS] training, the reduction of the
    re-centring over no rows (or the indexing of no rows) raises
    IndexError; in [ScanNetV2] training the elastic distortion raises
    ValueError when it is applied, and the re-centring raises IndexError
    when it is not. *)
Theorem empty_scene_fails :
  (forall (self : ScanNetV2.dataset) (idx : Z) (st : state F)
          (col norm : tensor F) (lbl : list Z),
      ScanNetV2.loop self <> 0 ->
      py_index (ScanNetV2.datas self) (idx / ScanNetV2.loop self)
      = Ok ([], col, norm, lbl) ->
      (ScanNetV2.train self = false ->
       ScanNetV2.__getitem__ self idx st = Err IndexError) /\
      (ScanNetV2.train self = true ->
       ScanNetV2.__getitem__ self idx st = Err IndexError \/
       ScanNetV2.__getitem__ self idx st = Err ValueError)) /\
  (forall (self : S3DIS.dataset) (idx : Z) (st : state F)
          (col : tensor F) (lbl : list Z),
      S3DIS.loop self <> 0 ->
      py_index (S3DIS.datas self) (idx / S3DIS.loop self)
      = Ok ([], col, lbl) ->
      S3DIS.__getitem__ self idx st = Err IndexError).
Proof.
  split.
  - intros self idx st col norm lbl Hloop Hscene. split; intros Ht.
    + unfold ScanNetV2.__getitem__, ScanNetV2.get_test_item.
      rewrite Ht. cbn [negb].
      rewrite (test_variant_value _ idx Hloop). cbv zeta.
      rewrite (py_floordiv_ok _ _ Hloop).
      mstep. rewrite Hscene. reflexivity.
    + unfold ScanNetV2.__getitem__. rewrite Ht. cbn [negb].
      rewrite (py_floordiv_ok _ _ Hloop).
      mstep. rewrite Hscene.
      unfold random_angle, rigid, random_scale, random_uniform, els.
      mstep. destruct (random_random (rng st)) as [u g].
      mstep. destruct (random_random g) as [u' g'].
      mstep. destruct (random_random g') as [u'' g''].
      mstep. destruct (fltb u'' (f_lit (95 # 100)%Q)).
      * right. reflexivity.
      * left. reflexivity.
  - intros self idx st col lbl Hloop Hscene.
    unfold S3DIS.__getitem__, S3DIS.get_test_item.
    destruct (negb (S3DIS.train self)).
    + rewrite (py_mod_ok _ _ Hloop), (py_floordiv_ok _ _ Hloop).
      mstep. rewrite Hscene. mstep.
      destruct (grid_subsampling_test _ _ _ _) as [| i rest].
      * reflexivity.
      * cbn [gather]. now destruct i.
    + rewrite (py_floordiv_ok _ _ Hloop).
      mstep. rewrite Hscene.
      unfold random_angle, rigid, random_scale, random_uniform,
        S3DIS.jitter.
      mstep. destruct (random_random (rng st)) as [u g].
      mstep. destruct (random_random g) as [u' g'].
      mstep. cbn [matmul map length].
      destruct (torch_normal 0 (f_lit (5 # 1000)%Q) g') as [noise g''].
      reflexivity.
Qed.
End EmptyScene.

Lemma empty_scene_fails_witness :
  S3DIS.__getitem__ vacant 0 (start []) = Err IndexError.
Proof.
  apply (proj2 (@empty_scene_fails Q Scalar_Q Trig_Q_taylor Random_Q
                  Collaborators_Q)
           vacant 0%Z (start []) [] []).
  - discriminate.
  - reflexivity.
Defined.

(** ** The warm-up loop of the test scripts *)

Section WarmupLoop.
Context {World Batch : Type} (model : Batch -> World -> World).

Lemma warmup_from_spec (test_loader : list Batch) :
  forall (i : nat) (w : World),
    i <= TestScript.steps_per_epoch ->
    TestScript.warmup_from model test_loader i w
    = fold_left (fun w b => model b w)
        (firstn (S TestScript.steps_per_epoch - i) test_loader) w.
Proof.
  induction test_loader as [| b rest IH]; intros i w Hi;
    cbn [TestScript.warmup_from].
  - now rewrite firstn_nil.
  - replace (S TestScript.steps_per_epoch - i)
      with (S (TestScript.steps_per_epoch - i)) by lia.
    cbn [firstn fold_left].
    destruct (Nat.ltb_spec TestScript.steps_per_epoch (i + 1)) as [Hlt | Hge].
    + replace (TestScript.steps_per_epoch - i) with 0 by lia. reflexivity.
    + rewrite IH by lia.
      replace (S TestScript.steps_per_epoch - (i + 1))
        with (TestScript.steps_per_epoch - i) by lia.
      reflexivity.
Qed.

(** X11. The warm-up of the test scripts runs the forward pass on the
    first [steps_per_epoch + 1] batches of the loader, in order, and on
    all of them when the loader is shorter: eleven passes at most, one
    more than the ten its progress bar announces. *)
Theorem warmup_forward_passes (test_loader : list Batch) (w : World) :
  TestScript.warmup model test_loader w
  = fold_left (fun w b => model b w)
      (firstn (TestScript.steps_per_epoch + 1) test_loader) w /\
  length (firstn (TestScript.steps_per_epoch + 1) test_loader)
  = Nat.min (length test_loader) 11.
Proof.
  split.
  - unfold TestScript.warmup. rewrite warmup_from_spec by lia.
    replace (S TestScript.steps_per_epoch - 0)
      with (TestScript.steps_per_epoch + 1) by lia.
    reflexivity.
  - rewrite length_firstn. unfold TestScript.steps_per_epoch. lia.
Qed.
End WarmupLoop.

(** Counting the passes over twelve batches. *)
Example warmup_eleven_of_twelve :
  TestScript.warmup (fun (_ : nat) (passes : nat) => S passes) (seq 0 12) 0
  = 11.
Proof. reflexivity. Qed.

(** ** The class-wise scores *)

Section ScoreFacts.
Local Open Scope R_scope.
Import ShapeNetPartTest.

Lemma set_nth_length {A} (l : list A) (i : nat) (x : A) :
  length (set_nth l i x) = length l.
Proof.
  revert i. induction l as [| y l IH]; intros [| i]; cbn; auto.
Qed.

Lemma set_nth_nth {A} (l : list A) (i j : nat) (x d : A) :
  (i < length l)%nat ->
  nth j (set_nth l i x) d = if Nat.eqb j i then x else nth j l d.
Proof.
  revert i j. induction l as [| y l IH]; intros [| i] [| j] Hi;
    cbn in Hi |- *; try lia; try reflexivity.
  apply IH. lia.
Qed.

Lemma index_update_ok {A} (op : A -> A -> A) (t : list A) (i : Z) (x d : A) :
  (0 <= i < len t)%Z ->
  index_update op t i x
  = Ok (set_nth t (Z.to_nat i) (op (nth (Z.to_nat i) t d) x)).
Proof.
  intros Hi. unfold index_update, len in *.
  destruct (nth_error t (Z.to_nat i)) as [old |] eqn:E;
    [| apply nth_error_None in E; lia].
  rewrite (py_index_nonneg t i old) by (auto; lia).
  cbn [res_bind]. destruct (Z.leb_spec 0 i); [| lia].
  now rewrite (nth_error_nth _ _ d E).
Qed.

Lemma fsum_Rsum (l : list R) : fsum l = Rsum l.
Proof.
  unfold fsum, Rsum. cbn [f_lit fadd Scalar_R]. rewrite RMicromega.Q2R_0.
  assert (G : forall acc, fold_left Rplus l acc = acc + fold_right Rplus 0 l).
  { induction l as [| x l IH]; intros acc; cbn; [lra |]. rewrite IH. lra. }
  rewrite G. lra.
Qed.

Lemma Rsum_app (l1 l2 : list R) : Rsum (l1 ++ l2) = Rsum l1 + Rsum l2.
Proof. unfold Rsum. induction l1; cbn; lra. Qed.

Lemma of_class_app {F} (c : nat) (l1 l2 : list (Z * F)) :
  of_class c (l1 ++ l2) = of_class c l1 ++ of_class c l2.
Proof. unfold of_class. now rewrite filter_app, map_app. Qed.

Lemma nth_repeat_lt {A} (x d : A) (n c : nat) :
  (c < n)%nat -> nth c (repeat x n) d = x.
Proof.
  revert c. induction n as [| n IH]; intros [| c] Hc; cbn; try lia; auto.
  apply IH. lia.
Qed.

(** What one batch adds to the accumulators. *)
Lemma add_instances_spec (n : nat) (shape : list Z) :
  forall (ins_mious : list R) (cls_mious : list R) (cls_nums : list Z),
    length ins_mious = length shape ->
    Forall (fun l => (0 <= l < Z.of_nat n)%Z) shape ->
    length cls_mious = n -> length cls_nums = n ->
    exists cls_mious' cls_nums',
      add_instances shape ins_mious (cls_mious, cls_nums)
      = Ok (cls_mious', cls_nums') /\
      length cls_mious' = n /\ length cls_nums' = n /\
      forall c : nat,
        (c < n)%nat ->
        nth c cls_mious' 0
        = nth c cls_mious 0 + Rsum (of_class c (combine shape ins_mious)) /\
        nth c cls_nums' 0%Z
        = (nth c cls_nums 0
           + Z.of_nat (length (of_class c (combine shape ins_mious))))%Z.
Proof.
  induction shape as [| l shape IH];
    intros [| iou ins] cls_mious cls_nums Hlen Hl Hm Hn;
    cbn in Hlen; try lia.
  - exists cls_mious, cls_nums. repeat split; try assumption;
      cbn; [lra | lia].
  - apply Forall_cons_iff in Hl. destruct Hl as [Hl0 Hl'].
    cbn [add_instances].
    rewrite (index_update_ok fadd cls_mious l iou 0)
      by (unfold len; lia).
    cbn [res_bind].
    rewrite (index_update_ok Z.add cls_nums l 1%Z 0%Z) by (unfold len; lia).
    cbn [res_bind]. cbn [fadd Scalar_R].
    destruct (IH ins
                (set_nth cls_mious (Z.to_nat l)
                   (nth (Z.to_nat l) cls_mious 0 + iou))
                (set_nth cls_nums (Z.to_nat l)
                   (nth (Z.to_nat l) cls_nums 0 + 1)%Z))
      as (m' & n' & Hrun & Hm' & Hn' & Hc);
      [lia | assumption | now rewrite set_nth_length
       | now rewrite set_nth_length |].
    exists m', n'. split; [exact Hrun |].
    split; [exact Hm' |]. split; [exact Hn' |].
    intros c Hcn. destruct (Hc c Hcn) as [H1 H2].
    rewrite H1, H2, !set_nth_nth by lia.
    cbn [combine]. unfold of_class. cbn [filter fst].
    destruct (Nat.eqb_spec c (Z.to_nat l)) as [-> | Hne].
    + rewrite Z2Nat.id by lia. rewrite Z.eqb_refl. cbn [map snd length].
      unfold Rsum. cbn [fold_right]. split; [lra | lia].
    + destruct (Z.eqb_spec l (Z.of_nat c)) as [-> | _];
        [rewrite Nat2Z.id in Hne; contradiction |].
      split; [lra | lia].
Qed.

Lemma test_loop_spec (n : nat) (batches : list (list R * list Z)) :
  forall (ins_miou_list cls_mious : list R) (cls_nums : list Z),
    Forall (batch_ok n) batches ->
    length cls_mious = n -> length cls_nums = n ->
    exists cls_mious' cls_nums',
      test_loop batches ins_miou_list (cls_mious, cls_nums)
      = Ok (ins_miou_list ++ concat (map fst batches),
            (cls_mious', cls_nums')) /\
      length cls_mious' = n /\ length cls_nums' = n /\
      forall c : nat,
        (c < n)%nat ->
        nth c cls_mious' 0
        = nth c cls_mious 0 + Rsum (of_class c (instances batches)) /\
        nth c cls_nums' 0%Z
        = (nth c cls_nums 0
           + Z.of_nat (length (of_class c (instances batches))))%Z.
Proof.
  induction batches as [| [ins shape] rest IH];
    intros lst cls_mious cls_nums Hok Hm Hn.
  - exists cls_mious, cls_nums. cbn. rewrite app_nil_r.
    repeat split; try assumption; [lra | lia].
  - apply Forall_cons_iff in Hok. destruct Hok as [[Hlen Hlab] Hok'].
    cbn [fst snd] in *.
    destruct (add_instances_spec n shape ins cls_mious cls_nums Hlen Hlab
                Hm Hn) as (m1 & n1 & Hrun1 & Hm1 & Hn1 & Hc1).
    destruct (IH (lst ++ ins) m1 n1 Hok' Hm1 Hn1)
      as (m2 & n2 & Hrun2 & Hm2 & Hn2 & Hc2).
    exists m2, n2. split.
    + cbn [test_loop]. rewrite Hrun1. cbn [res_bind]. rewrite Hrun2.
      cbn [map concat fst]. now rewrite app_assoc.
    + split; [exact Hm2 |]. split; [exact Hn2 |].
      intros c Hc. destruct (Hc1 c Hc) as [A1 A2].
      destruct (Hc2 c Hc) as [B1 B2].
      unfold instances in *. cbn [flat_map fst snd].
      rewrite of_class_app, Rsum_app, length_app, B1, B2, A1, A2.
      split; [lra | lia].
Qed.

Lemma normalise_spec (n : nat) (cats : list nat) :
  forall (cls_mious : list R) (cls_nums : list Z),
    NoDup cats -> Forall (fun c => (c < n)%nat) cats ->
    length cls_mious = n -> length cls_nums = n ->
    exists r,
      normalise cats (cls_mious, cls_nums) = Ok r /\
      length r = n /\
      forall c : nat,
        (c < n)%nat ->
        nth c r 0
        = if (existsb (Nat.eqb c) cats && (nth c cls_nums 0%Z >? 0)%Z)%bool
          then nth c cls_mious 0 / IZR (nth c cls_nums 0%Z)
          else nth c cls_mious 0.
Proof.
  induction cats as [| cat rest IH]; intros cls_mious cls_nums Hnd Hlt Hm Hn.
  - exists cls_mious. cbn. repeat split; assumption.
  - apply NoDup_cons_iff in Hnd. destruct Hnd as [Hnotin Hnd'].
    apply Forall_cons_iff in Hlt. destruct Hlt as [Hcat Hlt'].
    cbn [normalise].
    assert (Ecat : existsb (Nat.eqb cat) rest = false).
    { destruct (existsb (Nat.eqb cat) rest) eqn:E; [| reflexivity].
      apply existsb_exists in E. destruct E as (x & Hx & Ex).
      apply Nat.eqb_eq in Ex. subst x. contradiction. }
    destruct (nth_error cls_nums cat) as [k |] eqn:Ek;
      [| apply nth_error_None in Ek; lia].
    rewrite (py_index_nonneg cls_nums (Z.of_nat cat) k)
      by (rewrite ?Nat2Z.id; auto; lia).
    cbn [res_bind]. pose proof (nth_error_nth _ _ 0%Z Ek) as Ek'.
    destruct (Z.gtb_spec k 0) as [Hpos | Hle].
    + destruct (nth_error cls_mious cat) as [m |] eqn:Em;
        [| apply nth_error_None in Em; lia].
      rewrite (py_index_nonneg cls_mious (Z.of_nat cat) m)
        by (rewrite ?Nat2Z.id; auto; lia).
      cbn [res_bind]. pose proof (nth_error_nth _ _ 0 Em) as Em'.
      destruct (IH (set_nth cls_mious cat (fdiv m (f_of_Z k))) cls_nums
                  Hnd' Hlt') as (r & Hrun & Hr & Hc);
        [now rewrite set_nth_length | assumption |].
      exists r. split; [exact Hrun |]. split; [exact Hr |].
      intros c Hcn. rewrite (Hc c Hcn), set_nth_nth by lia.
      cbn [existsb].
      destruct (Nat.eqb_spec c cat) as [-> | Hne].
      * rewrite Ecat, Ek', Em'. cbn [orb andb].
        destruct (Z.gtb_spec k 0); [| lia].
        cbn [fdiv Scalar_R]. now rewrite f_of_Z_IZR.
      * cbn [orb]. reflexivity.
    + destruct (IH cls_mious cls_nums Hnd' Hlt' Hm Hn)
        as (r & Hrun & Hr & Hc).
      exists r. split; [exact Hrun |]. split; [exact Hr |].
      intros c Hcn. rewrite (Hc c Hcn). cbn [existsb].
      destruct (Nat.eqb_spec c cat) as [-> | Hne]; cbn [orb]; [| reflexivity].
      rewrite Ecat, Ek'. cbn [andb].
      destruct (Z.gtb_spec k 0); [lia | reflexivity].
Qed.

(** X12. Over the reals, for at least sixteen shape classes, batches
    whose labels name existing classes and at least one instance: the
    scores are computed; the instance score is the mean over all
    instances; the reported score of each of the first sixteen classes is
    the mean of the scores of its instances, and zero when the class has
    no instance; a class beyond the sixteenth keeps the plain sum; and the
    class score is the sum of the reported class scores over the number of
    shape classes, so a class without instances counts as zero. *)
Theorem class_scores (shape_classes : nat)
  (batches : list (list R * list Z)) :
  (16 <= shape_classes)%nat ->
  Forall (batch_ok shape_classes) batches ->
  concat (map fst batches) <> [] ->
  exists ins_miou cls_miou cls_mious,
    scores shape_classes batches = Ok (ins_miou, cls_miou, cls_mious) /\
    length cls_mious = shape_classes /\
    ins_miou
    = Rsum (concat (map fst batches))
      / INR (length (concat (map fst batches))) /\
    cls_miou = Rsum cls_mious / INR shape_classes /\
    forall c : nat,
      (c < shape_classes)%nat ->
      nth c cls_mious 0
      = match of_class c (instances batches) with
        | [] => 0
        | own => if (c <? 16)%nat then Rsum own / INR (length own)
                 else Rsum own
        end.
Proof.
  intros H16 Hok Hne. unfold scores, zeros.
  destruct (test_loop_spec shape_classes batches []
              (repeat (f_lit 0%Q) shape_classes) (repeat 0%Z shape_classes)
              Hok (repeat_length _ _) (repeat_length _ _))
    as (m & k & Hrun & Hm & Hk & Hc).
  rewrite Hrun. cbn [res_bind app].
  destruct (concat (map fst batches)) as [| x l] eqn:El; [contradiction |].
  cbn [res_bind].
  destruct (normalise_spec shape_classes (seq 0 16) m k (seq_NoDup 16 0))
    as (r & Hnorm & Hr & Hcn); try assumption.
  { rewrite Forall_forall. intros c Hin. apply in_seq in Hin. lia. }
  rewrite Hnorm. cbn [res_bind].
  do 3 eexists. split; [reflexivity |]. split; [exact Hr |].
  split; [| split].
  - cbn [fdiv Scalar_R]. now rewrite fsum_Rsum, f_of_nat_INR.
  - cbn [fdiv Scalar_R]. now rewrite fsum_Rsum, f_of_nat_INR, Hr.
  - intros c Hcs. set (own := of_class c (instances batches)).
    rewrite (Hcn c Hcs).
    destruct (Hc c Hcs) as [E1 E2]. fold own in E1, E2.
    rewrite nth_repeat_lt in E1 by assumption.
    rewrite nth_repeat_lt in E2 by assumption.
    cbn [f_lit Scalar_R] in E1. rewrite RMicromega.Q2R_0 in E1.
    rewrite E1, E2. rewrite Rplus_0_l, Z.add_0_l.
    assert (Hex : existsb (Nat.eqb c) (seq 0 16) = (c <? 16)%nat).
    { destruct (Nat.ltb_spec c 16) as [Hlt | Hge].
      - apply existsb_exists. exists c. split; [apply in_seq; lia |].
        apply Nat.eqb_refl.
      - destruct (existsb (Nat.eqb c) (seq 0 16)) eqn:E; [| reflexivity].
        apply existsb_exists in E. destruct E as (y & Hy & Ey).
        apply Nat.eqb_eq in Ey. subst y. apply in_seq in Hy. lia. }
    rewrite Hex.
    destruct own as [| o own'].
    + cbn [length Rsum fold_right]. destruct (c <? 16)%nat; reflexivity.
    + destruct (Z.gtb_spec (Z.of_nat (length (o :: own'))) 0) as [_ | Hz];
        [| cbn [length] in Hz; lia].
      rewrite andb_true_r. rewrite <- INR_IZR_INZ. reflexivity.
Qed.
End ScoreFacts.

(** One batch of two instances, of the classes 0 and 3. *)
Lemma class_scores_witness :
  exists ins_miou cls_miou cls_mious,
    ShapeNetPartTest.scores 16 [([1 / 2; 1]%R, [0; 3]%Z)]
    = Ok (ins_miou, cls_miou, cls_mious) /\
    length cls_mious = 16 /\
    cls_miou = (Rsum cls_mious / INR 16)%R.
Proof.
  destruct (class_scores 16 [([1 / 2; 1]%R, [0; 3]%Z)])
    as (a & b & c & Hrun & Hlen & _ & Hcls & _).
  - lia.
  - constructor; [| constructor]. split; [reflexivity |].
    repeat constructor; lia.
  - discriminate.
  - exists a, b, c. repeat split; assumption.
Defined.

(** On rationals: two instances of class 0, one of class 3, none of the
    other fourteen classes. *)
Example class_scores_run :
  @ShapeNetPartTest.scores Q _ 16
    [([1 # 2; 1]%Q, [0; 3]%Z); ([1 # 4]%Q, [0]%Z)]
  = Ok ((7 # 12)%Q, (11 # 128)%Q,
        [3 # 8; 0; 0; 1; 0; 0; 0; 0; 0; 0; 0; 0; 0; 0; 0; 0]%Q).
Proof. vm_compute. reflexivity. Qed.

(** A label outside the classes, and a run without instances. *)
Example class_scores_errors :
  @ShapeNetPartTest.scores Q _ 16 [([1 # 2]%Q, [16]%Z)] = Err IndexError /\
  @ShapeNetPartTest.scores Q _ 16 [] = Err RuntimeError /\
  @ShapeNetPartTest.scores Q _ 15 [([1 # 2]%Q, [0]%Z)] = Err IndexError.
Proof. repeat split; vm_compute; reflexivity. Qed.

(** ** The names of an experiment *)

Section PrepareExpFacts.
Import PrepareExp.
Local Open Scope string_scope.

Lemma string_length_app (a b : string) :
  String.length (a ++ b) = String.length a + String.length b.
Proof. induction a as [| c a IH]; cbn; auto. Qed.

Lemma string_app_inj_l (p a b : string) : p ++ a = p ++ b -> a = b.
Proof.
  induction p as [| c p IH]; cbn; intros E; [exact E |].
  inversion E. auto.
Qed.

Lemma string_app_inj_r (a b s : string) : a ++ s = b ++ s -> a = b.
Proof.
  intros E.
  assert (Hl : String.length a = String.length b).
  { apply (f_equal String.length) in E.
    rewrite !string_length_app in E. lia. }
  revert b E Hl. induction a as [| c a IH]; intros [| d b] E Hl;
    cbn in Hl; try lia; [reflexivity |].
  cbn in E. inversion E. f_equal. apply IH; [assumption | lia].
Qed.

(** Leading zeros do not change the number read. *)
Lemma read_zeros (k : nat) (s : string) (d : Decimal.uint) :
  DecimalString.NilEmpty.uint_of_string s = Some d ->
  exists d',
    DecimalString.NilEmpty.uint_of_string (zeros k ++ s) = Some d' /\
    Nat.of_uint d' = Nat.of_uint d.
Proof.
  intros Hs. induction k as [| k (d' & Hd & Hn)]; cbn [zeros append].
  - exists d. now split.
  - exists (Decimal.D0 d'). split.
    + cbn. now rewrite Hd.
    + rewrite <- Hn. reflexivity.
Qed.

Lemma to_uint_digits (n : nat) :
  DecimalString.NilEmpty.uint_of_string
    (DecimalString.NilZero.string_of_uint (Nat.to_uint n))
  = Some (Nat.to_uint n) /\
  DecimalString.NilZero.string_of_uint (Nat.to_uint n) <> EmptyString.
Proof.
  assert (Hne : Nat.to_uint n <> Decimal.Nil).
  { intros E. pose proof (f_equal Nat.of_uint E) as E0.
    rewrite DecimalNat.Unsigned.of_to in E0. cbn in E0. subst n.
    discriminate E. }
  pose proof (DecimalString.NilZero.usu _ Hne) as Hu.
  destruct (DecimalString.NilZero.string_of_uint (Nat.to_uint n)) eqn:Es.
  - discriminate.
  - split; [exact Hu | discriminate].
Qed.

Lemma read_format (n : nat) : read_decimal (format_03d n) = Some n.
Proof.
  unfold read_decimal, format_03d.
  destruct (to_uint_digits n) as [Hd Hne].
  destruct (read_zeros
              (3 - String.length
                     (DecimalString.NilZero.string_of_uint (Nat.to_uint n)))
              _ _ Hd) as (d' & Hd' & Hn).
  remember (zeros _ ++ _) as s eqn:Es.
  assert (Hs : DecimalString.NilZero.uint_of_string s = Some d').
  { destruct s as [| c s']; [| exact Hd'].
    apply (f_equal String.length) in Es. rewrite string_length_app in Es.
    destruct (DecimalString.NilZero.string_of_uint (Nat.to_uint n));
      [contradiction | cbn in Es; lia]. }
  rewrite Hs. cbn [option_map]. rewrite Hn.
  now rewrite DecimalNat.Unsigned.of_to.
Qed.

(** X13. The experiment number is written with at least three digits and
    reads back as the number of experiments found; the directory is the
    experiment name under [exp-test] and the log is [test.log] in it; and
    two runs of the same experiment name get the same experiment name, and
    the same log path, exactly when they found the same number of earlier
    experiments. *)
Theorem prepare_exp_names (exp : string) (found found' : list string) :
  read_decimal (format_03d (length found)) = Some (length found) /\
  3 <= String.length (format_03d (length found)) /\
  exp_dir (prepare_exp exp found)
  = exp_root ++ "/" ++ exp ++ "-" ++ format_03d (length found) /\
  log_path (prepare_exp exp found)
  = exp_dir (prepare_exp exp found) ++ "/test.log" /\
  (exp_name (prepare_exp exp found) = exp_name (prepare_exp exp found')
   <-> length found = length found') /\
  (log_path (prepare_exp exp found) = log_path (prepare_exp exp found')
   <-> length found = length found').
Proof.
  assert (Hinj : forall a b, format_03d a = format_03d b -> a = b).
  { intros a b E. apply (f_equal read_decimal) in E.
    rewrite !read_format in E. now inversion E. }
  split; [apply read_format |]. split.
  { unfold format_03d. rewrite string_length_app.
    assert (Hz : forall k, String.length (zeros k) = k)
      by (induction k; cbn; auto).
    rewrite Hz. lia. }
  split; [reflexivity |]. split; [reflexivity |]. split.
  - unfold prepare_exp. cbn [exp_name]. split.
    + intros E. apply string_app_inj_l in E. apply string_app_inj_l in E.
      now apply Hinj.
    + intros ->. reflexivity.
  - unfold prepare_exp. cbn [log_path]. split.
    + intros E. apply string_app_inj_r in E.
      do 4 apply string_app_inj_l in E. now apply Hinj.
    + intros ->. reflexivity.
Qed.
End PrepareExpFacts.

(** The third run of an experiment, and the thousand-and-first. *)
Example prepare_exp_third_run :
  PrepareExp.prepare_exp "scanobjectnn"
    ["exp-test/scanobjectnn-000"; "exp-test/scanobjectnn-001"]%string
  = PrepareExp.mk_names "scanobjectnn-002" "exp-test/scanobjectnn-002"
      "exp-test/scanobjectnn-002/test.log" /\
  PrepareExp.format_03d 1000 = "1000"%string.
Proof. split; reflexivity. Qed.

(** ** The momentum under gradient checkpointing *)

Section Momentum.
Local Open Scope R_scope.

(** X14. For a momentum between 0 and 1, the momentum used under
    gradient checkpointing keeps, over two updates, the share
    [1 - bn_momentum] that the configured momentum keeps over one; it
    lies between half the configured momentum and the configured
    momentum; without checkpointing the configured momentum is used. *)
Theorem checkpoint_momentum_composes (bn_momentum : R) :
  0 <= bn_momentum <= 1 ->
  let m := TestScript.checkpoint_momentum true bn_momentum in
  (1 - m) * (1 - m) = 1 - bn_momentum /\
  bn_momentum / 2 <= m <= bn_momentum /\
  TestScript.checkpoint_momentum false bn_momentum = bn_momentum.
Proof.
  intros Hm m. subst m. unfold TestScript.checkpoint_momentum.
  replace (1 - (1 - sqrt (1 - bn_momentum))) with (sqrt (1 - bn_momentum))
    by ring.
  assert (Hs : sqrt (1 - bn_momentum) * sqrt (1 - bn_momentum)
               = 1 - bn_momentum) by (apply sqrt_sqrt; lra).
  assert (Hp : 0 <= sqrt (1 - bn_momentum)) by apply sqrt_pos.
  split; [exact Hs |]. split; [| reflexivity].
  assert (H1 : sqrt (1 - bn_momentum) <= 1).
  { rewrite <- sqrt_1 at 2. apply sqrt_le_1_alt. lra. }
  split; nra.
Qed.
End Momentum.

(** The momentum of the [ScanNetV2] configuration. *)
Lemma checkpoint_momentum_composes_witness :
  let m :=
    TestScript.checkpoint_momentum true (Q2R ScanNetV2Config.bn_momentum) in
  ((1 - m) * (1 - m) = 1 - Q2R ScanNetV2Config.bn_momentum)%R /\
  (Q2R ScanNetV2Config.bn_momentum / 2 <= m
   <= Q2R ScanNetV2Config.bn_momentum)%R /\
  TestScript.checkpoint_momentum false (Q2R ScanNetV2Config.bn_momentum)
  = Q2R ScanNetV2Config.bn_momentum.
Proof.
  apply (checkpoint_momentum_composes (Q2R ScanNetV2Config.bn_momentum)).
  unfold ScanNetV2Config.bn_momentum, Q2R. cbn. lra.
Defined.

(** ** The stochastic depth schedule *)

Section DropPaths.
Local Open Scope R_scope.

Lemma split_with_sizes_ok {A} (sizes : list nat) :
  forall t : list A,
    length t = list_sum sizes ->
    exists chunks,
      split_with_sizes t sizes = Ok chunks /\
      map (@length A) chunks = sizes /\
      concat chunks = t.
Proof.
  induction sizes as [| n rest IH]; intros t Hlen; cbn [split_with_sizes].
  - cbn in Hlen. rewrite Hlen. exists []. repeat split.
    destruct t; [reflexivity | discriminate].
  - change (list_sum (n :: rest)) with (n + list_sum rest)%nat in Hlen.
    destruct (Nat.leb_spec n (length t)); [| lia].
    destruct (IH (skipn n t)) as (chunks & Hs & Hl & Hc).
    { rewrite length_skipn. lia. }
    rewrite Hs. cbn [res_bind]. exists (firstn n t :: chunks).
    split; [reflexivity |]. split.
    + cbn [map]. rewrite Hl, length_firstn. f_equal. lia.
    + cbn [concat]. rewrite Hc. apply firstn_skipn.
Qed.

(** X15. Over the reals, the drop rates of a model configuration are
    always computed: one list per stage, with as many rates as the stage
    has residual blocks; taken in order through the stages, the rate of
    block [j] is [drop_path * j / (n - 1)] for [n] blocks in all, from 0
    for the first block to [drop_path] for the last. *)
Theorem drop_paths_schedule (drop_path : R) (res_blocks : list nat) :
  exists chunks,
    drop_paths drop_path res_blocks = Ok chunks /\
    map (@length R) chunks = res_blocks /\
    length (concat chunks) = list_sum res_blocks /\
    ((2 <= list_sum res_blocks)%nat ->
     forall j : nat,
       (j < list_sum res_blocks)%nat ->
       nth j (concat chunks) 0
       = drop_path * INR j / INR (list_sum res_blocks - 1)).
Proof.
  unfold drop_paths.
  destruct (split_with_sizes_ok res_blocks
              (linspace (f_lit 0%Q) drop_path (list_sum res_blocks)))
    as (chunks & Hs & Hl & Hc).
  { apply linspace_length. }
  exists chunks. split; [exact Hs |]. split; [exact Hl |].
  rewrite Hc. split; [apply linspace_length |].
  intros Hn j Hj.
  pose proof (linspace_node (f_lit 0%Q) drop_path (list_sum res_blocks) j
                Hn Hj) as Hnode.
  unfold node in Hnode. cbn [f_lit Scalar_R] in Hnode |- *.
  rewrite RMicromega.Q2R_0 in Hnode |- *. rewrite Hnode.
  assert (Hd : INR (list_sum res_blocks - 1) <> 0)
    by (apply not_0_INR; lia).
  field. exact Hd.
Qed.
End DropPaths.

(** The last of the 24 blocks of the [ScanNetV2] model. *)
Lemma drop_paths_schedule_witness :
  exists chunks,
    drop_paths (Q2R ScanNetV2Config.drop_path) ScanNetV2Config.res_blocks
    = Ok chunks /\
    map (@length R) chunks = ScanNetV2Config.res_blocks /\
    nth 23 (concat chunks) 0%R
    = (Q2R ScanNetV2Config.drop_path * INR 23 / INR (24 - 1))%R.
Proof.
  destruct (drop_paths_schedule (Q2R ScanNetV2Config.drop_path)
              ScanNetV2Config.res_blocks)
    as (chunks & Hrun & Hlen & _ & Hrate).
  exists chunks. split; [exact Hrun |]. split; [exact Hlen |].
  apply Hrate; cbn; lia.
Defined.

(** On rationals: the schedules of the two configurations. *)
Example configured_drop_paths :
  @drop_paths Q _ ScanNetV2Config.drop_path ScanNetV2Config.res_blocks
  = Ok [[0; 1 # 230; 1 # 115; 3 # 230]%Q;
        [2 # 115; 1 # 46; 3 # 115; 7 # 230]%Q;
        [4 # 115; 9 # 230; 1 # 23; 11 # 230]%Q;
        [6 # 115; 13 # 230; 7 # 115; 3 # 46; 8 # 115; 17 # 230; 9 # 115;
         19 # 230]%Q;
        [2 # 23; 21 # 230; 11 # 115; 1 # 10]%Q] /\
  @drop_paths Q _ ModelNet40Config.drop_path ModelNet40Config.res_blocks
  = Ok [[0; 3 # 220; 3 # 110; 9 # 220]%Q;
        [3 # 55; 3 # 44; 9 # 110; 21 # 220]%Q;
        [6 # 55; 27 # 220; 3 # 22; 15 # 100]%Q].
Proof. split; vm_compute; reflexivity. Qed.
